(** * The card store of [app_v1.py]: identifiers, upload ingestion, card log

    A shallow embedding of the helpers of [src/app_v1.py] ([sanitize_id],
    [allowed_file], [unique_filename], [cards_csv_path], [load_cards],
    [append_card]) and of the POST branch of [admin_new], with the parts of
    the Python runtime they call: [str] methods, [os.path.join], the [utf-8]
    codec of text files, universal newlines, [json.dumps] / [json.loads]
    and werkzeug's [secure_filename]; then of start-up ([create_app],
    [ensure_dirs]) and of the other views ([index], [uploaded_file],
    [admin_login], [admin_logout], [admin_required], [is_admin]).

    Conventions.
    - A Python [str] is the list of its code points ([N]); [bytes] is a list
      of [N] below 256.  [py "abc"] is the [str] of an ASCII literal.
    - The platform is POSIX: [os.sep] is [/], [os.linesep] is a line feed.
    - The file system is a finite map from path strings to nodes.  Two paths
      name the same node iff they are the same string; the paths the program
      builds are [os.path.join folder name] with [name] free of separators.
      Permissions, quotas and missing parent directories are not modelled
      ([ensure_dirs] ran at start-up), and neither are the limits on the
      length of a name and of a path: a theorem that needs a file to be
      written takes its name to fit them ([fits]).
    - Exceptions are results: [Raise e] propagates through [mbind].
    - Unicode tables that Python takes from [unicodedata] (lower-casing and
      NFKD of non-ASCII characters), the decimal/binary conversion of floats
      and Flask's [url_for] are fields of the class [Runtime].
    - A view returns what it passes to [redirect], [render_template] or
      [send_from_directory]; the templates and the sending of a file are
      not modelled.  [int] on a [str] and the order [list.sort] gives keys
      that are not all [str] are parameters of the definitions using them. *)

From Stdlib Require Import Ascii String DecimalN DecimalFacts.
From stdpp Require Import gmap list strings sorting.

Abbreviation str := (list N).
Abbreviation bytes := (list N).

(** ** Python strings *)
Module Py.

Definition py (s : string) : str := N_of_ascii <$> String.list_ascii_of_string s.

(** An ASCII literal in which an apostrophe stands for the double quote. *)
Definition pyq (s : string) : str :=
  (λ c, if (c =? 39)%N then 34%N else c) <$> py s.

(** [bool(s)] of a [str]: the empty string is falsy. *)
Definition truthy (s : str) : bool := match s with [] => false | _ => true end.

(** [c in "0123456789abcdef"] for a one-character [c]. *)
Definition in_chars (chars : str) (c : N) : bool := bool_decide (c ∈ chars).

Definition is_upper_ascii (c : N) : bool := (65 <=? c)%N && (c <=? 90)%N.
Definition is_ascii (c : N) : bool := (c <? 128)%N.

(** [str.isspace] of one character ([Py_UNICODE_ISSPACE]). *)
Definition isspace (c : N) : bool :=
  ((9 <=? c) && (c <=? 13) || (28 <=? c) && (c <=? 32)
   || (c =? 133) || (c =? 160) || (c =? 5760)
   || (8192 <=? c) && (c <=? 8202)
   || (c =? 8232) || (c =? 8233) || (c =? 8239) || (c =? 8287)
   || (c =? 12288))%N.

Fixpoint lstrip_by (p : N → bool) (s : str) : str :=
  match s with
  | c :: s' => if p c then lstrip_by p s' else s
  | [] => []
  end.
Definition rstrip_by (p : N → bool) (s : str) : str := rev (lstrip_by p (rev s)).
Definition strip_by (p : N → bool) (s : str) : str := rstrip_by p (lstrip_by p s).

(** [s.strip()] and [s.strip(chars)]. *)
Definition strip (s : str) : str := strip_by isspace s.
Definition strip_chars (chars s : str) : str := strip_by (in_chars chars) s.

(** Splitting at the last occurrence of a one-character separator. *)
Fixpoint split_last (sep : N) (s : str) : option (str * str) :=
  match s with
  | [] => None
  | c :: s' =>
      match split_last sep s' with
      | Some (b, a) => Some (c :: b, a)
      | None => if (c =? sep)%N then Some ([], s') else None
      end
  end.

(** [s.rpartition(sep)]: [(head, sep, tail)], or [("", "", s)]. *)
Definition rpartition (sep : N) (s : str) : str * str * str :=
  match split_last sep s with
  | Some (b, a) => (b, [sep], a)
  | None => ([], [], s)
  end.

(** [s.rsplit(sep, 1)[-1]]. *)
Definition rsplit1_last (sep : N) (s : str) : str :=
  match split_last sep s with
  | Some (_, a) => a
  | None => s
  end.

(** [sep in s] for a one-character [sep]. *)
Definition contains (sep : N) (s : str) : bool := existsb (N.eqb sep) s.

(** Decimal numerals. *)
Fixpoint digits_of_uint (u : Decimal.uint) : str :=
  match u with
  | Decimal.Nil => []
  | Decimal.D0 u => 48%N :: digits_of_uint u
  | Decimal.D1 u => 49%N :: digits_of_uint u
  | Decimal.D2 u => 50%N :: digits_of_uint u
  | Decimal.D3 u => 51%N :: digits_of_uint u
  | Decimal.D4 u => 52%N :: digits_of_uint u
  | Decimal.D5 u => 53%N :: digits_of_uint u
  | Decimal.D6 u => 54%N :: digits_of_uint u
  | Decimal.D7 u => 55%N :: digits_of_uint u
  | Decimal.D8 u => 56%N :: digits_of_uint u
  | Decimal.D9 u => 57%N :: digits_of_uint u
  end.

Definition is_digit (c : N) : bool := (48 <=? c)%N && (c <=? 57)%N.

(** The digits of [s], read as far as they are ASCII digits. *)
Fixpoint uint_of_digits (s : str) : Decimal.uint :=
  match s with
  | [] => Decimal.Nil
  | c :: s' =>
      let u := uint_of_digits s' in
      if (c =? 48)%N then Decimal.D0 u else if (c =? 49)%N then Decimal.D1 u
      else if (c =? 50)%N then Decimal.D2 u else if (c =? 51)%N then Decimal.D3 u
      else if (c =? 52)%N then Decimal.D4 u else if (c =? 53)%N then Decimal.D5 u
      else if (c =? 54)%N then Decimal.D6 u else if (c =? 55)%N then Decimal.D7 u
      else if (c =? 56)%N then Decimal.D8 u else if (c =? 57)%N then Decimal.D9 u
      else Decimal.Nil
  end.

(** [str(n)] of an [int] [n >= 0], as in an f-string. *)
Definition str_of_N (n : N) : str := digits_of_uint (N.to_uint n).

(** [s.replace(a, b)] for one-character [a] and [b]. *)
Definition replace1 (a b : N) (s : str) : str :=
  (λ c, if (c =? a)%N then b else c) <$> s.

(** [s.split()]: the maximal runs of non-whitespace characters. *)
Fixpoint split_ws_go (cur : str) (s : str) : list str :=
  match s with
  | [] => match cur with [] => [] | _ => [rev cur] end
  | c :: s' =>
      if isspace c
      then match cur with [] => split_ws_go [] s' | _ => rev cur :: split_ws_go [] s' end
      else split_ws_go (c :: cur) s'
  end.
Definition split_ws (s : str) : list str := split_ws_go [] s.

(** [sep.join(parts)]. *)
Fixpoint join (sep : str) (parts : list str) : str :=
  match parts with
  | [] => []
  | [p] => p
  | p :: ps => p ++ sep ++ join sep ps
  end.

End Py.
Export Py.

(** ** What the model takes from the runtime as given *)
Class Runtime := {
  (** [unicode_lower before c after]: the lower-case mapping of a non-ASCII
      character [c] inside [before ++ c :: after] (the context decides the
      final sigma). *)
  unicode_lower : str → N → str → str;
  (** [unicodedata.normalize("NFKD", s)]. *)
  nfkd : str → str;
  (** [repr(float(lit))] for a JSON number literal with a fraction or an
      exponent. *)
  float_of_literal : str → str;
  (** [url_for("uploaded_file", card_id=.., filename=..)]. *)
  url_for_uploaded_file : str → str → str;
}.

Section Lower.
Context `{Runtime}.

Definition lower_char (before : str) (c : N) (after : str) : str :=
  if is_upper_ascii c then [(c + 32)%N]
  else if is_ascii c then [c]
  else unicode_lower before c after.

Fixpoint lower_from (before s : str) : str :=
  match s with
  | [] => []
  | c :: s' => lower_char before c s' ++ lower_from (before ++ [c]) s'
  end.

(** [s.lower()]. *)
Definition lower (s : str) : str := lower_from [] s.

End Lower.

(** ** Identifier sanitizer and extension allow-list *)
Section Ident.
Context `{Runtime}.

Definition hexdigits : str := py "0123456789abcdef".

(** [sanitize_id]: the lower-cased identifier, or [""] when rejected. *)
Definition sanitize_id (value : str) : str :=
  if negb (truthy value) then []
  else
    let value := lower value in
    if forallb (in_chars hexdigits) value
       && (8 <=? length value)%nat && (length value <=? 32)%nat
    then value
    else [].

Definition ALLOWED_EXTENSIONS : gset str :=
  list_to_set
    (py <$> [ "jpg"; "jpeg"; "png"; "gif"; "webp";
              "mp4"; "webm"; "mov";
              "pdf"; "txt"; "csv"; "zip"; "7z"; "rar";
              "doc"; "docx"; "xls"; "xlsx"; "ppt"; "pptx" ]%string).

Definition dot : N := 46%N.

Definition allowed_file (filename : str) : bool :=
  if negb (contains dot filename) then false
  else
    let ext := lower (rsplit1_last dot filename) in
    bool_decide (ext ∈ ALLOWED_EXTENSIONS).

End Ident.

(** The runtime restricted to ASCII text, where the Unicode tables are the
    identity; a float keeps its literal, and [url_for] joins the path of the
    route [/uploads/<card_id>/<path:filename>]. *)
Definition ascii_runtime : Runtime := {|
  unicode_lower := λ _ c _, [c];
  nfkd := λ s, s;
  float_of_literal := λ lit, lit;
  url_for_uploaded_file := λ card_id filename,
    py "/uploads/" ++ card_id ++ py "/" ++ filename;
|}.

(** ** Facts about strings *)

(** Boolean tests on [N] and [nat] into propositions, for [lia]. *)
Ltac unbool :=
  repeat match goal with
    | H : _ |- _ =>
        first
          [ rewrite andb_true_iff in H | rewrite orb_true_iff in H
          | rewrite andb_false_iff in H | rewrite orb_false_iff in H
          | rewrite negb_true_iff in H | rewrite negb_false_iff in H
          | rewrite N.leb_le in H | rewrite N.leb_gt in H
          | rewrite N.ltb_lt in H | rewrite N.ltb_ge in H
          | rewrite N.eqb_eq in H | rewrite N.eqb_neq in H
          | rewrite Nat.leb_le in H | rewrite Nat.leb_gt in H
          | rewrite Nat.ltb_lt in H | rewrite Nat.ltb_ge in H
          | rewrite Nat.eqb_eq in H | rewrite Nat.eqb_neq in H ]
    end;
  repeat first
    [ rewrite andb_true_iff | rewrite orb_true_iff
    | rewrite andb_false_iff | rewrite orb_false_iff
    | rewrite negb_true_iff | rewrite negb_false_iff
    | rewrite N.leb_le | rewrite N.leb_gt
    | rewrite N.ltb_lt | rewrite N.ltb_ge
    | rewrite N.eqb_eq | rewrite N.eqb_neq
    | rewrite Nat.leb_le | rewrite Nat.leb_gt
    | rewrite Nat.ltb_lt | rewrite Nat.ltb_ge
    | rewrite Nat.eqb_eq | rewrite Nat.eqb_neq ].

Section PyFacts.
Context `{Runtime}.

(** A digit or a letter [a]-[f]; the same, or a letter [A]-[F]. *)
Definition is_lower_hex (c : N) : bool :=
  ((48 <=? c) && (c <=? 57) || (97 <=? c) && (c <=? 102))%N.
Definition is_hex_anycase (c : N) : bool :=
  is_lower_hex c || ((65 <=? c) && (c <=? 70))%N.

Lemma in_chars_hexdigits c : in_chars hexdigits c = is_lower_hex c.
Proof.
  unfold in_chars, is_lower_hex.
  apply eq_bool_prop_intro. rewrite bool_decide_spec.
  change hexdigits with
    [48;49;50;51;52;53;54;55;56;57;97;98;99;100;101;102]%N.
  rewrite !elem_of_cons, elem_of_nil.
  split.
  - intros Hc. apply Is_true_true. 
    repeat (destruct Hc as [-> | Hc]; [reflexivity|]). destruct Hc.
  - intros Hc%Is_true_true. unbool. lia.
Qed.

Lemma truthy_true s : truthy s = true ↔ s ≠ [].
Proof. destruct s; simpl; split; congruence. Qed.

Lemma lower_char_ascii before c after :
  is_ascii c = true →
  lower_char before c after = [if is_upper_ascii c then (c + 32)%N else c].
Proof. unfold lower_char. intros ->. by destruct (is_upper_ascii c). Qed.

Lemma lower_from_ascii before s :
  forallb is_ascii s = true →
  lower_from before s = (λ c, if is_upper_ascii c then (c + 32)%N else c) <$> s.
Proof.
  revert before. induction s as [|c s IH]; intros before Hs; [done|].
  simpl in Hs. apply andb_true_iff in Hs as [Hc Hs].
  simpl. rewrite lower_char_ascii by done. simpl. f_equal. by apply IH.
Qed.

Lemma lower_nil : lower [] = [].
Proof. done. Qed.

(** An ASCII character outside [0-9a-fA-F] stays outside [0-9a-f]. *)
Lemma lower_char_not_hex before c after :
  is_ascii c = true → is_hex_anycase c = false →
  ∃ d, lower_char before c after = [d] ∧ is_lower_hex d = false.
Proof.
  intros Ha Hh. rewrite lower_char_ascii by done.
  eexists; split; [done|].
  unfold is_hex_anycase, is_lower_hex, is_upper_ascii, is_ascii in *.
  destruct (65 <=? c)%N eqn:?, (c <=? 90)%N eqn:?; simpl; unbool; lia.
Qed.

Lemma lower_from_elem before s1 c s2 :
  ∀ d, d ∈ lower_char (before ++ s1) c s2 → d ∈ lower_from before (s1 ++ c :: s2).
Proof.
  revert before. induction s1 as [|a s1 IH]; intros before d Hd; simpl.
  - rewrite app_nil_r in Hd. apply elem_of_app. by left.
  - apply elem_of_app. right. apply IH. by rewrite <-app_assoc.
Qed.

End PyFacts.

(** ** The identifier sanitizer *)
Section IdentFacts.
Context `{Runtime}.

Definition hexdigits_anycase : str := py "0123456789abcdefABCDEF".

Lemma in_chars_hexdigits_anycase c :
  in_chars hexdigits_anycase c = is_hex_anycase c.
Proof.
  unfold in_chars, is_hex_anycase, is_lower_hex.
  apply eq_bool_prop_intro. rewrite bool_decide_spec.
  change hexdigits_anycase with
    [48;49;50;51;52;53;54;55;56;57;97;98;99;100;101;102;65;66;67;68;69;70]%N.
  rewrite !elem_of_cons, elem_of_nil.
  split.
  - intros Hc. apply Is_true_true.
    repeat (destruct Hc as [-> | Hc]; [reflexivity|]). destruct Hc.
  - intros Hc%Is_true_true. unbool. lia.
Qed.

Lemma forallb_in_chars chars s :
  forallb (in_chars chars) s = true ↔ Forall (λ c, c ∈ chars) s.
Proof.
  rewrite forallb_forall, Forall_forall. unfold in_chars.
  split; intros Hs c Hc.
  - apply list_elem_of_In, Hs in Hc. by apply bool_decide_eq_true in Hc.
  - apply bool_decide_eq_true, Hs. by apply list_elem_of_In.
Qed.

(** The test of [sanitize_id] on the lower-cased value. *)
Definition id_shape (folded : str) : Prop :=
  Forall (λ c, c ∈ hexdigits) folded ∧ 8 ≤ length folded ≤ 32.

Lemma sanitize_id_test folded :
  forallb (in_chars hexdigits) folded
    && (8 <=? length folded)%nat && (length folded <=? 32)%nat = true
  ↔ id_shape folded.
Proof.
  unfold id_shape. rewrite !andb_true_iff, forallb_in_chars.
  rewrite Nat.leb_le, Nat.leb_le. tauto.
Qed.

Lemma sanitize_id_accept raw :
  id_shape (lower raw) → sanitize_id raw = lower raw.
Proof.
  intros Hok. unfold sanitize_id.
  destruct raw as [|c raw].
  - destruct Hok as [_ [Hlen _]]. simpl in Hlen. lia.
  - cbn [truthy negb]. apply sanitize_id_test in Hok. by rewrite Hok.
Qed.

Lemma sanitize_id_reject raw :
  ¬ id_shape (lower raw) → sanitize_id raw = [].
Proof.
  intros Hno. unfold sanitize_id.
  destruct (negb (truthy raw)); [done|]. cbn zeta.
  destruct (_ && _ && _) eqn:Ht; [|done].
  by apply sanitize_id_test in Ht.
Qed.

Lemma id_shape_nonempty folded : id_shape folded → truthy folded = true.
Proof. intros [_ [Hlen _]]. destruct folded; simpl in *; [lia|done]. Qed.

Lemma lower_ascii_length s :
  forallb is_ascii s = true → length (lower s) = length s.
Proof. intros Hs. unfold lower. rewrite lower_from_ascii by done. apply length_fmap. Qed.

Lemma lower_ascii_hex s :
  forallb is_ascii s = true →
  Forall (λ c, c ∈ hexdigits) (lower s) ↔ Forall (λ c, c ∈ hexdigits_anycase) s.
Proof.
  intros Hs. unfold lower. rewrite lower_from_ascii by done.
  rewrite Forall_fmap. apply Forall_iff. intros c. unfold compose.
  pose proof (in_chars_hexdigits (if is_upper_ascii c then (c + 32)%N else c)) as H1.
  pose proof (in_chars_hexdigits_anycase c) as H2.
  unfold in_chars in H1, H2.
  rewrite <-(bool_decide_spec (_ ∈ hexdigits)), <-(bool_decide_spec (_ ∈ hexdigits_anycase)).
  rewrite H1, H2. unfold is_hex_anycase, is_lower_hex, is_upper_ascii.
  destruct (65 <=? c)%N eqn:?, (c <=? 90)%N eqn:?; simpl;
    rewrite !Is_true_true; split; intros; unbool; lia.
Qed.

End IdentFacts.

Section IdentClaims.
Context `{Runtime}.

(** C4.  [sanitize_id raw] is accepted (a non-empty result) exactly when the
    lower-cased [raw] consists of the characters [0-9a-f] only and has 8 to
    32 characters; the result is then the whole lower-cased [raw], and it is
    the empty string in every other case, never a part of [raw].  For ASCII
    input the test reads on [raw] itself: characters [0-9a-fA-F], length 8
    to 32.  Any [raw] holding an ASCII character outside [0-9a-fA-F], such
    as a slash, a backslash or a dot, is rejected; so is any [raw] holding a
    character outside [0-9a-fA-F] at all, when the lower-casing table of the
    runtime gives every non-ASCII character a character outside [0-9a-f],
    as Unicode's does. *)
Theorem sanitize_id_accepts_iff (raw : str) :
  (truthy (sanitize_id raw) = true ↔ id_shape (lower raw))
  ∧ (id_shape (lower raw) → sanitize_id raw = lower raw)
  ∧ (¬ id_shape (lower raw) → sanitize_id raw = [])
  ∧ (forallb is_ascii raw = true →
     (id_shape (lower raw)
      ↔ Forall (λ c, c ∈ hexdigits_anycase) raw ∧ 8 ≤ length raw ≤ 32))
  ∧ (∀ c, c ∈ raw → is_ascii c = true → c ∉ hexdigits_anycase →
     sanitize_id raw = [])
  ∧ ((∀ before c after, is_ascii c = false →
        ∃ d, d ∈ unicode_lower before c after ∧ d ∉ hexdigits) →
     ∀ c, c ∈ raw → c ∉ hexdigits_anycase → sanitize_id raw = []).
Proof.
  split_and!.
  - split.
    + intros Hacc. destruct (decide (id_shape (lower raw))) as [|Hno]; [done|].
      rewrite (sanitize_id_reject _ Hno) in Hacc. done.
    + intros Hok. rewrite (sanitize_id_accept _ Hok). by apply id_shape_nonempty.
  - apply sanitize_id_accept.
  - apply sanitize_id_reject.
  - intros Hascii. unfold id_shape.
    by rewrite lower_ascii_hex, lower_ascii_length.
  - intros c Hc Hascii Hnot. apply sanitize_id_reject. intros [Hall _].
    apply list_elem_of_split in Hc as (s1 & s2 & ->).
    assert (is_hex_anycase c = false) as Hh.
    { rewrite <-in_chars_hexdigits_anycase. by apply bool_decide_eq_false. }
    destruct (lower_char_not_hex s1 c s2 Hascii Hh) as (d & Hd & Hdh).
    assert (d ∈ lower (s1 ++ c :: s2)) as Hin.
    { apply lower_from_elem. simpl. rewrite Hd. by apply list_elem_of_singleton. }
    rewrite Forall_forall in Hall. apply Hall in Hin.
    rewrite <-in_chars_hexdigits in Hdh. by apply bool_decide_eq_false in Hdh.
  - intros Htable c Hc Hnot. apply sanitize_id_reject. intros [Hall _].
    apply list_elem_of_split in Hc as (s1 & s2 & ->).
    assert (∃ d, d ∈ lower_char s1 c s2 ∧ d ∉ hexdigits) as (d & Hd & Hdh).
    { destruct (is_ascii c) eqn:Hascii.
      - assert (is_hex_anycase c = false) as Hh.
        { rewrite <-in_chars_hexdigits_anycase. by apply bool_decide_eq_false. }
        destruct (lower_char_not_hex s1 c s2 Hascii Hh) as (d & Hd & Hdh).
        exists d. split; [rewrite Hd; by apply list_elem_of_singleton|].
        rewrite <-in_chars_hexdigits in Hdh. by apply bool_decide_eq_false in Hdh.
      - unfold lower_char. rewrite Hascii.
        assert (is_upper_ascii c = false) as ->.
        { unfold is_upper_ascii, is_ascii in *. unbool. lia. }
        by apply Htable. }
    assert (d ∈ lower (s1 ++ c :: s2)) as Hin by (by apply lower_from_elem).
    rewrite Forall_forall in Hall. by apply Hall in Hin.
Qed.

End IdentClaims.

Example sanitize_id_traversal :
  sanitize_id (H := ascii_runtime) (py "../../etc/passwd") = [].
Proof. reflexivity. Qed.

Example sanitize_id_upper :
  sanitize_id (H := ascii_runtime) (py "DEADBEEF01") = py "deadbeef01".
Proof. reflexivity. Qed.

Example sanitize_id_short :
  sanitize_id (H := ascii_runtime) (py "abc1234") = [].
Proof. reflexivity. Qed.

(** ** Python values and the [json] module

    [json.dumps(obj, ensure_ascii=False)] and [json.loads(s)] as CPython runs
    them (the [_json] accelerator: [encode_basestring], [scanstring],
    [scan_once], ASCII digits in numbers).  Dictionaries keep insertion
    order and have [str] keys.  A float is named by its [repr]; the
    interpreter's recursion limit and its limit on the digits of an [int]
    literal are not modelled: what is stated of the library for all
    values is stated within them ([within_limits]). *)
Module Json.

Unset Elimination Schemes.
Inductive pyval :=
| PNone
| PBool (b : bool)
| PInt (z : Z)
| PFloat (repr : str)
| PStr (s : str)
| PList (l : list pyval)
| PDict (d : list (str * pyval)).
Set Elimination Schemes.

Definition ord (a : ascii) : N := N_of_ascii a.

(** [int.__repr__], for an [int] within the interpreter's limit on digits. *)
Definition int_repr (z : Z) : str :=
  if (z <? 0)%Z then ord "-" :: str_of_N (Z.abs_N z) else str_of_N (Z.to_N z).

(** [int(lit)] for [lit] an optional minus sign followed by digits, within
    the interpreter's limit on digits. *)
Definition int_of_literal (lit : str) : Z :=
  match lit with
  | c :: digits =>
      if (c =? ord "-")%N then (- Z.of_N (N.of_uint (uint_of_digits digits)))%Z
      else Z.of_N (N.of_uint (uint_of_digits lit))
  | [] => 0%Z
  end.

(** *** Encoder *)
Definition hexdigit (n : N) : N :=
  if (n <? 10)%N then (48 + n)%N else (87 + n)%N.

(** [ESCAPE_DCT]: the replacement of a character matched by [ESCAPE]. *)
Definition escape_char (c : N) : str :=
  if (c =? ord "\")%N then [ord "\"; ord "\"]
  else if (c =? 34)%N then [ord "\"; 34%N]
  else if (c =? 8)%N then [ord "\"; ord "b"]
  else if (c =? 12)%N then [ord "\"; ord "f"]
  else if (c =? 10)%N then [ord "\"; ord "n"]
  else if (c =? 13)%N then [ord "\"; ord "r"]
  else if (c =? 9)%N then [ord "\"; ord "t"]
  else if (c <? 32)%N then
    [ord "\"; ord "u"; ord "0"; ord "0"; hexdigit (c / 16); hexdigit (c mod 16)]
  else [c].

Definition encode_basestring (s : str) : str :=
  34%N :: flat_map escape_char s ++ [34%N].

(** [float.__repr__] as the encoder writes it ([allow_nan] is on). *)
Definition floatstr (repr : str) : str :=
  if bool_decide (repr = py "nan") then py "NaN"
  else if bool_decide (repr = py "inf") then py "Infinity"
  else if bool_decide (repr = py "-inf") then py "-Infinity"
  else repr.

Definition item_separator : str := py ", ".
Definition key_separator : str := py ": ".

Fixpoint encode (o : pyval) : str :=
  match o with
  | PNone => py "null"
  | PBool true => py "true"
  | PBool false => py "false"
  | PInt z => int_repr z
  | PFloat r => floatstr r
  | PStr s => encode_basestring s
  | PList l =>
      ord "[" :: join item_separator (map encode l) ++ [ord "]"]
  | PDict d =>
      ord "{"
      :: join item_separator
           (map (λ kv, encode_basestring (fst kv) ++ key_separator ++ encode (snd kv)) d)
      ++ [ord "}"]
  end.

(** [json.dumps(obj, ensure_ascii=False)]. *)
Definition dumps (obj : pyval) : str := encode obj.

End Json.
Export Json.

(** *** Decoder *)
Module JsonDecoder.

(** The outcome of scanning at a position: the value and the text after
    it, an error ([JSONDecodeError], [StopIteration]), or the recursion
    budget of the model used up ([loads] gives enough, see
    [scan_once_enough]). *)
Inductive scanned (A : Type) :=
| Scanned (a : A) (rest : str)
| Invalid
| Starved.
Arguments Scanned {A} a rest.
Arguments Invalid {A}.
Arguments Starved {A}.

(** [WHITESPACE]: space, tab, line feed, carriage return. *)
Definition is_ws (c : N) : bool :=
  ((c =? 32) || (c =? 9) || (c =? 10) || (c =? 13))%N.
Definition skip_ws (s : str) : str := lstrip_by is_ws s.

Definition hexval (c : N) : option N :=
  if is_digit c then Some (c - 48)%N
  else if ((97 <=? c) && (c <=? 102))%N then Some (c - 87)%N
  else if ((65 <=? c) && (c <=? 70))%N then Some (c - 55)%N
  else None.

(** [_decode_uXXXX]: four hexadecimal digits. *)
Definition hex4 (a b c d : N) : option N :=
  match hexval a, hexval b, hexval c, hexval d with
  | Some a, Some b, Some c, Some d => Some (((a * 16 + b) * 16 + c) * 16 + d)%N
  | _, _, _, _ => None
  end.

(** [BACKSLASH]: the one-character escapes. *)
Definition backslash (e : N) : option N :=
  if (e =? 34)%N then Some 34%N
  else if (e =? ord "\")%N then Some (ord "\")
  else if (e =? ord "/")%N then Some (ord "/")
  else if (e =? ord "b")%N then Some 8%N
  else if (e =? ord "f")%N then Some 12%N
  else if (e =? ord "n")%N then Some 10%N
  else if (e =? ord "r")%N then Some 13%N
  else if (e =? ord "t")%N then Some 9%N
  else None.

Definition is_high_surrogate (u : N) : bool := (55296 <=? u)%N && (u <=? 56319)%N.
Definition is_low_surrogate (u : N) : bool := (56320 <=? u)%N && (u <=? 57343)%N.
Definition join_surrogates (hi lo : N) : N :=
  (65536 + ((hi - 55296) * 1024 + (lo - 56320)))%N.

(** [scanstring(s, end, strict=True)] from just after the opening quote:
    the decoded string and the text after the closing quote. *)
Fixpoint scanstring (s : str) : option (str * str) :=
  match s with
  | [] => None
  | c :: s1 =>
      if (c =? 34)%N then Some ([], s1)
      else if (c =? ord "\")%N then
        match s1 with
        | [] => None
        | e :: s2 =>
            if (e =? ord "u")%N then
              match s2 with
              | x1 :: x2 :: x3 :: x4 :: s3 =>
                  match hex4 x1 x2 x3 x4 with
                  | None => None
                  | Some uni =>
                      let single :=
                        match scanstring s3 with
                        | Some (t, r) => Some (uni :: t, r)
                        | None => None
                        end in
                      if is_high_surrogate uni then
                        match s3 with
                        | b :: u :: s4 =>
                            if (b =? ord "\")%N && (u =? ord "u")%N then
                              match s4 with
                              | y1 :: y2 :: y3 :: y4 :: s5 =>
                                  match hex4 y1 y2 y3 y4 with
                                  | None => None
                                  | Some uni2 =>
                                      if is_low_surrogate uni2 then
                                        match scanstring s5 with
                                        | Some (t, r) =>
                                            Some (join_surrogates uni uni2 :: t, r)
                                        | None => None
                                        end
                                      else single
                                  end
                              | _ => None
                              end
                            else single
                        | _ => single
                        end
                      else single
                  end
              | _ => None
              end
            else
              match backslash e with
              | None => None
              | Some ch =>
                  match scanstring s2 with
                  | Some (t, r) => Some (ch :: t, r)
                  | None => None
                  end
              end
        end
      else if (c <? 32)%N then None
      else
        match scanstring s1 with
        | Some (t, r) => Some (c :: t, r)
        | None => None
        end
  end.

(** One round of the loop of [scanstring]: the closing quote ([None]) or
    the next character of the string, and the text after it. *)
Definition scan_char (s : str) : option (option N * str) :=
  match s with
  | [] => None
  | c :: s1 =>
      if (c =? 34)%N then Some (None, s1)
      else if (c =? ord "\")%N then
        match s1 with
        | [] => None
        | e :: s2 =>
            if (e =? ord "u")%N then
              match s2 with
              | x1 :: x2 :: x3 :: x4 :: s3 =>
                  match hex4 x1 x2 x3 x4 with
                  | None => None
                  | Some uni =>
                      if is_high_surrogate uni then
                        match s3 with
                        | b :: u :: s4 =>
                            if (b =? ord "\")%N && (u =? ord "u")%N then
                              match s4 with
                              | y1 :: y2 :: y3 :: y4 :: s5 =>
                                  match hex4 y1 y2 y3 y4 with
                                  | None => None
                                  | Some uni2 =>
                                      if is_low_surrogate uni2
                                      then Some (Some (join_surrogates uni uni2), s5)
                                      else Some (Some uni, s3)
                                  end
                              | _ => None
                              end
                            else Some (Some uni, s3)
                        | _ => Some (Some uni, s3)
                        end
                      else Some (Some uni, s3)
                  end
              | _ => None
              end
            else
              match backslash e with
              | None => None
              | Some ch => Some (Some ch, s2)
              end
        end
      else if (c <? 32)%N then None
      else Some (Some c, s1)
  end.

Fixpoint span_digits (s : str) : str * str :=
  match s with
  | c :: s' =>
      if is_digit c then let '(d, r) := span_digits s' in (c :: d, r)
      else ([], s)
  | [] => ([], [])
  end.

(** The integer part: an optional minus sign, then a single zero or a
    non-zero digit followed by digits. *)
Definition match_integer (s : str) : option (str * str) :=
  let '(sign, s1) :=
    match s with
    | c :: s' => if (c =? ord "-")%N then ([c], s') else ([], s)
    | [] => ([], s)
    end in
  match s1 with
  | [] => None
  | c :: s2 =>
      if ((49 <=? c) && (c <=? 57))%N then
        let '(d, r) := span_digits s2 in Some (sign ++ c :: d, r)
      else if (c =? 48)%N then Some (sign ++ [c], s2)
      else None
  end.

(** The fraction: a dot and at least one digit, or nothing. *)
Definition match_frac (s : str) : str * str :=
  match s with
  | p :: d :: s' =>
      if (p =? ord ".")%N && is_digit d then
        let '(ds, r) := span_digits s' in (p :: d :: ds, r)
      else ([], s)
  | _ => ([], s)
  end.

(** The exponent: [e] or [E], an optional sign and at least one digit, or
    nothing. *)
Definition match_exp (s : str) : str * str :=
  match s with
  | e :: s' =>
      if ((e =? ord "e") || (e =? ord "E"))%N then
        let '(sg, s'') :=
          match s' with
          | c :: t => if ((c =? ord "-") || (c =? ord "+"))%N then ([c], t) else ([], s')
          | [] => ([], s')
          end in
        let '(ds, r) := span_digits s'' in
        match ds with
        | [] => ([], s)
        | _ => (e :: sg ++ ds, r)
        end
      else ([], s)
  | [] => ([], s)
  end.

Section Scanner.
Context `{Runtime}.

(** [_match_number]. *)
Definition match_number (s : str) : scanned pyval :=
  match match_integer s with
  | None => Invalid
  | Some (integer, r1) =>
      let '(frac, r2) := match_frac r1 in
      let '(exp, r3) := match_exp r2 in
      if truthy frac || truthy exp
      then Scanned (PFloat (float_of_literal (integer ++ frac ++ exp))) r3
      else Scanned (PInt (int_of_literal integer)) r3
  end.

(** [s[idx:idx+len(lit)] == lit], giving the text after it. *)
Fixpoint after_prefix (lit s : str) : option str :=
  match lit, s with
  | [], _ => Some s
  | a :: lit', c :: s' => if (a =? c)%N then after_prefix lit' s' else None
  | _ :: _, [] => None
  end.

(** [d[k] = v] on an insertion-ordered dictionary. *)
Fixpoint dict_set (d : list (str * pyval)) (k : str) (v : pyval) : list (str * pyval) :=
  match d with
  | [] => [(k, v)]
  | (k', v') :: d' =>
      if decide (k = k') then (k', v) :: d' else (k', v') :: dict_set d' k v
  end.
Definition dict_of_pairs (pairs : list (str * pyval)) : list (str * pyval) :=
  foldl (λ d kv, dict_set d (fst kv) (snd kv)) [] pairs.

Definition keyword (lit : str) (v : pyval) (s : str) (otherwise : scanned pyval)
  : scanned pyval :=
  match after_prefix lit s with
  | Some r => Scanned v r
  | None => otherwise
  end.

(** Sequencing of scans: errors and a used-up budget propagate. *)
Definition and_then {A B} (r : scanned A) (k : A → str → scanned B) : scanned B :=
  match r with
  | Scanned a rest => k a rest
  | Invalid => Invalid
  | Starved => Starved
  end.

(** The body of [scan_once], given the scanners of the items of an array
    and of an object. *)
Definition scan_once_body
    (array_items : str → scanned (list pyval))
    (object_items : str → scanned (list (str * pyval)))
    (s : str) : scanned pyval :=
  match s with
  | [] => Invalid
  | c :: s' =>
      if (c =? 34)%N then
        match scanstring s' with
        | Some (t, r) => Scanned (PStr t) r
        | None => Invalid
        end
      else if (c =? ord "{")%N then
        match skip_ws s' with
        | c' :: r =>
            if (c' =? ord "}")%N then Scanned (PDict []) r
            else
              and_then (object_items (c' :: r))
                (λ pairs r', Scanned (PDict (dict_of_pairs pairs)) r')
        | [] => Invalid
        end
      else if (c =? ord "[")%N then
        match skip_ws s' with
        | c' :: r =>
            if (c' =? ord "]")%N then Scanned (PList []) r
            else and_then (array_items (c' :: r)) (λ l r', Scanned (PList l) r')
        | [] => Invalid
        end
      else if (c =? ord "n")%N then keyword (py "null") PNone s (match_number s)
      else if (c =? ord "t")%N then keyword (py "true") (PBool true) s (match_number s)
      else if (c =? ord "f")%N then keyword (py "false") (PBool false) s (match_number s)
      else if (c =? ord "N")%N then keyword (py "NaN") (PFloat (py "nan")) s (match_number s)
      else if (c =? ord "I")%N then
        keyword (py "Infinity") (PFloat (py "inf")) s (match_number s)
      else if (c =? ord "-")%N then
        keyword (py "-Infinity") (PFloat (py "-inf")) s (match_number s)
      else match_number s
  end.

(** One round of the [while] loop of [JSONArray], entered at the start of
    a term. *)
Definition array_items_body
    (scan_once : str → scanned pyval)
    (array_items : str → scanned (list pyval))
    (s : str) : scanned (list pyval) :=
  and_then (scan_once s) (λ v r,
    match skip_ws r with
    | c :: r' =>
        if (c =? ord "]")%N then Scanned [v] r'
        else if (c =? ord ",")%N then
          and_then (array_items (skip_ws r')) (λ l r'', Scanned (v :: l) r'')
        else Invalid
    | [] => Invalid
    end).

(** One round of the [while] loop of [JSONObject], entered at the start of
    a key. *)
Definition object_items_body
    (scan_once : str → scanned pyval)
    (object_items : str → scanned (list (str * pyval)))
    (s : str) : scanned (list (str * pyval)) :=
  match s with
  | c :: s' =>
      if (c =? 34)%N then
        match scanstring s' with
        | None => Invalid
        | Some (key, r) =>
            match skip_ws r with
            | c1 :: r1 =>
                if (c1 =? ord ":")%N then
                  and_then (scan_once (skip_ws r1)) (λ v r2,
                    match skip_ws r2 with
                    | c2 :: r3 =>
                        if (c2 =? ord "}")%N then Scanned [(key, v)] r3
                        else if (c2 =? ord ",")%N then
                          and_then (object_items (skip_ws r3))
                            (λ l r4, Scanned ((key, v) :: l) r4)
                        else Invalid
                    | [] => Invalid
                    end)
                else Invalid
            | [] => Invalid
            end
        end
      else Invalid
  | [] => Invalid
  end.

(** [scan_once], [JSONArray] and [JSONObject], with a budget of nested
    calls. *)
Fixpoint scan_once (fuel : nat) (s : str) : scanned pyval :=
  match fuel with
  | O => Starved
  | S fuel => scan_once_body (array_items fuel) (object_items fuel) s
  end
with array_items (fuel : nat) (s : str) : scanned (list pyval) :=
  match fuel with
  | O => Starved
  | S fuel => array_items_body (scan_once fuel) (array_items fuel) s
  end
with object_items (fuel : nat) (s : str) : scanned (list (str * pyval)) :=
  match fuel with
  | O => Starved
  | S fuel => object_items_body (scan_once fuel) (object_items fuel) s
  end.

(** Enough budget for any text of this length. *)
Definition budget (s : str) : nat := 2 * length s + 1.

(** [json.loads(s)] for a [str]: [None] stands for the exception raised
    (a [JSONDecodeError]). *)
Definition loads (s : str) : option pyval :=
  match s with
  | 65279%N :: _ => None
  | _ =>
      let s0 := skip_ws s in
      match scan_once (budget s0) s0 with
      | Scanned obj r =>
          match skip_ws r with
          | [] => Some obj
          | _ => None
          end
      | Invalid => None
      | Starved => None
      end
  end.

End Scanner.
End JsonDecoder.
Export JsonDecoder.

Section JsonExamples.
Let rt := ascii_runtime.
Existing Instance rt.

Example loads_object :
  loads (pyq "{'id': 'ab', 'files': [1, -20, true, null]}")
  = Some (PDict [(py "id", PStr (py "ab"));
                 (py "files", PList [PInt 1; PInt (-20); PBool true; PNone])]).
Proof. vm_compute. reflexivity. Qed.
End JsonExamples.

(** ** Text files: the [utf-8] codec and universal newlines *)
Module TextIO.

(** A code point that [utf-8] can encode: below 0x110000 and not a
    surrogate. *)
Definition is_scalar (c : N) : bool :=
  ((c <? 55296) || (57344 <=? c) && (c <? 1114112))%N.

Definition is_cont (b : N) : bool := (128 <=? b)%N && (b <? 192)%N.

Definition encode_char (c : N) : option bytes :=
  if (c <? 128)%N then Some [c]
  else if (c <? 2048)%N then Some [192 + c / 64; 128 + c mod 64]%N
  else if negb (is_scalar c) then None
  else if (c <? 65536)%N then
    Some [224 + c / 4096; 128 + (c / 64) mod 64; 128 + c mod 64]%N
  else
    Some [240 + c / 262144; 128 + (c / 4096) mod 64;
          128 + (c / 64) mod 64; 128 + c mod 64]%N.

(** [s.encode("utf-8")]; [None] is [UnicodeEncodeError]. *)
Fixpoint utf8_encode (s : str) : option bytes :=
  match s with
  | [] => Some []
  | c :: s' =>
      match encode_char c, utf8_encode s' with
      | Some b, Some bs => Some (b ++ bs)
      | _, _ => None
      end
  end.

Definition decode2 (b0 b1 : N) : option N :=
  let c := ((b0 - 192) * 64 + (b1 - 128))%N in
  if is_cont b1 && (128 <=? c)%N then Some c else None.

Definition decode3 (b0 b1 b2 : N) : option N :=
  let c := (((b0 - 224) * 64 + (b1 - 128)) * 64 + (b2 - 128))%N in
  if is_cont b1 && is_cont b2 && (2048 <=? c)%N && is_scalar c then Some c else None.

Definition decode4 (b0 b1 b2 b3 : N) : option N :=
  let c := ((((b0 - 240) * 64 + (b1 - 128)) * 64 + (b2 - 128)) * 64 + (b3 - 128))%N in
  if is_cont b1 && is_cont b2 && is_cont b3 && (65536 <=? c)%N && (c <? 1114112)%N
  then Some c else None.

(** [b.decode("utf-8")], strict; [None] is [UnicodeDecodeError]. *)
Fixpoint utf8_decode (b : bytes) : option str :=
  match b with
  | [] => Some []
  | b0 :: r1 =>
      if (b0 <? 128)%N then cons b0 <$> utf8_decode r1
      else if (b0 <? 192)%N then None
      else if (b0 <? 224)%N then
        match r1 with
        | b1 :: r2 =>
            match decode2 b0 b1 with
            | Some c => cons c <$> utf8_decode r2
            | None => None
            end
        | _ => None
        end
      else if (b0 <? 240)%N then
        match r1 with
        | b1 :: b2 :: r3 =>
            match decode3 b0 b1 b2 with
            | Some c => cons c <$> utf8_decode r3
            | None => None
            end
        | _ => None
        end
      else if (b0 <? 248)%N then
        match r1 with
        | b1 :: b2 :: b3 :: r4 =>
            match decode4 b0 b1 b2 b3 with
            | Some c => cons c <$> utf8_decode r4
            | None => None
            end
        | _ => None
        end
      else None
  end.

Definition LF : N := 10%N.
Definition CR : N := 13%N.

(** Reading with [newline=None]: [\r\n] and [\r] become [\n]. *)
Fixpoint universal_newlines (s : str) : str :=
  match s with
  | [] => []
  | c :: s' =>
      if (c =? CR)%N then
        match s' with
        | c' :: s'' =>
            if (c' =? LF)%N then LF :: universal_newlines s''
            else LF :: universal_newlines s'
        | [] => [LF]
        end
      else c :: universal_newlines s'
  end.

(** The lines a text file yields when iterated, each with its line feed
    (the last one may lack it). *)
Fixpoint text_lines (s : str) : list str :=
  match s with
  | [] => []
  | c :: s' =>
      if (c =? LF)%N then [c] :: text_lines s'
      else
        match text_lines s' with
        | [] => [[c]]
        | l :: ls => (c :: l) :: ls
        end
  end.

End TextIO.
Export TextIO.

(** ** The file system and the effects of a request *)
Module Sys.

Inductive node :=
| File (data : bytes)
| Dir.

#[global] Instance node_eq_dec : EqDecision node.
Proof. solve_decision. Defined.

Inductive exn :=
| FileExistsError
| FileNotFoundError
| IsADirectoryError
| UnicodeEncodeError
| UnicodeDecodeError.

(** The messages [admin_new] flashes (the source has them in Russian):
    the title is required; the file [original] is rejected for its
    extension; the card is published. *)
Inductive message :=
| MsgTitleRequired
| MsgUnsupportedExtension (original : str)
| MsgPublished.

Record world := World {
  fs : gmap str node;
  flashes : list (message * string);
}.

(** What a computation leaves: a value, an exception, or the loop budget
    of the model used up (shown not to happen, see [admin_new_terminates]).
    The world is the one reached at that point. *)
Inductive outcome (A : Type) :=
| Ok (a : A) (w : world)
| Raise (e : exn) (w : world)
| Exhausted.
Arguments Ok {A} a w.
Arguments Raise {A} e w.
Arguments Exhausted {A}.

Definition M (A : Type) : Type := world → outcome A.

#[global] Instance M_ret : MRet M := λ A a w, Ok a w.
#[global] Instance M_bind : MBind M := λ A B f m w,
  match m w with
  | Ok a w' => f a w'
  | Raise e w' => Raise e w'
  | Exhausted => Exhausted
  end.
Definition raise {A} (e : exn) : M A := λ w, Raise e w.
Definition exhausted {A} : M A := λ _, Exhausted.
Definition get_fs : M (gmap str node) := λ w, Ok (fs w) w.
Definition put_fs (m : gmap str node) : M unit :=
  λ w, Ok tt (World m (flashes w)).

(** [flash(message, category)]. *)
Definition flash (m : message) (category : string) : M unit :=
  λ w, Ok tt (World (fs w) (flashes w ++ [(m, category)])).

End Sys.
Export Sys.

Module Os.

Definition sep : N := 47%N.

(** [os.path.join(a, b)] ([posixpath]). *)
Definition path_join (a b : str) : str :=
  match b with
  | c :: _ =>
      if (c =? sep)%N then b
      else if negb (truthy a) || bool_decide (last a = Some sep) then a ++ b
      else a ++ sep :: b
  | [] =>
      if negb (truthy a) || bool_decide (last a = Some sep) then a ++ b
      else a ++ sep :: b
  end.

(** [os.path.exists(p)]. *)
Definition path_exists (p : str) : M bool :=
  m ← get_fs; mret (bool_decide (is_Some (m !! p))).

(** [os.makedirs(p, exist_ok=True)].  The empty path names nothing:
    [mkdir] fails on it with [ENOENT], and [makedirs] lets that through
    since the empty path is no directory. *)
Definition makedirs (p : str) : M unit :=
  if negb (truthy p) then raise FileNotFoundError
  else
    m ← get_fs;
    match m !! p with
    | Some Dir => mret tt
    | Some (File _) => raise FileExistsError
    | None => put_fs (<[p := Dir]> m)
    end.

(** [open(p, "wb")], writing [data], closing. *)
Definition write_bytes (p : str) (data : bytes) : M unit :=
  m ← get_fs;
  match m !! p with
  | Some Dir => raise IsADirectoryError
  | _ => put_fs (<[p := File data]> m)
  end.

(** The limits of the file system on the bytes of a name and of a path
    ([NAME_MAX] and [PATH_MAX] of Linux, the latter counting a final NUL).
    Beyond them [os.path.exists] is false and [open] raises [OSError]
    ([ENAMETOOLONG]), which the operations of this module do not show:
    where a write has to succeed, the name is taken to fit. *)
Definition NAME_MAX : nat := 255.
Definition PATH_MAX : nat := 4096.

Definition fits (folder name : str) : bool :=
  match utf8_encode name, utf8_encode (path_join folder name) with
  | Some n, Some p => (length n <=? NAME_MAX) && (length p <? PATH_MAX)
  | _, _ => false
  end.

(** [open(p, "r", encoding="utf-8")], reading the whole text. *)
Definition read_text (p : str) : M str :=
  m ← get_fs;
  match m !! p with
  | Some (File data) =>
      match utf8_decode data with
      | Some text => mret (universal_newlines text)
      | None => raise UnicodeDecodeError
      end
  | Some Dir => raise IsADirectoryError
  | None => raise FileNotFoundError
  end.

(** [open(p, "a", encoding="utf-8")]: the file is created when missing. *)
Definition open_append (p : str) : M unit :=
  m ← get_fs;
  match m !! p with
  | Some (File _) => mret tt
  | Some Dir => raise IsADirectoryError
  | None => put_fs (<[p := File []]> m)
  end.

(** [f.write(text)] on a file opened for appending, flushed on close. *)
Definition append_text (p : str) (text : str) : M unit :=
  m ← get_fs;
  match utf8_encode text with
  | None => raise UnicodeEncodeError
  | Some b =>
      match m !! p with
      | Some (File data) => put_fs (<[p := File (data ++ b)]> m)
      | _ => raise IsADirectoryError
      end
  end.

(** [with FileLock(p): body].  One request runs at a time in this model:
    taking the lock opens (creates or truncates) the lock file, and
    leaving the block releases it on every path. *)
Definition with_lock {A} (p : str) (body : M A) : M A :=
  m ← get_fs;
  match m !! p with
  | Some Dir => raise IsADirectoryError
  | _ => put_fs (<[p := File []]> m);; body
  end.

End Os.
Export Os.

(** ** The application *)
Module App.

(** The two entries of [app.config] the store reads. *)
Record config := Config {
  DATA_DIR : str;
  UPLOADS_DIR : str;
}.

(** An uploaded file ([werkzeug.datastructures.FileStorage]): the name the
    client sent, if any, and the content of the stream. *)
Record FileStorage := {
  filename : option str;
  stream : bytes;
}.

(** [bool(f)]: [FileStorage.__bool__] is [bool(self.filename)]. *)
Definition file_bool (f : FileStorage) : bool :=
  match filename f with
  | Some name => truthy name
  | None => false
  end.

(** [getattr(f, "filename", "")]; a [None] name is as falsy as [""]. *)
Definition getattr_filename (f : FileStorage) : str := default [] (filename f).

Inductive response :=
| Redirect (endpoint : string)
| Render (template : string).

(** The dictionary [admin_new] appends to [saved_files] for a stored file:
    the values under ["name"], ["url"] and ["ext"]. *)
Record StoredFile := {
  f_name : str;
  f_url : str;
  f_ext : str;
}.

(** The dictionary [admin_new] builds for a card: the values under ["id"],
    ["created_at"], ["title"], ["description"] and ["files"]. *)
Record Card := {
  c_id : str;
  c_created_at : str;
  c_title : str;
  c_description : str;
  c_files : list StoredFile;
}.

Definition stored_file_dict (f : StoredFile) : pyval :=
  PDict [(py "name", PStr (f_name f));
         (py "url", PStr (f_url f));
         (py "ext", PStr (f_ext f))].

Definition card_dict (c : Card) : pyval :=
  PDict [(py "id", PStr (c_id c));
         (py "created_at", PStr (c_created_at c));
         (py "title", PStr (c_title c));
         (py "description", PStr (c_description c));
         (py "files", PList (stored_file_dict <$> c_files c))].

Section Helpers.
Context `{Runtime}.

(** [werkzeug.utils.secure_filename] on POSIX. *)
Definition filename_safe_char (c : N) : bool :=
  ((65 <=? c) && (c <=? 90) || (97 <=? c) && (c <=? 122)
   || (48 <=? c) && (c <=? 57)
   || (c =? 95) || (c =? 46) || (c =? 45))%N.

Definition secure_filename (name : str) : str :=
  let name := nfkd name in
  let name := List.filter is_ascii name in
  let name := replace1 sep 32%N name in
  strip_chars (py "._")
    (List.filter filename_safe_char (join (py "_") (split_ws name))).

(** The first lines of [unique_filename]: [base] and [ext] of a name, the
    whole name and [""] when it has no dot. *)
Definition split_ext (name : str) : str * str :=
  let '(base, dot_, ext) := rpartition dot name in
  if negb (truthy dot_) then (name, []) else (base, ext).

(** The candidate of the [i]-th round of [unique_filename]. *)
Definition candidate_name (base ext : str) (i : N) : str :=
  if truthy ext then base ++ py "_" ++ str_of_N i ++ py "." ++ ext
  else base ++ py "_" ++ str_of_N i.

(** The [while] loop of [unique_filename], for at most [fuel] rounds. *)
Fixpoint unique_filename_loop (fuel : nat) (m : gmap str node)
    (folder base ext candidate : str) (i : N) : option str :=
  match fuel with
  | O => None
  | S fuel =>
      if bool_decide (is_Some (m !! path_join folder candidate))
      then unique_filename_loop fuel m folder base ext
             (candidate_name base ext i) (i + 1)%N
      else Some candidate
  end.

(** [unique_filename]: the loop ends within two rounds more than the file
    system has entries ([unique_filename_total]).  Existence is a lookup of
    the joined path, which is [os.path.exists] for the names [admin_new]
    passes: not empty, not [.] or [..], without a separator. *)
Definition unique_filename (folder name : str) : M str :=
  let '(base, ext) := split_ext name in
  m ← get_fs;
  match unique_filename_loop (S (S (size m))) m folder base ext name 2 with
  | Some candidate => mret candidate
  | None => exhausted
  end.

Definition cards_csv_path (app : config) : str :=
  path_join (DATA_DIR app) (py "submissions.csv").

(** The body of the [for line in f] loop of [load_cards]. *)
Fixpoint load_cards_lines (lines : list str) (cards : list pyval) : list pyval :=
  match lines with
  | [] => cards
  | line :: lines =>
      let line := strip line in
      if negb (truthy line) then load_cards_lines lines cards
      else
        match loads line with
        | Some card => load_cards_lines lines (cards ++ [card])
        | None => load_cards_lines lines cards
        end
  end.

Definition load_cards (app : config) : M (list pyval) :=
  let path := cards_csv_path app in
  there ← path_exists path;
  if negb there then mret []
  else
    with_lock (path ++ py ".lock")
      (text ← read_text path;
       mret (load_cards_lines (text_lines text) [])).

Definition append_card (app : config) (card : pyval) : M unit :=
  let path := cards_csv_path app in
  with_lock (path ++ py ".lock")
    (open_append path;;
     append_text path (dumps card ++ [LF])).

(** The dictionary appended to [saved_files] for a file stored as [name]. *)
Definition stored_file (card_id name : str) : StoredFile := {|
  f_name := name;
  f_url := url_for_uploaded_file card_id name;
  f_ext := lower (rsplit1_last dot name);
|}.

(** The [for f in files] loop of [admin_new]. *)
Fixpoint admin_new_files (card_folder card_id : str) (files : list FileStorage)
    (saved_files : list StoredFile) : M (list StoredFile) :=
  match files with
  | [] => mret saved_files
  | f :: files =>
      if negb (file_bool f) || negb (truthy (getattr_filename f))
      then admin_new_files card_folder card_id files saved_files
      else
        let original := getattr_filename f in
        let name := secure_filename original in
        if negb (truthy name)
        then admin_new_files card_folder card_id files saved_files
        else if negb (allowed_file name) then
          flash (MsgUnsupportedExtension original) "error";;
          admin_new_files card_folder card_id files saved_files
        else
          name ← unique_filename card_folder name;
          let save_path := path_join card_folder name in
          write_bytes save_path (stream f);;
          admin_new_files card_folder card_id files
            (saved_files ++ [stored_file card_id name])
  end.

(** A POST to [/admin/new] by the logged-in admin: the form fields, the
    uploaded files, and what [uuid.uuid4().hex] and
    [utcnow().replace(microsecond=0).isoformat()] gave. *)
Record post := {
  form_title : option str;
  form_description : option str;
  form_files : list FileStorage;
  uuid4_hex : str;
  utcnow_isoformat : str;
}.

Definition admin_new (app : config) (method : string) (request : post) : M response :=
  if bool_decide (method = "POST"%string) then
    let title := strip (default [] (form_title request)) in
    let description := strip (default [] (form_description request)) in
    let files := form_files request in
    if negb (truthy title) then
      flash MsgTitleRequired "error";;
      mret (Redirect "admin_new")
    else
      let card_id := take 10 (uuid4_hex request) in
      let created_at := utcnow_isoformat request ++ py "Z" in
      let card_folder := path_join (UPLOADS_DIR app) card_id in
      makedirs card_folder;;
      saved_files ← admin_new_files card_folder card_id files [];
      let card := {|
        c_id := card_id;
        c_created_at := created_at;
        c_title := title;
        c_description := description;
        c_files := saved_files;
      |} in
      append_card app (card_dict card);;
      flash MsgPublished "ok";;
      mret (Redirect "index")
  else mret (Render "admin_new.html").

End Helpers.
End App.
Export App.

(** ** The routes and the start-up of the application *)
Module Site.

(** The entries [create_app] puts in [app.config]; [store] holds the two
    the card store reads, [DATA_DIR] and [UPLOADS_DIR]. *)
Record flask_config := FlaskConfig {
  SECRET_KEY : str;
  ADMIN_PASSWORD : str;
  store : config;
  MAX_CONTENT_LENGTH : Z;
}.

Definition DEFAULT_DATA_DIR : str := py "/var/data".
Definition DEFAULT_UPLOADS_DIR : str := py "/var/data/uploads".

(** The exceptions of the routes and of start-up that are not errors of the
    file system; [NotFound] is what [abort(404)] raises. *)
Inductive raised :=
| ValueError
| AttributeError
| TypeError
| NotFound.

Definition ensure_dirs (app : config) : M unit :=
  makedirs (DATA_DIR app);;
  makedirs (UPLOADS_DIR app).

Section Start.
(** [int(s)] of a [str]; [None] is [ValueError]. *)
Variable int_of_str : str → option Z.

(** [create_app], with [os.environ] as a map; the routes it registers are
    the definitions below. *)
Definition create_app (environ : gmap str str) : M (raised + flask_config) :=
  let secret_key := default (py "dev-secret-change-me") (environ !! py "SECRET_KEY") in
  let admin_password := default [] (environ !! py "ADMIN_PASSWORD") in
  let data_dir := default DEFAULT_DATA_DIR (environ !! py "DATA_DIR") in
  let uploads_dir := default DEFAULT_UPLOADS_DIR (environ !! py "UPLOADS_DIR") in
  match int_of_str (default (str_of_N (120 * 1024 * 1024))
                      (environ !! py "MAX_CONTENT_LENGTH")) with
  | None => mret (inl ValueError)
  | Some limit =>
      let app := FlaskConfig secret_key admin_password
                   (Config data_dir uploads_dir) limit in
      ensure_dirs (store app);;
      mret (inr app)
  end.

End Start.

(** [bool(v)]; a float is zero when its [repr] is [0.0] or [-0.0]. *)
Definition py_bool (v : pyval) : bool :=
  match v with
  | PNone => false
  | PBool b => b
  | PInt z => negb (z =? 0)%Z
  | PFloat r => negb (bool_decide (r = py "0.0") || bool_decide (r = py "-0.0"))
  | PStr s => truthy s
  | PList l => match l with [] => false | _ => true end
  | PDict d => match d with [] => false | _ => true end
  end.

(** [is_admin()], reading Flask's [session]. *)
Definition is_admin (session : gmap str pyval) : bool :=
  match session !! py "is_admin" with
  | Some v => py_bool v
  | None => false
  end.

(** The messages the login routes flash (the source has them in Russian):
    no password is configured; logged in; wrong password; logged out. *)
Inductive notice :=
| MsgPasswordUnset
| MsgLoggedIn
| MsgWrongPassword
| MsgLoggedOut.

(** What a browser holds between requests: the entries of the session
    cookie, and the messages the login routes flashed to it. *)
Record browser := Browser {
  session : gmap str pyval;
  notices : list (notice * string);
}.

Definition notify (m : notice) (category : string) (b : browser) : browser :=
  Browser (session b) (notices b ++ [(m, category)]).

(** What a view returns: [redirect(url_for(endpoint))],
    [render_template(template, cards=.., is_admin=..)] ([cards] only for
    the index), or [send_from_directory(folder, filename,
    as_attachment=False)]. *)
Inductive reply :=
| RedirectTo (endpoint : string)
| RenderTemplate (template : string) (cards : option (list pyval)) (admin : bool)
| SendFromDirectory (folder filename : str).

Definition admin_login (app : flask_config) (method : string)
    (form_password : option str) (b : browser) : reply * browser :=
  if bool_decide (method = "POST"%string) then
    let password := default [] form_password in
    if negb (truthy (ADMIN_PASSWORD app)) then
      (RedirectTo "admin_login", notify MsgPasswordUnset "error" b)
    else if bool_decide (password = ADMIN_PASSWORD app) then
      let b := Browser (<[py "is_admin" := PBool true]> (session b)) (notices b) in
      (RedirectTo "admin_new", notify MsgLoggedIn "ok" b)
    else
      let b := notify MsgWrongPassword "error" b in
      (RenderTemplate "admin_login.html" None (is_admin (session b)), b)
  else (RenderTemplate "admin_login.html" None (is_admin (session b)), b).

Definition admin_logout (b : browser) : reply * browser :=
  let b := Browser (delete (py "is_admin") (session b)) (notices b) in
  (RedirectTo "index", notify MsgLoggedOut "ok" b).

(** [admin_required(fn)]: the wrapper around a view. *)
Definition admin_required (session : gmap str pyval) (fn : M response) : M response :=
  if negb (is_admin session) then mret (Redirect "admin_login") else fn.

(** [d.get(key)] of a dictionary. *)
Fixpoint dict_get (d : list (str * pyval)) (key : str) : option pyval :=
  match d with
  | [] => None
  | (k, v) :: d' => if bool_decide (k = key) then Some v else dict_get d' key
  end.

(** The sort key of the index: [x.get("created_at", "")]; only a
    dictionary has [get]. *)
Definition created_at_key (x : pyval) : raised + pyval :=
  match x with
  | PDict d => inr (default (PStr []) (dict_get d (py "created_at")))
  | _ => inl AttributeError
  end.

(** The keys of all the cards, computed before anything is compared. *)
Fixpoint sort_keys (cards : list pyval) : raised + list pyval :=
  match cards with
  | [] => inr []
  | x :: cards' =>
      match created_at_key x with
      | inl e => inl e
      | inr k =>
          match sort_keys cards' with
          | inl e => inl e
          | inr ks => inr (k :: ks)
          end
      end
  end.

Definition text_key (k : pyval) : option str :=
  match k with
  | PStr s => Some s
  | _ => None
  end.

(** [a < b] on [str]: by code points, a proper prefix first. *)
Fixpoint str_lt (a b : str) : bool :=
  match a, b with
  | _, [] => false
  | [], _ :: _ => true
  | x :: a', y :: b' =>
      if (x <? y)%N then true
      else if (y <? x)%N then false
      else str_lt a' b'
  end.

(** [list.sort(key=.., reverse=True)] on [str] keys: descending, items with
    equal keys in the order they had. *)
Fixpoint insert_desc (x : str * pyval) (l : list (str * pyval)) : list (str * pyval) :=
  match l with
  | [] => [x]
  | y :: l' => if str_lt (fst x) (fst y) then y :: insert_desc x l' else x :: l
  end.
Definition sort_desc (l : list (str * pyval)) : list (str * pyval) :=
  foldr insert_desc [] l.

(** Calls of [append_card] one after the other, as successive requests
    make them. *)
Fixpoint append_cards (app : config) (cards : list pyval) : M unit :=
  match cards with
  | [] => mret tt
  | card :: cards => append_card app card;; append_cards app cards
  end.

Section Routes.
Context `{Runtime}.
(** What [list.sort(reverse=True)] does with keys that are not all [str]:
    the order [<] gives them, or the [TypeError] it raises. *)
Variable sort_other : list (pyval * pyval) → raised + list pyval.

(** [cards.sort(key=lambda x: x.get("created_at", ""), reverse=True)]. *)
Definition sort_cards (cards : list pyval) : raised + list pyval :=
  match sort_keys cards with
  | inl e => inl e
  | inr keys =>
      match mapM text_key keys with
      | Some texts => inr (snd <$> sort_desc (zip texts cards))
      | None => sort_other (zip keys cards)
      end
  end.

Definition index (app : flask_config) (session : gmap str pyval) : M (raised + reply) :=
  cards ← load_cards (store app);
  match sort_cards cards with
  | inl e => mret (inl e)
  | inr cards =>
      mret (inr (RenderTemplate "index.html" (Some cards) (is_admin session)))
  end.

Definition uploaded_file (app : flask_config) (card_id filename : str) : raised + reply :=
  let safe_card := sanitize_id card_id in
  if negb (truthy safe_card) then inl NotFound
  else
    let folder := path_join (UPLOADS_DIR (store app)) safe_card in
    inr (SendFromDirectory folder filename).

(** The route [/admin/new]: [admin_new] behind [admin_required]. *)
Definition admin_new_route (app : flask_config) (session : gmap str pyval)
    (method : string) (request : post) : M response :=
  admin_required session (admin_new (store app) method request).

(** The reply of a view that returned a [response]; a template is rendered
    with [is_admin=is_admin()]. *)
Definition of_response (session : gmap str pyval) (r : response) : reply :=
  match r with
  | Redirect endpoint => RedirectTo endpoint
  | Render template => RenderTemplate template None (is_admin session)
  end.

(** A request as a view receives it, by route: [/],
    [/uploads/<card_id>/<path:filename>], [/admin/login], [/admin/logout],
    [/admin/new]. *)
Inductive visit :=
| GetIndex
| GetUploadedFile (card_id filename : str)
| AdminLogin (method : string) (form_password : option str)
| AdminLogout
| AdminNew (method : string) (form : post).

(** The view of the route, run for a browser. *)
Definition serve (app : flask_config) (r : visit) (b : browser)
    : M ((raised + reply) * browser) :=
  match r with
  | GetIndex =>
      page ← index app (session b);
      mret (page, b)
  | GetUploadedFile card_id filename =>
      mret (uploaded_file app card_id filename, b)
  | AdminLogin method form_password =>
      let '(page, b') := admin_login app method form_password b in
      mret (inr page, b')
  | AdminLogout =>
      let '(page, b') := admin_logout b in
      mret (inr page, b')
  | AdminNew method form =>
      page ← admin_new_route app (session b) method form;
      mret (inr (of_response (session b) page), b)
  end.

(** Requests of one browser served one after the other.  A view that
    raises is answered with an error page and the next request is served;
    [None] when a loop budget of the model ran out. *)
Fixpoint serve_all (app : flask_config) (requests : list visit) (b : browser)
    (w : world) : option (browser * world) :=
  match requests with
  | [] => Some (b, w)
  | r :: requests =>
      match serve app r b w with
      | Ok (_, b') w' => serve_all app requests b' w'
      | Raise _ w' => serve_all app requests b w'
      | Exhausted => None
      end
  end.

End Routes.
End Site.
Export Site.

(** ** Facts about [str] methods *)
Section SplitFacts.

Lemma contains_spec sep s : contains sep s = true ↔ sep ∈ s.
Proof.
  unfold contains. rewrite existsb_exists. split.
  - intros (c & Hc & ->%N.eqb_eq). by apply list_elem_of_In.
  - intros Hs. exists sep. split; [by apply list_elem_of_In|apply N.eqb_refl].
Qed.

Lemma split_last_None sep s : split_last sep s = None ↔ sep ∉ s.
Proof.
  induction s as [|c s IH]; simpl.
  - split; [intros _; apply not_elem_of_nil|done].
  - rewrite not_elem_of_cons.
    destruct (split_last sep s) as [[b a]|].
    + split; [done|]. intros [_ Hs]. by apply IH in Hs.
    + destruct (N.eqb_spec c sep) as [->|Hne].
      * split; [done|]. by intros [? _].
      * split; [|done]. intros _. split; [done|]. by apply IH.
Qed.

Lemma split_last_Some sep s b a :
  split_last sep s = Some (b, a) ↔ s = b ++ sep :: a ∧ sep ∉ a.
Proof.
  revert b. induction s as [|c s IH]; intros b; simpl.
  - split; [done|]. intros [Hs _]. by destruct b.
  - destruct (split_last sep s) as [[b' a']|] eqn:Hs.
    + split.
      * intros [= <- <-]. destruct (proj1 (IH b') eq_refl) as [-> Ha]. done.
      * intros [Heq Ha]. destruct b as [|c' b].
        -- simpl in Heq. injection Heq as -> ->.
           apply split_last_None in Ha. congruence.
        -- simpl in Heq. injection Heq as -> Heq.
           assert (Some (b', a') = Some (b, a)) as [= -> ->]; [|done].
           by apply IH.
    + apply split_last_None in Hs.
      destruct (N.eqb_spec c sep) as [->|Hne].
      * split.
        -- by intros [= <- <-].
        -- intros [Heq Ha]. destruct b as [|c' b]; simpl in Heq.
           ++ by injection Heq as ->.
           ++ injection Heq as -> ->. exfalso. apply Hs.
              apply elem_of_app. right. by left.
      * split; [done|]. intros [Heq Ha]. destruct b as [|c' b]; simpl in Heq.
        -- by injection Heq as ->.
        -- injection Heq as -> ->. exfalso. apply Hs.
           apply elem_of_app. right. by left.
Qed.

Lemma split_last_app sep b a :
  sep ∉ a → split_last sep (b ++ sep :: a) = Some (b, a).
Proof. intros Ha. by apply split_last_Some. Qed.

Lemma rsplit1_last_app sep b a :
  sep ∉ a → rsplit1_last sep (b ++ sep :: a) = a.
Proof. intros Ha. unfold rsplit1_last. by rewrite split_last_app. Qed.

Lemma rsplit1_last_no_sep sep s : sep ∉ rsplit1_last sep s.
Proof.
  unfold rsplit1_last. destruct (split_last sep s) as [[b a]|] eqn:Hs.
  - by apply split_last_Some in Hs as [_ ?].
  - by apply split_last_None.
Qed.

End SplitFacts.

(** ** Decimal numerals *)
Section DecimalFacts.

Lemma uint_of_digits_of_uint u : uint_of_digits (digits_of_uint u) = u.
Proof. induction u; simpl; by f_equal. Qed.

Lemma digits_of_uint_inj u u' : digits_of_uint u = digits_of_uint u' → u = u'.
Proof.
  intros Heq. rewrite <-(uint_of_digits_of_uint u), <-(uint_of_digits_of_uint u').
  by rewrite Heq.
Qed.

Lemma str_of_N_inj i j : str_of_N i = str_of_N j → i = j.
Proof.
  intros Heq%digits_of_uint_inj.
  rewrite <-(DecimalN.Unsigned.of_to i), <-(DecimalN.Unsigned.of_to j).
  by rewrite Heq.
Qed.

Lemma digits_of_uint_all_digits u : forallb is_digit (digits_of_uint u) = true.
Proof. induction u; simpl; auto. Qed.

End DecimalFacts.

(** ** Facts about the effects *)
Ltac munfold :=
  unfold mbind, M_bind, mret, M_ret, get_fs, put_fs, raise, exhausted, flash in *;
  cbn beta iota in *.

Section PathFacts.

Definition starts_with_sep (b : str) : bool :=
  match b with
  | c :: _ => (c =? sep)%N
  | [] => false
  end.

Lemma path_join_inj a b b' :
  starts_with_sep b = starts_with_sep b' →
  path_join a b = path_join a b' → b = b'.
Proof.
  unfold path_join. intros Hs.
  destruct b as [|c b], b' as [|c' b']; simpl in Hs.
  - done.
  - rewrite <-Hs.
    destruct (negb (truthy a) || bool_decide (last a = Some sep)).
    + by intros ?%app_inv_head.
    + intros ?%app_inv_head. congruence.
  - rewrite Hs.
    destruct (negb (truthy a) || bool_decide (last a = Some sep)).
    + by intros ?%app_inv_head.
    + intros ?%app_inv_head. congruence.
  - rewrite Hs. destruct (c' =? sep)%N; [done|].
    destruct (negb (truthy a) || bool_decide (last a = Some sep)).
    + by intros ?%app_inv_head.
    + intros ?%app_inv_head. congruence.
Qed.

End PathFacts.

(** ** Collision resolution *)
Section UniqueFacts.
Context `{Runtime}.

Lemma candidate_name_inj base ext i j :
  candidate_name base ext i = candidate_name base ext j → i = j.
Proof.
  unfold candidate_name. destruct (truthy ext).
  - intros Heq%app_inv_head%app_inv_head. rewrite !(assoc_L (++)) in Heq.
    apply app_inv_tail, app_inv_tail in Heq. by apply str_of_N_inj.
  - intros Heq%app_inv_head%app_inv_head. by apply str_of_N_inj.
Qed.

Lemma candidate_name_starts base ext i j :
  starts_with_sep (candidate_name base ext i)
  = starts_with_sep (candidate_name base ext j).
Proof. unfold candidate_name. by destruct (truthy ext), base. Qed.

Lemma candidate_path_inj folder base ext i j :
  path_join folder (candidate_name base ext i)
  = path_join folder (candidate_name base ext j) → i = j.
Proof.
  intros Heq%path_join_inj; [|apply candidate_name_starts].
  by apply candidate_name_inj in Heq.
Qed.

(** A loop that gives up has seen its candidate and every later one. *)
Lemma unique_filename_loop_None m folder base ext fuel candidate i :
  unique_filename_loop fuel m folder base ext candidate i = None →
  ∀ k, S k < fuel →
       is_Some (m !! path_join folder (candidate_name base ext (i + N.of_nat k))).
Proof.
  revert candidate i. induction fuel as [|fuel IH]; intros candidate i Hloop k Hk.
  - lia.
  - simpl in Hloop. case_bool_decide as Hc; [|done].
    destruct k as [|k].
    + destruct fuel as [|fuel]; [lia|]. simpl in Hloop.
      case_bool_decide as Hc'; [|done]. by rewrite N.add_0_r.
    + replace (i + N.of_nat (S k))%N with (i + 1 + N.of_nat k)%N by lia.
      eapply IH; [done|lia].
Qed.

Lemma unique_filename_loop_Some m folder base ext fuel candidate i r :
  unique_filename_loop fuel m folder base ext candidate i = Some r →
  m !! path_join folder r = None
  ∧ ((m !! path_join folder candidate = None ∧ r = candidate)
     ∨ (is_Some (m !! path_join folder candidate)
        ∧ ∃ k, (i ≤ k)%N ∧ r = candidate_name base ext k
             ∧ ∀ j, (i ≤ j < k)%N →
                    is_Some (m !! path_join folder (candidate_name base ext j)))).
Proof.
  revert candidate i. induction fuel as [|fuel IH]; intros candidate i Hloop; [done|].
  simpl in Hloop. case_bool_decide as Hc.
  - apply IH in Hloop as [Hfree Hshape]. split; [done|]. right. split; [done|].
    destruct Hshape as [[Hnone ->]|[Hsome (k & Hk & -> & Hbelow)]].
    + exists i. split_and!; [lia|done|]. intros j Hj. lia.
    + exists k. split_and!; [lia|done|]. intros j Hj.
      destruct (decide (j = i)) as [->|Hne]; [done|]. apply Hbelow. lia.
  - injection Hloop as <-. apply eq_None_not_Some in Hc. split; [done|]. by left.
Qed.

(** More candidates than the file system has entries cannot all exist. *)
Lemma unique_filename_loop_total (m : gmap str node) folder base ext candidate i :
  is_Some (unique_filename_loop (S (S (size m))) m folder base ext candidate i).
Proof.
  destruct (unique_filename_loop _ _ _ _ _ _ _) as [r|] eqn:Hloop; [by eexists|].
  exfalso.
  pose proof (unique_filename_loop_None _ _ _ _ _ _ _ Hloop) as Hall.
  set (f := λ k : nat, path_join folder (candidate_name base ext (i + N.of_nat k))).
  set (l := f <$> seq 0 (S (size m))).
  assert (NoDup l) as Hnd.
  { apply NoDup_fmap_2; [|apply NoDup_seq].
    intros k k' Heq%candidate_path_inj. lia. }
  assert (list_to_set l ⊆ dom m) as Hsub.
  { intros p Hp. apply elem_of_list_to_set, list_elem_of_fmap in Hp.
    destruct Hp as (k & -> & Hk). apply elem_of_seq in Hk.
    apply elem_of_dom, Hall. lia. }
  apply subseteq_size in Hsub.
  rewrite size_list_to_set, size_dom in Hsub by done.
  unfold l in Hsub. rewrite length_fmap, length_seq in Hsub. lia.
Qed.

Lemma split_ext_dot name base ext :
  split_ext name = (base, ext) →
  ((dot ∉ name) ∧ base = name ∧ ext = [])
  ∨ (name = base ++ dot :: ext ∧ (dot ∉ ext)).
Proof.
  unfold split_ext, rpartition.
  destruct (split_last dot name) as [[b a]|] eqn:Hs; simpl.
  - intros [= <- <-]. right. by apply split_last_Some.
  - intros [= <- <-]. left. by apply split_last_None in Hs.
Qed.

Lemma unique_filename_spec folder name w :
  ∃ candidate,
    unique_filename folder name w = Ok candidate w
    ∧ fs w !! path_join folder candidate = None
    ∧ ((fs w !! path_join folder name = None ∧ candidate = name)
       ∨ (is_Some (fs w !! path_join folder name)
          ∧ ∃ k, (2 ≤ k)%N
               ∧ candidate = candidate_name (split_ext name).1 (split_ext name).2 k
               ∧ ∀ j, (2 ≤ j < k)%N →
                      is_Some (fs w !! path_join folder
                                 (candidate_name (split_ext name).1 (split_ext name).2 j)))).
Proof.
  unfold unique_filename. destruct (split_ext name) as [base ext]. munfold.
  destruct (unique_filename_loop_total (fs w) folder base ext name 2) as [r Hr].
  rewrite Hr. exists r. split; [done|].
  by apply unique_filename_loop_Some in Hr.
Qed.

End UniqueFacts.

(** ** The ingestion loop, one entry at a time *)
Section IngestFacts.
Context `{Runtime}.
Implicit Types (f : FileStorage) (files : list FileStorage) (w : world).

Lemma file_bool_getattr f : truthy (getattr_filename f) = file_bool f.
Proof. unfold getattr_filename, file_bool. by destruct (filename f). Qed.

(** An entry without a file name is passed over. *)
Lemma admin_new_files_unnamed card_folder card_id f files saved :
  file_bool f = false →
  admin_new_files card_folder card_id (f :: files) saved
  = admin_new_files card_folder card_id files saved.
Proof. intros Hf. simpl. by rewrite Hf. Qed.

(** An entry whose name sanitizes to the empty string is passed over. *)
Lemma admin_new_files_unsafe card_folder card_id f files saved :
  secure_filename (getattr_filename f) = [] →
  admin_new_files card_folder card_id (f :: files) saved
  = admin_new_files card_folder card_id files saved.
Proof.
  intros Hs. simpl. rewrite Hs. simpl.
  by destruct (negb (file_bool f) || negb (truthy (getattr_filename f))).
Qed.

(** An entry with a refused extension is reported and passed over. *)
Lemma admin_new_files_refused card_folder card_id f files saved :
  file_bool f = true →
  secure_filename (getattr_filename f) ≠ [] →
  allowed_file (secure_filename (getattr_filename f)) = false →
  admin_new_files card_folder card_id (f :: files) saved
  = (flash (MsgUnsupportedExtension (getattr_filename f)) "error";;
     admin_new_files card_folder card_id files saved).
Proof.
  intros Hf Hs Ha. simpl. rewrite file_bool_getattr, Hf. simpl.
  apply truthy_true in Hs. rewrite Hs, Ha. done.
Qed.

(** An accepted entry is stored under the name [unique_filename] gives. *)
Lemma admin_new_files_accepted card_folder card_id f files saved :
  file_bool f = true →
  secure_filename (getattr_filename f) ≠ [] →
  allowed_file (secure_filename (getattr_filename f)) = true →
  admin_new_files card_folder card_id (f :: files) saved
  = (name ← unique_filename card_folder (secure_filename (getattr_filename f));
     write_bytes (path_join card_folder name) (stream f);;
     admin_new_files card_folder card_id files
       (saved ++ [stored_file card_id name])).
Proof.
  intros Hf Hs Ha. simpl. rewrite file_bool_getattr, Hf. simpl.
  apply truthy_true in Hs. rewrite Hs, Ha. done.
Qed.

(** The four cases an entry falls in. *)
Lemma admin_new_files_cases f :
  file_bool f = false
  ∨ secure_filename (getattr_filename f) = []
  ∨ (file_bool f = true ∧ secure_filename (getattr_filename f) ≠ []
     ∧ allowed_file (secure_filename (getattr_filename f)) = false)
  ∨ (file_bool f = true ∧ secure_filename (getattr_filename f) ≠ []
     ∧ allowed_file (secure_filename (getattr_filename f)) = true).
Proof.
  destruct (file_bool f); [|by left].
  destruct (decide (secure_filename (getattr_filename f) = [])); [by right; left|].
  destruct (allowed_file (secure_filename (getattr_filename f))); naive_solver.
Qed.

Lemma write_bytes_fresh p data w :
  fs w !! p = None →
  write_bytes p data w = Ok tt (World (<[p := File data]> (fs w)) (flashes w)).
Proof. intros Hp. unfold write_bytes. munfold. by rewrite Hp. Qed.

(** What the loop leaves behind: the descriptors of the files it stored,
    under pairwise distinct names that were free before, and every node
    the file system had, unchanged.  The loop always ends. *)
Definition batch_post card_folder card_id (saved : list StoredFile) w
    (o : outcome (list StoredFile)) : Prop :=
  match o with
  | Ok r w' =>
      ∃ names,
        r = saved ++ (stored_file card_id <$> names)
        ∧ NoDup names
        ∧ (∀ n, n ∈ names →
                fs w !! path_join card_folder n = None
                ∧ ∃ data, fs w' !! path_join card_folder n = Some (File data))
        ∧ (∀ p nd, fs w !! p = Some nd → fs w' !! p = Some nd)
  | Raise _ w' => ∀ p nd, fs w !! p = Some nd → fs w' !! p = Some nd
  | Exhausted => False
  end.

Lemma admin_new_files_post card_folder card_id files saved w :
  batch_post card_folder card_id saved w
    (admin_new_files card_folder card_id files saved w).
Proof.
  revert saved w. induction files as [|f files IH]; intros saved w.
  - simpl. exists []. rewrite app_nil_r. split_and!; [done|constructor| |done].
    intros n Hn. by apply elem_of_nil in Hn.
  - destruct (admin_new_files_cases f) as [Hc|[Hc|[(Hf & Hs & Ha)|(Hf & Hs & Ha)]]].
    + rewrite admin_new_files_unnamed by done. apply IH.
    + rewrite admin_new_files_unsafe by done. apply IH.
    + rewrite admin_new_files_refused by done. munfold.
      exact (IH saved (World (fs w) _)).
    + rewrite admin_new_files_accepted by done.
      set (name := secure_filename (getattr_filename f)).
      destruct (unique_filename_spec card_folder name w) as (cand & Hu & Hfree & _).
      unfold mbind, M_bind at 1. rewrite Hu.
      unfold mbind, M_bind at 1. rewrite write_bytes_fresh by done.
      set (w1 := World _ _).
      specialize (IH (saved ++ [stored_file card_id cand]) w1).
      assert (∀ p nd, fs w !! p = Some nd → fs w1 !! p = Some nd) as Hkeep.
      { intros p nd Hp. simpl. rewrite lookup_insert_ne; [done|]. congruence. }
      destruct (admin_new_files _ _ _ _ w1) as [r w'|e w'|]; simpl in *.
      * destruct IH as (names & -> & Hnd & Hnames & Hpres).
        exists (cand :: names). split_and!.
        -- by rewrite <-app_assoc.
        -- constructor; [|done]. intros Hin. apply Hnames in Hin as [Hnone _].
           by rewrite lookup_insert_eq in Hnone.
        -- intros n [->|Hn]%elem_of_cons.
           ++ split; [done|]. exists (stream f). apply Hpres.
              by rewrite lookup_insert_eq.
           ++ apply Hnames in Hn as [Hnone Hsome]. split; [|done].
              by apply lookup_insert_None in Hnone as [? _].
        -- auto.
      * auto.
      * done.
Qed.

End IngestFacts.

(** ** Claims on the ingestion of uploads *)
Section IngestClaims.
Context `{Runtime}.

Lemma lower_allowed_nonempty ext : lower ext ∈ ALLOWED_EXTENSIONS → ext ≠ [].
Proof.
  intros Hin ->. rewrite lower_nil in Hin.
  assert (bool_decide (([] : str) ∈ ALLOWED_EXTENSIONS) = true) as Hb
    by (by apply bool_decide_eq_true).
  by vm_compute in Hb.
Qed.

Lemma allowed_file_parts name :
  allowed_file name = true
  ↔ ∃ base ext, name = base ++ dot :: ext ∧ (dot ∉ ext)
                ∧ lower ext ∈ ALLOWED_EXTENSIONS.
Proof.
  unfold allowed_file, rsplit1_last. split.
  - destruct (contains dot name) eqn:Hd; [|done]. simpl.
    apply contains_spec in Hd.
    destruct (split_last dot name) as [[b a]|] eqn:Hs.
    + intros Hin%bool_decide_eq_true. apply split_last_Some in Hs as [-> Ha].
      by exists b, a.
    + by apply split_last_None in Hs.
  - intros (base & ext & -> & Hext & Hin).
    assert (contains dot (base ++ dot :: ext) = true) as ->.
    { apply contains_spec, elem_of_app. right. by left. }
    simpl. rewrite split_last_app by done. by apply bool_decide_eq_true.
Qed.

(** The extension of the stored name is that of the sanitized name. *)
Lemma unique_filename_keeps_ext folder name w stored w' :
  allowed_file name = true →
  unique_filename folder name w = Ok stored w' →
  rsplit1_last dot stored = rsplit1_last dot name.
Proof.
  intros (base & ext & -> & Hext & Hin)%allowed_file_parts Hu.
  destruct (unique_filename_spec folder (base ++ dot :: ext) w)
    as (cand & Hu' & _ & Hshape).
  rewrite Hu in Hu'. injection Hu' as -> _.
  destruct Hshape as [[_ ->]|[_ (k & _ & -> & _)]]; [done|].
  unfold split_ext, rpartition. rewrite split_last_app by done. simpl.
  unfold candidate_name.
  apply lower_allowed_nonempty, truthy_true in Hin. rewrite Hin.
  rewrite rsplit1_last_app by done.
  change (py ".") with [dot].
  rewrite !(assoc_L (++)), <-(assoc_L (++) _ [dot] ext). simpl.
  by rewrite rsplit1_last_app.
Qed.

(** C9.  A POST whose title is empty once stripped is answered by a
    redirect to the form with an error message, and leaves the file system
    as it was: no card directory, no stored file, no line in the log. *)
Theorem admin_new_empty_title app request w :
  strip (default [] (form_title request)) = [] →
  admin_new app "POST" request w
  = Ok (Redirect "admin_new")
       (World (fs w) (flashes w ++ [(MsgTitleRequired, "error"%string)])).
Proof. intros Ht. unfold admin_new. simpl. by rewrite Ht. Qed.

(** C7, amended.  An upload entry without a file name (none, or the empty
    string) is passed over, and so is an entry whose sanitized name is
    empty: the loop goes on with the remaining entries as if the entry were
    not there, whatever the entry holds. *)
Theorem admin_new_files_skips card_folder card_id f files saved :
  filename f = None ∨ filename f = Some []
  ∨ secure_filename (getattr_filename f) = [] →
  admin_new_files card_folder card_id (f :: files) saved
  = admin_new_files card_folder card_id files saved.
Proof.
  intros [Hf|[Hf|Hs]].
  - apply admin_new_files_unnamed. unfold file_bool. by rewrite Hf.
  - apply admin_new_files_unnamed. unfold file_bool. by rewrite Hf.
  - by apply admin_new_files_unsafe.
Qed.

(** C6.  [allowed_file] accepts a name exactly when it has a dot and the
    lower-cased text after its last dot is in the allow-list; a name
    without a dot is refused.  In the loop, an entry with a refused
    extension is reported and the loop goes on with the remaining entries;
    an accepted entry is recorded with the lower-cased extension of its
    sanitized name, which is in the allow-list.  [evil.exe] is refused,
    [photo.JPG] is accepted with extension [jpg]. *)
Theorem allowed_file_spec card_folder card_id f files saved :
  let name := secure_filename (getattr_filename f) in
  (∀ n, allowed_file n = true
        ↔ ∃ base ext, n = base ++ dot :: ext ∧ (dot ∉ ext)
                      ∧ lower ext ∈ ALLOWED_EXTENSIONS)
  ∧ (∀ n, dot ∉ n → allowed_file n = false)
  ∧ (file_bool f = true → name ≠ [] → allowed_file name = false →
     admin_new_files card_folder card_id (f :: files) saved
     = (flash (MsgUnsupportedExtension (getattr_filename f)) "error";;
        admin_new_files card_folder card_id files saved))
  ∧ (file_bool f = true → name ≠ [] → allowed_file name = true →
     admin_new_files card_folder card_id (f :: files) saved
     = (stored ← unique_filename card_folder name;
        write_bytes (path_join card_folder stored) (stream f);;
        admin_new_files card_folder card_id files
          (saved ++ [stored_file card_id stored]))
     ∧ ∀ w stored w', unique_filename card_folder name w = Ok stored w' →
         f_name (stored_file card_id stored) = stored
         ∧ f_ext (stored_file card_id stored) = lower (rsplit1_last dot name)
         ∧ lower (rsplit1_last dot name) ∈ ALLOWED_EXTENSIONS)
  ∧ allowed_file (py "evil.exe") = false
  ∧ allowed_file (py "photo.JPG") = true
  ∧ lower (rsplit1_last dot (py "photo.JPG")) = py "jpg".
Proof.
  intros name. split_and!.
  - apply allowed_file_parts.
  - intros n Hn. unfold allowed_file.
    destruct (contains dot n) eqn:Hd; [|done]. by apply contains_spec in Hd.
  - by apply admin_new_files_refused.
  - intros Hf Hs Ha. split; [by apply admin_new_files_accepted|].
    intros w stored w' Hu. unfold stored_file. cbn [f_name f_ext].
    rewrite (unique_filename_keeps_ext _ _ _ _ _ Ha Hu). split; [done|]. split; [done|].
    apply allowed_file_parts in Ha as (base & ext & Hn & Hext & Hin).
    rewrite Hn. by rewrite rsplit1_last_app.
  - by vm_compute.
  - by vm_compute.
  - by vm_compute.
Qed.

End IngestClaims.

(** ** The claims at concrete inputs *)
Module Demo.

Definition app : config := Config (py "/var/data") (py "/var/data/uploads").

Definition upload (name : string) (data : bytes) : FileStorage :=
  {| filename := Some (py name); stream := data |}.

(** A request with a blank title. *)
Definition blank_title : post := {|
  form_title := Some (py "   ");
  form_description := Some (py "text");
  form_files := [upload "a.png" [137; 80; 78; 71]%N];
  uuid4_hex := py "0123456789abcdef0123456789abcdef";
  utcnow_isoformat := py "2024-05-01T10:00:00";
|}.

(** The request of the scenario of the specification: one name twice. *)
Definition launch : post := {|
  form_title := Some (py "Launch");
  form_description := Some [];
  form_files := [upload "a.png" [137; 80; 78; 71]%N;
                 upload "a.png" [137; 80; 78; 71; 50]%N];
  uuid4_hex := py "0123456789abcdef0123456789abcdef";
  utcnow_isoformat := py "2024-05-01T10:00:00";
|}.

Definition empty_world : world := World ∅ [].
Definition folder : str := py "/var/data/uploads/0123456789".
Definition card_id : str := py "0123456789".

End Demo.

Lemma admin_new_empty_title_witness :
  strip (default [] (form_title Demo.blank_title)) = []
  ∧ admin_new (H := ascii_runtime) Demo.app "POST" Demo.blank_title Demo.empty_world
    = Ok (Redirect "admin_new")
         (World ∅ [(MsgTitleRequired, "error"%string)]).
Proof.
  split; [reflexivity|].
  apply (admin_new_empty_title (H := ascii_runtime)). reflexivity.
Defined.

Lemma admin_new_files_skips_witness :
  secure_filename (H := ascii_runtime) (py "../..") = []
  ∧ admin_new_files (H := ascii_runtime) Demo.folder Demo.card_id
      [Demo.upload "../.." [1]%N; Demo.upload "a.png" [2]%N] []
    = admin_new_files (H := ascii_runtime) Demo.folder Demo.card_id
        [Demo.upload "a.png" [2]%N] [].
Proof.
  split; [reflexivity|].
  apply (admin_new_files_skips (H := ascii_runtime)).
  right; right. reflexivity.
Defined.

(** C7 as stated fails: an entry with a name and no content is not passed
    over, it is stored as an empty file and gets a descriptor. *)
Lemma empty_content_is_stored :
  stream (Demo.upload "a.png" []) = []
  ∧ admin_new_files (H := ascii_runtime) Demo.folder Demo.card_id
      [Demo.upload "a.png" []] [] Demo.empty_world
    = Ok [stored_file (H := ascii_runtime) Demo.card_id (py "a.png")]
         (World {[ py "/var/data/uploads/0123456789/a.png" := File [] ]} []).
Proof. split; [reflexivity|]. vm_compute. reflexivity. Qed.

(** The scenario of the specification: the two files are kept as [a.png]
    and [a_2.png], each with its content. *)
Example launch_two_files :
  ∃ w,
    admin_new (H := ascii_runtime) Demo.app "POST" Demo.launch Demo.empty_world
    = Ok (Redirect "index") w
    ∧ fs w !! py "/var/data/uploads/0123456789/a.png"
      = Some (File [137; 80; 78; 71]%N)
    ∧ fs w !! py "/var/data/uploads/0123456789/a_2.png"
      = Some (File [137; 80; 78; 71; 50]%N).
Proof. eexists. split_and!; vm_compute; reflexivity. Qed.

(** ** Facts about stripping and lines *)
Section LineFacts.

Lemma lstrip_by_app p s t :
  lstrip_by p (s ++ t) = if forallb p s then lstrip_by p t else lstrip_by p s ++ t.
Proof.
  induction s as [|c s IH]; simpl; [done|].
  destruct (p c); simpl; [done|done].
Qed.

Lemma lstrip_by_all p s : forallb p s = true → lstrip_by p s = [].
Proof. induction s as [|c s IH]; simpl; [done|]. by destruct (p c). Qed.

Lemma lstrip_by_keep p c s : p c = false → lstrip_by p (c :: s) = c :: s.
Proof. intros Hc. simpl. by rewrite Hc. Qed.

(** Trailing characters of the stripped class do not count. *)
Lemma strip_by_snoc p s c : p c = true → strip_by p (s ++ [c]) = strip_by p s.
Proof.
  intros Hc. unfold strip_by, rstrip_by. rewrite lstrip_by_app.
  destruct (forallb p s) eqn:Hs.
  - rewrite (lstrip_by_all p s Hs). simpl. by rewrite Hc.
  - rewrite rev_app_distr. simpl. by rewrite Hc.
Qed.

(** A text whose first and last characters are outside the class is left
    as it is. *)
Lemma strip_by_id p c s d :
  p c = false → p d = false → strip_by p (c :: s ++ [d]) = c :: s ++ [d].
Proof.
  intros Hc Hd. unfold strip_by, rstrip_by. rewrite lstrip_by_keep by done.
  assert (rev (c :: s ++ [d]) = d :: rev (c :: s)) as ->.
  { change (c :: s ++ [d]) with ((c :: s) ++ [d]). by rewrite rev_app_distr. }
  rewrite lstrip_by_keep by done.
  change (d :: rev (c :: s)) with ([d] ++ rev (c :: s)).
  by rewrite rev_app_distr, rev_involutive.
Qed.

Lemma text_lines_line l rest :
  LF ∉ l → text_lines (l ++ LF :: rest) = (l ++ [LF]) :: text_lines rest.
Proof.
  induction l as [|c l IH]; intros Hl; simpl.
  - done.
  - apply not_elem_of_cons in Hl as [Hc Hl].
    destruct (N.eqb_spec c LF) as [->|_]; [done|]. by rewrite IH.
Qed.

Lemma text_lines_concat (ls : list str) :
  Forall (λ l, LF ∉ l) ls →
  text_lines (concat ((λ l, l ++ [LF]) <$> ls)) = (λ l, l ++ [LF]) <$> ls.
Proof.
  induction 1 as [|l ls Hl _ IH]; [done|].
  rewrite fmap_cons. cbn [concat]. rewrite <-app_assoc. cbn [app].
  rewrite text_lines_line by done. by rewrite IH.
Qed.

(** A text ending in a line feed, or empty. *)
Definition terminated (s : str) : Prop := s = [] ∨ last s = Some LF.

Lemma text_lines_app a b :
  terminated a → text_lines (a ++ b) = text_lines a ++ text_lines b.
Proof.
  induction a as [|c a IH]; intros Ha; [done|].
  destruct Ha as [?|Hlast]; [done|]. simpl.
  destruct (N.eqb_spec c LF) as [->|Hc].
  - rewrite IH; [done|]. destruct a; [by left|by right].
  - destruct a as [|c' a].
    + simpl in Hlast. congruence.
    + rewrite IH by (by right).
      assert (text_lines (c' :: a) ≠ []) as Hne.
      { simpl. destruct (c' =? LF)%N; [done|]. by destruct (text_lines a). }
      by destruct (text_lines (c' :: a)).
Qed.

Lemma universal_newlines_id s : CR ∉ s → universal_newlines s = s.
Proof.
  induction s as [|c s IH]; intros Hs; simpl; [done|].
  apply not_elem_of_cons in Hs as [Hc Hs].
  destruct (N.eqb_spec c CR) as [->|_]; [done|]. by rewrite IH.
Qed.

Lemma universal_newlines_CR_LF s :
  universal_newlines (CR :: LF :: s) = LF :: universal_newlines s.
Proof. done. Qed.

Lemma universal_newlines_CR c s :
  c ≠ LF → universal_newlines (CR :: c :: s) = LF :: universal_newlines (c :: s).
Proof.
  intros Hc. change (universal_newlines (CR :: c :: s))
    with (if (c =? LF)%N then LF :: universal_newlines s
          else LF :: universal_newlines (c :: s)).
  by destruct (N.eqb_spec c LF).
Qed.

Lemma universal_newlines_cons c s :
  c ≠ CR → universal_newlines (c :: s) = c :: universal_newlines s.
Proof.
  intros Hc. change (universal_newlines (c :: s))
    with (if (c =? CR)%N
          then match s with
               | c' :: s'' =>
                   if (c' =? LF)%N then LF :: universal_newlines s''
                   else LF :: universal_newlines s
               | [] => [LF]
               end
          else c :: universal_newlines s).
  by destruct (N.eqb_spec c CR).
Qed.

Lemma universal_newlines_app a b :
  last a ≠ Some CR →
  universal_newlines (a ++ b) = universal_newlines a ++ universal_newlines b.
Proof.
  remember (length a) as n eqn:Hn. revert a b Hn.
  induction n as [n IH] using lt_wf_ind. intros a b -> Ha.
  destruct a as [|c a]; [done|].
  destruct (decide (c = CR)) as [->|Hc].
  - destruct a as [|c' a]; [done|].
    destruct (decide (c' = LF)) as [->|Hc'].
    + cbn [app]. rewrite !universal_newlines_CR_LF.
      rewrite (IH (length a)) by (simpl; first [lia|done|by destruct a]). done.
    + cbn [app]. rewrite !universal_newlines_CR by done.
      change (c' :: a ++ b) with ((c' :: a) ++ b).
      rewrite (IH (length (c' :: a)) ltac:(simpl; lia) (c' :: a) b) by done. done.
  - cbn [app]. rewrite !universal_newlines_cons by done.
    rewrite (IH (length a)) by (simpl; first [lia|done|by destruct a]). done.
Qed.

Lemma last_cons_Some {A} (x y : A) l : last l = Some y → last (x :: l) = Some y.
Proof. by destruct l. Qed.

Lemma universal_newlines_last a x :
  last a = Some x →
  last (universal_newlines a) = Some (if (x =? CR)%N then LF else x).
Proof.
  remember (length a) as n eqn:Hn. revert a Hn.
  induction n as [n IH] using lt_wf_ind. intros a -> Ha.
  destruct a as [|c a]; [done|].
  destruct a as [|c' a].
  - simpl in Ha. injection Ha as ->. simpl. by destruct (x =? CR)%N.
  - assert (last (c' :: a) = Some x) as Ha' by done.
    destruct (decide (c = CR)) as [->|Hc].
    + destruct (decide (c' = LF)) as [->|Hc'].
      * rewrite universal_newlines_CR_LF. destruct a as [|c'' a].
        -- simpl in Ha. by injection Ha as <-.
        -- apply last_cons_Some.
           apply (IH (length (c'' :: a))); [simpl; lia|done|done].
      * rewrite universal_newlines_CR by done. apply last_cons_Some.
        apply (IH (length (c' :: a))); [simpl; lia|done|done].
    + rewrite universal_newlines_cons by done. apply last_cons_Some.
      apply (IH (length (c' :: a))); [simpl; lia|done|done].
Qed.

Lemma universal_newlines_terminated a :
  terminated a → terminated (universal_newlines a).
Proof.
  intros [->|Hlast]; [by left|]. right.
  by rewrite (universal_newlines_last _ _ Hlast).
Qed.

Lemma terminated_not_CR a : terminated a → last a ≠ Some CR.
Proof. intros [->|Ha]; [done|]. by rewrite Ha. Qed.

Lemma terminated_snoc a : terminated (a ++ [LF]).
Proof. right. by rewrite last_snoc. Qed.

End LineFacts.

(** ** Reading the log *)
Section LoadFacts.
Context `{Runtime}.

(** What one line of the log contributes: nothing when it is blank or
    [json.loads] raises, the decoded value otherwise. *)
Definition line_card (line : str) : option pyval :=
  let line := strip line in
  if negb (truthy line) then None else loads line.

Lemma load_cards_lines_omap lines cards :
  load_cards_lines lines cards = cards ++ omap line_card lines.
Proof.
  revert cards. induction lines as [|line lines IH]; intros cards; simpl.
  - by rewrite app_nil_r.
  - unfold line_card. destruct (negb (truthy (strip line))); [apply IH|].
    destruct (loads (strip line)); [|apply IH].
    by rewrite IH, <-app_assoc.
Qed.

Lemma line_card_LF line : line_card (line ++ [LF]) = line_card line.
Proof. unfold line_card, strip. by rewrite strip_by_snoc. Qed.

Lemma loads_nil : loads [] = None.
Proof. done. Qed.

Lemma line_card_None line : line_card line = None ↔ loads (strip line) = None.
Proof.
  unfold line_card. destruct (strip line) eqn:Hs; cbn [truthy negb]; [|done].
  by rewrite loads_nil.
Qed.

Definition lock_path (app : config) : str := cards_csv_path app ++ py ".lock".

Lemma lock_path_ne app : lock_path app ≠ cards_csv_path app.
Proof.
  unfold lock_path. intros Heq%(f_equal length).
  rewrite length_app in Heq. simpl in Heq. lia.
Qed.

(** The world after the lock file has been opened. *)
Definition locked (app : config) (w : world) : world :=
  World (<[lock_path app := File []]> (fs w)) (flashes w).

Lemma load_cards_absent app w :
  fs w !! cards_csv_path app = None → load_cards app w = Ok [] w.
Proof.
  intros Hp. unfold load_cards, path_exists. munfold. rewrite Hp.
  rewrite bool_decide_eq_false_2; [done|]. by intros [? ?].
Qed.

Lemma with_lock_free {A} app (body : M A) w :
  fs w !! lock_path app ≠ Some Dir →
  with_lock (lock_path app) body w = body (locked app w).
Proof.
  intros Hl. unfold with_lock. munfold.
  destruct (fs w !! lock_path app) as [[|]|]; done.
Qed.

Lemma load_cards_present app w data text :
  fs w !! cards_csv_path app = Some (File data) →
  fs w !! lock_path app ≠ Some Dir →
  utf8_decode data = Some text →
  load_cards app w
  = Ok (omap line_card (text_lines (universal_newlines text))) (locked app w).
Proof.
  intros Hp Hl Hd. unfold load_cards, path_exists. munfold. rewrite Hp.
  rewrite bool_decide_eq_true_2 by eauto. cbn [negb].
  fold (lock_path app). rewrite with_lock_free by done.
  unfold read_text. munfold. cbn [fs locked].
  rewrite lookup_insert_ne by apply lock_path_ne. rewrite Hp, Hd.
  by rewrite load_cards_lines_omap.
Qed.

(** A log that is not valid [utf-8] makes the whole read fail: the
    decoding error is raised by the iteration over the file, outside the
    [try] that guards [json.loads]. *)
Lemma load_cards_undecodable app w data :
  fs w !! cards_csv_path app = Some (File data) →
  fs w !! lock_path app ≠ Some Dir →
  utf8_decode data = None →
  load_cards app w = Raise UnicodeDecodeError (locked app w).
Proof.
  intros Hp Hl Hd. unfold load_cards, path_exists. munfold. rewrite Hp.
  rewrite bool_decide_eq_true_2 by eauto. cbn [negb].
  fold (lock_path app). rewrite with_lock_free by done.
  unfold read_text. munfold. cbn [fs locked].
  rewrite lookup_insert_ne by apply lock_path_ne. by rewrite Hp, Hd.
Qed.

Lemma omap_line_card_lines (ls : list str) :
  Forall (λ l, LF ∉ l) ls →
  omap line_card (text_lines (concat ((λ l, l ++ [LF]) <$> ls)))
  = omap line_card ls.
Proof.
  intros Hls. rewrite text_lines_concat by done. clear Hls.
  induction ls as [|l ls IH]; [done|].
  rewrite fmap_cons. cbn [omap list_omap]. by rewrite line_card_LF, IH.
Qed.

Lemma concat_no_CR (ls : list str) :
  Forall (λ l, CR ∉ l) ls → CR ∉ concat ((λ l, l ++ [LF]) <$> ls).
Proof.
  induction 1 as [|l ls Hl _ IH]; [apply not_elem_of_nil|].
  rewrite fmap_cons. cbn [concat]. rewrite !not_elem_of_app. split_and!; [done| |done].
  by intros ?%list_elem_of_singleton.
Qed.

Lemma omap_all_Some {A B} (g : A → option B) (l : list A) :
  Forall (λ x, is_Some (g x)) l → length (omap g l) = length l.
Proof.
  induction 1 as [|x l [y Hy] _ IH]; [done|].
  cbn [omap list_omap]. rewrite Hy. simpl. by rewrite IH.
Qed.

Lemma omap_app_skip {A B} (g : A → option B) (pre post : list A) bad :
  g bad = None → omap g (pre ++ [bad] ++ post) = omap g (pre ++ post).
Proof.
  intros Hbad. rewrite !omap_app. cbn [omap list_omap]. by rewrite Hbad.
Qed.

End LoadFacts.

(** ** Claims on reading the log *)
Section LoadClaims.
Context `{Runtime}.

(** C10.  On a log that is [utf-8] text, [load_cards] returns, in file
    order, exactly what [json.loads] gives on the stripped text of each
    line that is not blank and on which it does not raise: no shape is
    asked of the value, so a bare number, a string or a list is returned
    like an object; the other lines, and only they, contribute nothing. *)
Theorem load_cards_no_schema app w data text :
  fs w !! cards_csv_path app = Some (File data) →
  fs w !! lock_path app ≠ Some Dir →
  utf8_decode data = Some text →
  ∃ cards w',
    load_cards app w = Ok cards w'
    ∧ cards = omap line_card (text_lines (universal_newlines text))
    ∧ (∀ line card,
         line ∈ text_lines (universal_newlines text) →
         strip line ≠ [] → loads (strip line) = Some card → card ∈ cards)
    ∧ (∀ card, card ∈ cards →
         ∃ line, line ∈ text_lines (universal_newlines text)
                 ∧ strip line ≠ [] ∧ loads (strip line) = Some card)
    ∧ line_card (py "42") = Some (PInt 42)
    ∧ line_card (pyq "'text'") = Some (PStr (py "text"))
    ∧ line_card (pyq "[1, 'a', null]") = Some (PList [PInt 1; PStr (py "a"); PNone]).
Proof.
  intros Hp Hl Hd. eexists _, _.
  split; [by apply (load_cards_present _ _ data)|].
  split; [done|]. split_and!.
  - intros line card Hin Hne Hloads. apply list_elem_of_omap.
    exists line. split; [done|]. unfold line_card.
    apply truthy_true in Hne. by rewrite Hne.
  - intros card (line & Hin & Hc)%list_elem_of_omap. exists line.
    split; [done|]. unfold line_card in Hc.
    destruct (truthy (strip line)) eqn:Ht; [|done].
    by apply truthy_true in Ht.
  - by vm_compute.
  - by vm_compute.
  - by vm_compute.
Qed.

(** X1.  Leniency on text.  Without a log file [load_cards] returns the empty
    list and leaves the world as it is.  On a log that is [utf-8] text made of the
    lines [pre], one line [bad] on which [json.loads] raises, and the lines
    [post], where every line of [pre] and [post] yields a value, it returns
    the values of [pre] and [post], as many as these lines, in order. *)
Theorem load_cards_lenient app w :
  (fs w !! cards_csv_path app = None → load_cards app w = Ok [] w)
  ∧ (∀ pre bad post data,
       fs w !! cards_csv_path app = Some (File data) →
       fs w !! lock_path app ≠ Some Dir →
       utf8_decode data
       = Some (concat ((λ l, l ++ [LF]) <$> (pre ++ [bad] ++ post))) →
       Forall (λ l, (LF ∉ l) ∧ (CR ∉ l)) (pre ++ [bad] ++ post) →
       Forall (λ l, is_Some (line_card l)) (pre ++ post) →
       loads (strip bad) = None →
       ∃ cards w',
         load_cards app w = Ok cards w'
         ∧ cards = omap line_card (pre ++ post)
         ∧ length cards = length pre + length post).
Proof.
  split; [apply load_cards_absent|].
  intros pre bad post data Hp Hl Hd Hlines Hgood Hbad.
  eexists _, _. split; [by apply (load_cards_present _ _ data)|].
  assert (Forall (λ l, LF ∉ l) (pre ++ [bad] ++ post)) as HLF.
  { eapply Forall_impl; [exact Hlines|]. by intros l [? _]. }
  assert (Forall (λ l, CR ∉ l) (pre ++ [bad] ++ post)) as HCR.
  { eapply Forall_impl; [exact Hlines|]. by intros l [_ ?]. }
  rewrite universal_newlines_id by (by apply concat_no_CR).
  rewrite omap_line_card_lines by done.
  rewrite omap_app_skip by (by apply line_card_None).
  split; [done|]. by rewrite omap_all_Some, length_app.
Qed.

End LoadClaims.

(** ** The [utf-8] codec *)
Section Utf8Facts.

Ltac ncase :=
  repeat match goal with
    | |- context [(?a <? ?b)%N] => destruct (N.ltb_spec a b); try lia
    | |- context [(?a <=? ?b)%N] => destruct (N.leb_spec a b); try lia
    end.

(** Quotients and remainders by 64 as unknowns with their equations. *)
Ltac by64 :=
  change 262144%N with (64 * 64 * 64)%N; change 4096%N with (64 * 64)%N;
  rewrite <-?N.Div0.div_div;
  repeat match goal with
    | |- context [(?x mod 64)%N] =>
        let H1 := fresh in
        let H2 := fresh in
        pose proof (N.div_mod x 64 ltac:(lia)) as H1;
        pose proof (N.mod_lt x 64 ltac:(lia)) as H2;
        generalize dependent (x mod 64)%N; intros
    end;
  repeat match goal with
    | |- context [(?x / 64)%N] => generalize dependent (x / 64)%N; intros
    end.

Lemma utf8_decode_encode_char c b rest :
  encode_char c = Some b →
  utf8_decode (b ++ rest) = cons c <$> utf8_decode rest.
Proof.
  unfold encode_char.
  destruct (N.ltb_spec c 128); [intros [= <-]; simpl; by ncase|].
  destruct (N.ltb_spec c 2048).
  { intros [= <-]. cbn [app utf8_decode]. unfold decode2, is_cont.
    by64. ncase. cbn [andb]. f_equal. f_equal. lia. }
  destruct (is_scalar c) eqn:Hs; [|done]. cbn [negb].
  destruct (N.ltb_spec c 65536).
  { intros [= <-]. cbn [app utf8_decode]. unfold decode3, is_cont.
    assert (∀ c', c' = c → is_scalar c' = true) as Hs' by (by intros ? ->).
    by64. ncase. cbn [andb]. rewrite Hs' by lia. f_equal. f_equal. lia. }
  intros [= <-]. unfold is_scalar in Hs. unbool.
  cbn [app utf8_decode]. unfold decode4, is_cont.
  by64. ncase. cbn [andb]. f_equal. f_equal. lia.
Qed.

Lemma utf8_roundtrip s b : utf8_encode s = Some b → utf8_decode b = Some s.
Proof.
  revert b. induction s as [|c s IH]; intros b; simpl; [by intros [= <-]|].
  destruct (encode_char c) as [bc|] eqn:Hc; [|done].
  destruct (utf8_encode s) as [bs|]; [|done]. intros [= <-].
  rewrite (utf8_decode_encode_char _ _ _ Hc). by rewrite (IH bs).
Qed.

Lemma utf8_encode_app s t :
  utf8_encode (s ++ t)
  = match utf8_encode s, utf8_encode t with
    | Some a, Some b => Some (a ++ b)
    | _, _ => None
    end.
Proof.
  induction s as [|c s IH]; simpl.
  - by destruct (utf8_encode t).
  - rewrite IH. destruct (encode_char c), (utf8_encode s), (utf8_encode t);
      try done. by rewrite app_assoc.
Qed.

Lemma encode_char_scalar c : is_Some (encode_char c) ↔ is_scalar c = true.
Proof.
  unfold encode_char, is_scalar.
  destruct (N.ltb_spec c 128); [split; [intros _; unbool; lia|by eexists]|].
  destruct (N.ltb_spec c 2048); [split; [intros _; unbool; lia|by eexists]|].
  destruct ((c <? 55296) || (57344 <=? c) && (c <? 1114112))%N; simpl.
  - destruct (c <? 65536)%N; split; by eauto.
  - split; [by intros [? ?]|done].
Qed.

Lemma utf8_encode_scalar s : is_Some (utf8_encode s) ↔ forallb is_scalar s = true.
Proof.
  induction s as [|c s IH]; simpl; [split; by eauto|].
  rewrite andb_true_iff, <-IH, <-encode_char_scalar.
  destruct (encode_char c), (utf8_encode s); split;
    try (intros [[? ?] [? ?]]); try (intros [? ?]); by eauto.
Qed.

Lemma utf8_decode_app a b ta :
  utf8_decode a = Some ta →
  utf8_decode (a ++ b) = (ta ++.) <$> utf8_decode b.
Proof.
  remember (length a) as n eqn:Hn. revert a ta Hn.
  induction n as [n IH] using lt_wf_ind. intros a ta -> Ha.
  destruct a as [|b0 a].
  { injection Ha as <-. simpl. by destruct (utf8_decode b). }
  cbn [app utf8_decode] in *.
  assert (∀ (c : N) (r : bytes), length r < length (b0 :: a) →
            cons c <$> utf8_decode r = Some ta →
            cons c <$> utf8_decode (r ++ b) = (ta ++.) <$> utf8_decode b) as Hstep.
  { intros c r Hlen Hr. destruct (utf8_decode r) as [tr|] eqn:Hdr; [|done].
    injection Hr as <-. rewrite (IH (length r) Hlen r tr) by done.
    simpl. by destruct (utf8_decode b). }
  destruct (b0 <? 128)%N; [apply Hstep; [simpl; lia|done]|].
  destruct (b0 <? 192)%N; [done|].
  destruct (b0 <? 224)%N.
  { destruct a as [|b1 a]; [done|]. cbn [app].
    destruct (decode2 b0 b1); [|done]. apply Hstep; [simpl; lia|done]. }
  destruct (b0 <? 240)%N.
  { destruct a as [|b1 [|b2 a]]; [done|done|]. cbn [app].
    destruct (decode3 b0 b1 b2); [|done]. apply Hstep; [simpl; lia|done]. }
  destruct (b0 <? 248)%N; [|done].
  destruct a as [|b1 [|b2 [|b3 a]]]; [done|done|done|]. cbn [app].
  destruct (decode4 b0 b1 b2 b3); [|done]. apply Hstep; [simpl; lia|done].
Qed.

End Utf8Facts.

(** ** The scanner: budget *)
Section ScannerBudget.
Context `{Runtime}.

(** [r'] is [r] with possibly more budget. *)
Definition refines {A} (r r' : scanned A) : Prop := r = Starved ∨ r = r'.

Lemma refines_refl {A} (r : scanned A) : refines r r.
Proof. by right. Qed.

Lemma and_then_mono {A B} (r r' : scanned A) (k k' : A → str → scanned B) :
  refines r r' → (∀ a rest, refines (k a rest) (k' a rest)) →
  refines (and_then r k) (and_then r' k').
Proof.
  intros [-> | ->] Hk; [by left|]. destruct r' as [a rest| |]; simpl; [apply Hk|by right|by right].
Qed.

Lemma scan_once_body_mono A A' O O' s :
  (∀ s, refines (A s) (A' s)) → (∀ s, refines (O s) (O' s)) →
  refines (scan_once_body A O s) (scan_once_body A' O' s).
Proof.
  intros HA HO. unfold scan_once_body. destruct s as [|c s']; [apply refines_refl|].
  repeat (match goal with |- context [if ?b then _ else _] => destruct b end;
          try apply refines_refl).
  - destruct (skip_ws s') as [|c' r]; [apply refines_refl|].
    destruct (c' =? ord "}")%N; [apply refines_refl|].
    apply and_then_mono; [apply HO|]. intros; apply refines_refl.
  - destruct (skip_ws s') as [|c' r]; [apply refines_refl|].
    destruct (c' =? ord "]")%N; [apply refines_refl|].
    apply and_then_mono; [apply HA|]. intros; apply refines_refl.
Qed.

Lemma array_items_body_mono S S' A A' s :
  (∀ s, refines (S s) (S' s)) → (∀ s, refines (A s) (A' s)) →
  refines (array_items_body S A s) (array_items_body S' A' s).
Proof.
  intros HS HA. unfold array_items_body. apply and_then_mono; [apply HS|].
  intros v r. destruct (skip_ws r) as [|c r']; [apply refines_refl|].
  destruct (c =? ord "]")%N; [apply refines_refl|].
  destruct (c =? ord ",")%N; [|apply refines_refl].
  apply and_then_mono; [apply HA|]. intros; apply refines_refl.
Qed.

Lemma object_items_body_mono S S' O O' s :
  (∀ s, refines (S s) (S' s)) → (∀ s, refines (O s) (O' s)) →
  refines (object_items_body S O s) (object_items_body S' O' s).
Proof.
  intros HS HO. unfold object_items_body. destruct s as [|c s']; [apply refines_refl|].
  destruct (c =? 34)%N; [|apply refines_refl].
  destruct (scanstring s') as [[key r]|]; [|apply refines_refl].
  destruct (skip_ws r) as [|c1 r1]; [apply refines_refl|].
  destruct (c1 =? ord ":")%N; [|apply refines_refl].
  apply and_then_mono; [apply HS|].
  intros v r2. destruct (skip_ws r2) as [|c2 r3]; [apply refines_refl|].
  destruct (c2 =? ord "}")%N; [apply refines_refl|].
  destruct (c2 =? ord ",")%N; [|apply refines_refl].
  apply and_then_mono; [apply HO|]. intros; apply refines_refl.
Qed.

(** More budget never changes an answer. *)
Lemma scan_mono fuel fuel' :
  fuel ≤ fuel' →
  (∀ s, refines (scan_once fuel s) (scan_once fuel' s))
  ∧ (∀ s, refines (array_items fuel s) (array_items fuel' s))
  ∧ (∀ s, refines (object_items fuel s) (object_items fuel' s)).
Proof.
  revert fuel'. induction fuel as [|fuel IH]; intros fuel' Hle.
  - split_and!; intros; by left.
  - destruct fuel' as [|fuel']; [lia|].
    destruct (IH fuel' ltac:(lia)) as (HS & HA & HO).
    split_and!; intros s; cbn [scan_once array_items object_items].
    + by apply scan_once_body_mono.
    + by apply array_items_body_mono.
    + by apply object_items_body_mono.
Qed.

Lemma scan_once_more fuel fuel' s v r :
  fuel ≤ fuel' → scan_once fuel s = Scanned v r → scan_once fuel' s = Scanned v r.
Proof.
  intros Hle Hs. destruct (scan_mono fuel fuel' Hle) as (HS & _ & _).
  destruct (HS s) as [Hst|<-]; [congruence|done].
Qed.

Lemma array_items_more fuel fuel' s v r :
  fuel ≤ fuel' → array_items fuel s = Scanned v r → array_items fuel' s = Scanned v r.
Proof.
  intros Hle Hs. destruct (scan_mono fuel fuel' Hle) as (_ & HA & _).
  destruct (HA s) as [Hst|<-]; [congruence|done].
Qed.

Lemma object_items_more fuel fuel' s v r :
  fuel ≤ fuel' → object_items fuel s = Scanned v r → object_items fuel' s = Scanned v r.
Proof.
  intros Hle Hs. destruct (scan_mono fuel fuel' Hle) as (_ & _ & HO).
  destruct (HO s) as [Hst|<-]; [congruence|done].
Qed.

End ScannerBudget.

(** ** The scanner: what a scan consumes *)
Section ScannerProgress.
Context `{Runtime}.

Lemma lstrip_by_length p s : length (lstrip_by p s) ≤ length s.
Proof. induction s as [|c s IH]; simpl; [done|]. destruct (p c); simpl; lia. Qed.

Lemma skip_ws_length s : length (skip_ws s) ≤ length s.
Proof. apply lstrip_by_length. Qed.

(** [scanstring] is the iteration of [scan_char]. *)
Lemma scanstring_unfold s :
  scanstring s
  = match scan_char s with
    | None => None
    | Some (None, r) => Some ([], r)
    | Some (Some ch, r) =>
        match scanstring r with
        | Some (t, r') => Some (ch :: t, r')
        | None => None
        end
    end.
Proof.
  destruct s as [|c s1]; [done|]. cbn [scanstring scan_char].
  repeat (case_match; simplify_eq; try done).
Qed.

Lemma scan_char_shorter s x r : scan_char s = Some (x, r) → length r < length s.
Proof.
  unfold scan_char. intros Hs.
  repeat (case_match; simplify_eq; try done); simpl; lia.
Qed.

Lemma scanstring_shorter s t r :
  scanstring s = Some (t, r) → length r < length s.
Proof.
  remember (length s) as n eqn:Hn. revert s t r Hn.
  induction n as [n IH] using lt_wf_ind. intros s t r -> Hs.
  rewrite scanstring_unfold in Hs.
  destruct (scan_char s) as [[[ch|] r1]|] eqn:Hc; [| |done].
  - apply scan_char_shorter in Hc.
    destruct (scanstring r1) as [[t' r']|] eqn:Hr; [|done]. injection Hs as <- <-.
    apply (IH _ Hc r1 t' r' eq_refl) in Hr. lia.
  - injection Hs as <- <-. by apply scan_char_shorter in Hc.
Qed.

Lemma span_digits_app s d r :
  span_digits s = (d, r) → s = d ++ r ∧ forallb is_digit d = true.
Proof.
  revert d r. induction s as [|c s IH]; intros d r; simpl.
  - by intros [= <- <-].
  - destruct (is_digit c) eqn:Hc.
    + destruct (span_digits s) as [d' r']. intros [= <- <-].
      destruct (IH d' r' eq_refl) as [-> Hd]. simpl. by rewrite Hc.
    + by intros [= <- <-].
Qed.

Lemma match_integer_app s i r :
  match_integer s = Some (i, r) → s = i ++ r ∧ i ≠ [].
Proof.
  unfold match_integer. intros Hm.
  repeat (case_match; simplify_eq);
    repeat match goal with
      | Hd : span_digits _ = _ |- _ => apply span_digits_app in Hd as [-> _]
      end;
    split; try done; by destruct (ord "-" :: nil).
Qed.

Lemma match_frac_app s f r : match_frac s = (f, r) → s = f ++ r.
Proof.
  unfold match_frac. intros Hm.
  repeat (case_match; simplify_eq);
    repeat match goal with
      | Hd : span_digits _ = _ |- _ => apply span_digits_app in Hd as [-> _]
      end; done.
Qed.

Lemma match_exp_app s e r : match_exp s = (e, r) → s = e ++ r.
Proof.
  unfold match_exp. destruct s as [|c s']; [by intros [= <- <-]|].
  destruct ((c =? ord "e") || (c =? ord "E"))%N; [|by intros [= <- <-]].
  set (sign := match s' with
               | c0 :: t =>
                   if ((c0 =? ord "-") || (c0 =? ord "+"))%N then ([c0], t) else ([], s')
               | [] => ([], s')
               end).
  assert (s' = sign.1 ++ sign.2) as Hsign.
  { unfold sign. destruct s' as [|c0 t]; [done|].
    by destruct ((c0 =? ord "-") || (c0 =? ord "+"))%N. }
  destruct sign as [sg s'']. simpl in Hsign.
  destruct (span_digits s'') as [ds r0] eqn:Hd.
  apply span_digits_app in Hd as [-> _].
  destruct ds as [|d ds]; intros [= <- <-]; [done|].
  rewrite Hsign. simpl. by rewrite <-app_assoc.
Qed.

Lemma match_number_shorter s v r :
  match_number s = Scanned v r → length r < length s.
Proof.
  unfold match_number. intros Hm.
  destruct (match_integer s) as [[i r1]|] eqn:Hi; [|done].
  destruct (match_frac r1) as [f r2] eqn:Hf.
  destruct (match_exp r2) as [e r3] eqn:He.
  apply match_integer_app in Hi as [-> Hne].
  apply match_frac_app in Hf as ->. apply match_exp_app in He as ->.
  assert (r = r3) as -> by (by destruct (truthy f || truthy e); simplify_eq).
  rewrite !length_app. destruct i; [done|]. simpl. lia.
Qed.

Lemma match_number_fed s : match_number s ≠ Starved.
Proof.
  unfold match_number. repeat case_match; done.
Qed.

Lemma after_prefix_app lit s r : after_prefix lit s = Some r → s = lit ++ r.
Proof.
  revert s. induction lit as [|a lit IH]; intros s; simpl.
  - by intros [= ->].
  - destruct s as [|c s]; [done|]. destruct (N.eqb_spec a c) as [->|]; [|done].
    intros Hs. by rewrite (IH _ Hs).
Qed.

Lemma keyword_shorter lit v s v' r :
  lit ≠ [] →
  keyword lit v s (match_number s) = Scanned v' r → length r < length s.
Proof.
  intros Hlit. unfold keyword.
  destruct (after_prefix lit s) as [r'|] eqn:Hp.
  - intros [= <- <-]. apply after_prefix_app in Hp as ->.
    rewrite length_app. destruct lit; [done|]. simpl. lia.
  - apply match_number_shorter.
Qed.

Lemma keyword_fed lit v s : keyword lit v s (match_number s) ≠ Starved.
Proof. unfold keyword. destruct (after_prefix lit s); [done|apply match_number_fed]. Qed.

(** What it is for a scanner to consume at least one character. *)
Definition consumes {A} (scan : str → scanned A) : Prop :=
  ∀ s a r, scan s = Scanned a r → length r < length s.

Lemma scan_once_body_consumes A O :
  consumes A → consumes O → consumes (scan_once_body A O).
Proof.
  intros HA HO s v r. unfold scan_once_body.
  destruct s as [|c s']; [done|].
  destruct (c =? 34)%N.
  { destruct (scanstring s') as [[t r']|] eqn:Hs; [|done]. intros [= <- <-].
    apply scanstring_shorter in Hs. simpl. lia. }
  destruct (c =? ord "{")%N.
  { pose proof (skip_ws_length s') as Hlen.
    destruct (skip_ws s') as [|c' r']; [done|].
    destruct (c' =? ord "}")%N; [intros [= <- <-]; simpl in *; lia|].
    destruct (O (c' :: r')) as [pairs r''| |] eqn:Ho; [|done|done]. cbn [and_then].
    intros [= <- <-]. apply HO in Ho. simpl in *. lia. }
  destruct (c =? ord "[")%N.
  { pose proof (skip_ws_length s') as Hlen.
    destruct (skip_ws s') as [|c' r']; [done|].
    destruct (c' =? ord "]")%N; [intros [= <- <-]; simpl in *; lia|].
    destruct (A (c' :: r')) as [l r''| |] eqn:Ha; [|done|done]. cbn [and_then].
    intros [= <- <-]. apply HA in Ha. simpl in *. lia. }
  repeat (destruct (c =? _)%N; [by apply keyword_shorter|]).
  apply match_number_shorter.
Qed.

Lemma array_items_body_consumes S A :
  consumes S → consumes A → consumes (array_items_body S A).
Proof.
  intros HS HA s l r. unfold array_items_body.
  destruct (S s) as [v r1| |] eqn:Hs; [|done|done]. cbn [and_then].
  apply HS in Hs. pose proof (skip_ws_length r1) as Hlen.
  destruct (skip_ws r1) as [|c r2]; [done|].
  destruct (c =? ord "]")%N; [intros [= <- <-]; simpl in *; lia|].
  destruct (c =? ord ",")%N; [|done].
  pose proof (skip_ws_length r2) as Hlen2.
  destruct (A (skip_ws r2)) as [l' r3| |] eqn:Ha; [|done|done]. cbn [and_then].
  intros [= <- <-]. apply HA in Ha. simpl in *. lia.
Qed.

Lemma object_items_body_consumes S O :
  consumes S → consumes O → consumes (object_items_body S O).
Proof.
  intros HS HO s l r. unfold object_items_body.
  destruct s as [|c s']; [done|]. destruct (c =? 34)%N; [|done].
  destruct (scanstring s') as [[key r0]|] eqn:Hk; [|done].
  apply scanstring_shorter in Hk. pose proof (skip_ws_length r0) as Hlen0.
  destruct (skip_ws r0) as [|c1 r1]; [done|].
  destruct (c1 =? ord ":")%N; [|done].
  pose proof (skip_ws_length r1) as Hlen1.
  destruct (S (skip_ws r1)) as [v r2| |] eqn:Hs; [|done|done]. cbn [and_then].
  apply HS in Hs. pose proof (skip_ws_length r2) as Hlen2.
  destruct (skip_ws r2) as [|c2 r3]; [done|].
  destruct (c2 =? ord "}")%N; [intros [= <- <-]; simpl in *; lia|].
  destruct (c2 =? ord ",")%N; [|done].
  pose proof (skip_ws_length r3) as Hlen3.
  destruct (O (skip_ws r3)) as [l' r4| |] eqn:Ho; [|done|done]. cbn [and_then].
  intros [= <- <-]. apply HO in Ho. simpl in *. lia.
Qed.

Lemma scan_consumes fuel :
  consumes (scan_once fuel) ∧ consumes (array_items fuel)
  ∧ consumes (object_items fuel).
Proof.
  induction fuel as [|fuel (HS & HA & HO)]; [by split_and!|].
  split_and!; cbn [scan_once array_items object_items].
  - by apply scan_once_body_consumes.
  - by apply array_items_body_consumes.
  - by apply object_items_body_consumes.
Qed.

End ScannerProgress.

(** ** The scanner: the budget of [loads] is enough *)
Section ScannerEnough.
Context `{Runtime}.

Lemma scan_once_body_fed A O s :
  (∀ s', length s' < length s → A s' ≠ Starved) →
  (∀ s', length s' < length s → O s' ≠ Starved) →
  scan_once_body A O s ≠ Starved.
Proof.
  intros HA HO. unfold scan_once_body. destruct s as [|c s']; [done|].
  destruct (c =? 34)%N; [by destruct (scanstring s') as [[? ?]|]|].
  destruct (c =? ord "{")%N.
  { pose proof (skip_ws_length s') as Hlen.
    destruct (skip_ws s') as [|c' r]; [done|].
    destruct (c' =? ord "}")%N; [done|].
    specialize (HO (c' :: r) ltac:(simpl in *; lia)).
    by destruct (O (c' :: r)). }
  destruct (c =? ord "[")%N.
  { pose proof (skip_ws_length s') as Hlen.
    destruct (skip_ws s') as [|c' r]; [done|].
    destruct (c' =? ord "]")%N; [done|].
    specialize (HA (c' :: r) ltac:(simpl in *; lia)).
    by destruct (A (c' :: r)). }
  repeat (destruct (c =? _)%N; [by apply keyword_fed|]).
  apply match_number_fed.
Qed.

Lemma array_items_body_fed S A s :
  S s ≠ Starved → consumes S →
  (∀ s', length s' + 2 ≤ length s → A s' ≠ Starved) →
  array_items_body S A s ≠ Starved.
Proof.
  intros HS Hcons HA. unfold array_items_body.
  destruct (S s) as [v r| |] eqn:Hs; [|done|done]. cbn [and_then].
  apply Hcons in Hs. pose proof (skip_ws_length r) as Hlen.
  destruct (skip_ws r) as [|c r']; [done|].
  destruct (c =? ord "]")%N; [done|]. destruct (c =? ord ",")%N; [|done].
  pose proof (skip_ws_length r') as Hlen'.
  specialize (HA (skip_ws r') ltac:(simpl in *; lia)).
  by destruct (A (skip_ws r')).
Qed.

Lemma object_items_body_fed S O s :
  (∀ s', length s' + 2 ≤ length s → S s' ≠ Starved) → consumes S →
  (∀ s', length s' + 2 ≤ length s → O s' ≠ Starved) →
  object_items_body S O s ≠ Starved.
Proof.
  intros HS Hcons HO. unfold object_items_body.
  destruct s as [|c s']; [done|]. destruct (c =? 34)%N; [|done].
  destruct (scanstring s') as [[key r0]|] eqn:Hk; [|done].
  apply scanstring_shorter in Hk. pose proof (skip_ws_length r0) as Hlen0.
  destruct (skip_ws r0) as [|c1 r1]; [done|].
  destruct (c1 =? ord ":")%N; [|done].
  pose proof (skip_ws_length r1) as Hlen1.
  specialize (HS (skip_ws r1) ltac:(simpl in *; lia)).
  destruct (S (skip_ws r1)) as [v r2| |] eqn:Hs; [|done|done]. cbn [and_then].
  apply Hcons in Hs. pose proof (skip_ws_length r2) as Hlen2.
  destruct (skip_ws r2) as [|c2 r3]; [done|].
  destruct (c2 =? ord "}")%N; [done|]. destruct (c2 =? ord ",")%N; [|done].
  pose proof (skip_ws_length r3) as Hlen3.
  specialize (HO (skip_ws r3) ltac:(simpl in *; lia)).
  by destruct (O (skip_ws r3)).
Qed.

Lemma scan_fed fuel :
  (∀ s, 2 * length s < fuel → scan_once fuel s ≠ Starved)
  ∧ (∀ s, 2 * length s + 1 < fuel → array_items fuel s ≠ Starved)
  ∧ (∀ s, 2 * length s + 1 < fuel → object_items fuel s ≠ Starved).
Proof.
  induction fuel as [|fuel (HS & HA & HO)]; [split_and!; intros; lia|].
  destruct (scan_consumes fuel) as (Hcons & _ & _).
  split_and!; intros s Hs; cbn [scan_once array_items object_items].
  - apply scan_once_body_fed; intros s' Hs'; [apply HA|apply HO]; lia.
  - apply array_items_body_fed; [apply HS; lia|done|].
    intros s' Hs'. apply HA. lia.
  - apply object_items_body_fed; [|done|].
    + intros s' Hs'. apply HS. lia.
    + intros s' Hs'. apply HO. lia.
Qed.

(** The budget [loads] gives is never used up. *)
Lemma scan_once_enough s : scan_once (budget s) s ≠ Starved.
Proof. apply scan_fed. unfold budget. lia. Qed.

(** An answer found with some budget is the answer of [loads]'s scan. *)
Lemma scan_once_budget fuel s v r :
  scan_once fuel s = Scanned v r → scan_once (budget s) s = Scanned v r.
Proof.
  intros Hs. pose proof (scan_once_enough s) as Hfed.
  destruct (scan_mono (budget s) (budget s `max` fuel) ltac:(lia)) as (Hm & _ & _).
  destruct (Hm s) as [?| ->]; [done|].
  apply (scan_once_more fuel); [lia|done].
Qed.

End ScannerEnough.

(** ** The scanner reads back what the encoder writes *)
Section JsonRoundtrip.
Context `{Runtime}.

Lemma pyval_ind (P : pyval → Prop) :
  P PNone → (∀ b, P (PBool b)) → (∀ z, P (PInt z)) → (∀ r, P (PFloat r)) →
  (∀ s, P (PStr s)) →
  (∀ l, Forall P l → P (PList l)) →
  (∀ d, Forall (λ kv, P kv.2) d → P (PDict d)) →
  ∀ v, P v.
Proof.
  intros Hnone Hbool Hint Hfloat Hstr Hlist Hdict.
  exact (fix go (v : pyval) : P v :=
           match v with
           | PNone => Hnone
           | PBool b => Hbool b
           | PInt z => Hint z
           | PFloat r => Hfloat r
           | PStr s => Hstr s
           | PList l =>
               Hlist l
                 ((fix all (l : list pyval) : Forall P l :=
                     match l with
                     | [] => Forall_nil_2 P
                     | x :: l' => Forall_cons_2 P x l' (go x) (all l')
                     end) l)
           | PDict d =>
               Hdict d
                 ((fix all (d : list (str * pyval)) : Forall (λ kv, P kv.2) d :=
                     match d with
                     | [] => Forall_nil_2 _
                     | kv :: d' => Forall_cons_2 _ kv d' (go kv.2) (all d')
                     end) d)
           end).
Qed.

(** The values the round trip is stated for: no float (its text is the
    runtime's), and dictionaries with pairwise distinct keys, as a Python
    [dict] has them. *)
Fixpoint storable (v : pyval) : bool :=
  match v with
  | PFloat _ => false
  | PList l => forallb storable l
  | PDict d =>
      bool_decide (NoDup (fst <$> d)) && forallb (λ kv, storable (snd kv)) d
  | _ => true
  end.

(** The limits of the interpreter that [dumps] and [loads] do not show: an
    [int] of more than 4300 digits is neither written nor read
    ([ValueError], [sys.get_int_max_str_digits]), and lists and
    dictionaries nested beyond the recursion limit (1000 frames by default)
    raise [RecursionError].  [within_limits] holds of a value whose
    integers have at most 4300 digits and whose nesting is at most
    [nesting_max] deep, far from the recursion limit. *)
Definition int_max_str_digits : nat := 4300.
Definition nesting_max : nat := 100.

Fixpoint nested_within (n : nat) (v : pyval) : bool :=
  match v with
  | PInt z => length (str_of_N (Z.abs_N z)) <=? int_max_str_digits
  | PList l =>
      match n with
      | O => false
      | S n => forallb (nested_within n) l
      end
  | PDict d =>
      match n with
      | O => false
      | S n => forallb (λ kv, nested_within n (snd kv)) d
      end
  | _ => true
  end.

Definition within_limits (v : pyval) : bool := nested_within nesting_max v.

(** *** Strings *)
Lemma scan_char_escape c rest :
  scan_char (escape_char c ++ rest) = Some (Some c, rest).
Proof.
  unfold escape_char.
  repeat match goal with
    | |- context [(c =? ?k)%N] =>
        destruct (N.eqb_spec c k) as [->|?]; [reflexivity|]
    end.
  destruct (N.ltb_spec c 32) as [Hc|Hc].
  - destruct c as [|p]; [reflexivity|].
    do 6 (destruct p as [p|p|]; try (exfalso; lia); try reflexivity).
  - unfold scan_char. cbn [app].
    change (ord "\") with 92%N in *.
    destruct (N.eqb_spec c 34); [done|]. destruct (N.eqb_spec c 92); [done|].
    destruct (N.ltb_spec c 32); [lia|done].
Qed.

Lemma scanstring_encode s rest :
  scanstring (flat_map escape_char s ++ 34%N :: rest) = Some (s, rest).
Proof.
  induction s as [|c s IH]; [done|].
  cbn [flat_map]. rewrite <-app_assoc, scanstring_unfold, scan_char_escape.
  by rewrite IH.
Qed.

Lemma scanstring_basestring s rest :
  ∃ tail, encode_basestring s ++ rest = 34%N :: tail
          ∧ scanstring tail = Some (s, rest).
Proof.
  exists (flat_map escape_char s ++ 34%N :: rest). split.
  - unfold encode_basestring. simpl. by rewrite <-app_assoc.
  - apply scanstring_encode.
Qed.

End JsonRoundtrip.

(** *** Integers *)
Section JsonIntegers.
Context `{Runtime}.

(** A text after which a number ends: nothing, or a character that is no
    digit, dot or exponent mark. *)
Definition number_stop (rest : str) : Prop :=
  match rest with
  | [] => True
  | c :: _ => is_digit c = false ∧ c ≠ ord "." ∧ c ≠ ord "e" ∧ c ≠ ord "E"
  end.

Lemma span_digits_stop ds rest :
  forallb is_digit ds = true → number_stop rest →
  span_digits (ds ++ rest) = (ds, rest).
Proof.
  intros Hds Hrest. induction ds as [|d ds IH].
  - destruct rest as [|c rest]; [done|]. destruct Hrest as [Hc _].
    cbn [app span_digits]. by rewrite Hc.
  - cbn [forallb] in Hds. apply andb_true_iff in Hds as [Hd Hds].
    cbn [app span_digits]. by rewrite Hd, IH.
Qed.

Lemma to_uint_normal n :
  N.to_uint n ≠ Decimal.Nil ∧ ∀ u, N.to_uint n = Decimal.D0 u → u = Decimal.Nil.
Proof.
  pose proof (DecimalN.Unsigned.to_of (N.to_uint n)) as Hn.
  rewrite DecimalN.Unsigned.of_to in Hn. rewrite Hn. split.
  - apply unorm_nonnil.
  - intros u Hu. unfold Decimal.unorm in Hu.
    destruct (Decimal.nzhead (N.to_uint n)) eqn:Hz; try done.
    + by injection Hu as <-.
    + by apply nzhead_nonzero in Hz.
Qed.

(** The decimal text of a natural number: digits, without a leading zero
    unless it is [0]. *)
Lemma str_of_N_shape n :
  ∃ c ds, str_of_N n = c :: ds ∧ is_digit c = true
          ∧ forallb is_digit ds = true ∧ (c = 48%N → ds = [] ∧ n = 0%N).
Proof.
  unfold str_of_N. destruct (to_uint_normal n) as [Hnil Hzero].
  pose proof (digits_of_uint_all_digits (N.to_uint n)) as Hall.
  pose proof (DecimalN.Unsigned.of_to n) as Hof.
  destruct (N.to_uint n) as [|u|u|u|u|u|u|u|u|u|u] eqn:Hn; [done|..];
    simpl in Hall |- *; eexists _, _; (split; [reflexivity|]);
    (split; [reflexivity|]); (split; [exact Hall|]); try (by intros [=]).
  intros _. rewrite (Hzero u eq_refl) in *. split; [done|]. by rewrite <-Hof.
Qed.

Lemma uint_of_str_of_N n : N.of_uint (uint_of_digits (str_of_N n)) = n.
Proof.
  unfold str_of_N. by rewrite uint_of_digits_of_uint, DecimalN.Unsigned.of_to.
Qed.

Lemma int_of_literal_repr z : int_of_literal (int_repr z) = z.
Proof.
  unfold int_repr. destruct (Z.ltb_spec z 0) as [Hz|Hz].
  - unfold int_of_literal. rewrite N.eqb_refl, uint_of_str_of_N. lia.
  - destruct (str_of_N_shape (Z.to_N z)) as (c & ds & Hs & Hc & _).
    unfold int_of_literal. rewrite Hs.
    destruct (N.eqb_spec c (ord "-")) as [->|_]; [done|].
    rewrite <-Hs, uint_of_str_of_N. lia.
Qed.

Lemma match_integer_repr z rest :
  number_stop rest → match_integer (int_repr z ++ rest) = Some (int_repr z, rest).
Proof.
  intros Hrest.
  assert (∀ n sign, (n = 0%N → sign = []) →
            match str_of_N n ++ rest with
            | [] => None
            | c :: s2 =>
                if ((49 <=? c) && (c <=? 57))%N
                then let '(d, r) := span_digits s2 in Some (sign ++ c :: d, r)
                else if (c =? 48)%N then Some (sign ++ [c], s2) else None
            end = Some (sign ++ str_of_N n, rest)) as Hdigits.
  { intros n sign Hsign.
    destruct (str_of_N_shape n) as (c & ds & -> & Hc & Hds & Hzero).
    cbn [app]. unfold is_digit in Hc.
    destruct (N.eqb_spec c 48) as [->|Hne].
    - destruct (Hzero eq_refl) as [-> _]. done.
    - assert (((49 <=? c) && (c <=? 57))%N = true) as -> by (unbool; lia).
      by rewrite span_digits_stop. }
  unfold match_integer, int_repr. destruct (Z.ltb_spec z 0) as [Hz|Hz].
  - cbn [app]. rewrite N.eqb_refl.
    destruct (str_of_N_shape (Z.abs_N z)) as (c & ds & Hs & Hc & Hds & Hzero).
    specialize (Hdigits (Z.abs_N z) [ord "-"]). rewrite Hs in *. cbn [app] in *.
    destruct (N.eqb_spec c 48) as [->|Hne].
    + destruct (Hzero eq_refl) as [_ ?]. lia.
    + assert (((49 <=? c) && (c <=? 57))%N = true) as Hc'
        by (unfold is_digit in Hc; unbool; lia).
      rewrite Hc'. by rewrite span_digits_stop.
  - destruct (str_of_N_shape (Z.to_N z)) as (c & ds & Hs & Hc & Hds & Hzero).
    specialize (Hdigits (Z.to_N z) [] ltac:(done)). rewrite Hs in *. cbn [app] in *.
    destruct (N.eqb_spec c (ord "-")) as [->|_]; [done|]. exact Hdigits.
Qed.

Lemma match_frac_stop rest : number_stop rest → match_frac rest = ([], rest).
Proof.
  unfold match_frac. destruct rest as [|p [|d rest]]; [done| |].
  - by intros (_ & Hp & _).
  - intros (_ & Hp & _). by destruct (N.eqb_spec p (ord ".")).
Qed.

Lemma match_exp_stop rest : number_stop rest → match_exp rest = ([], rest).
Proof.
  unfold match_exp. destruct rest as [|e rest]; [done|].
  intros (_ & _ & He & HE).
  destruct (N.eqb_spec e (ord "e")); [done|]. by destruct (N.eqb_spec e (ord "E")).
Qed.

Lemma match_number_int z rest :
  number_stop rest → match_number (int_repr z ++ rest) = Scanned (PInt z) rest.
Proof.
  intros Hrest. unfold match_number.
  rewrite match_integer_repr, match_frac_stop, match_exp_stop by done.
  simpl. by rewrite int_of_literal_repr.
Qed.

(** The first character of a decimal integer sends [scan_once] to
    [match_number]. *)
Lemma scan_once_body_int A O z rest :
  number_stop rest →
  scan_once_body A O (int_repr z ++ rest) = Scanned (PInt z) rest.
Proof.
  intros Hrest. rewrite <-(match_number_int z rest Hrest).
  unfold int_repr. destruct (Z.ltb_spec z 0) as [Hz|Hz].
  - destruct (str_of_N_shape (Z.abs_N z)) as (c & ds & Hs & Hc & _).
    rewrite Hs. cbn [app scan_once_body]. 
    change (ord "-" =? 34)%N with false. change (ord "-" =? ord "{")%N with false.
    change (ord "-" =? ord "[")%N with false. change (ord "-" =? ord "n")%N with false.
    change (ord "-" =? ord "t")%N with false. change (ord "-" =? ord "f")%N with false.
    change (ord "-" =? ord "N")%N with false. change (ord "-" =? ord "I")%N with false.
    change (ord "-" =? ord "-")%N with true. cbv iota.
    unfold keyword. cbn [py after_prefix]. 
    assert (after_prefix (py "-Infinity") (ord "-" :: c :: ds ++ rest) = None) as ->; [|done].
    change (py "-Infinity") with (ord "-" :: ord "I" :: py "nfinity").
    cbn [after_prefix]. rewrite N.eqb_refl.
    destruct (N.eqb_spec (ord "I") c) as [<-|]; [done|done].
  - destruct (str_of_N_shape (Z.to_N z)) as (c & ds & Hs & Hc & _).
    rewrite Hs. cbn [app scan_once_body]. unfold is_digit in Hc.
    repeat match goal with
      | |- context [(c =? ?k)%N] =>
          destruct (N.eqb_spec c k) as [->|?]; [done|]
      end.
    done.
Qed.

End JsonIntegers.

(** *** Values *)
Section JsonValues.
Context `{Runtime}.

(** The characters a JSON text written by the encoder starts with. *)
Definition token_start (c : N) : bool := in_chars (pyq "'[{ntf-0123456789") c.

Definition starts_token (text : str) : Prop :=
  ∃ c s, text = c :: s ∧ token_start c = true.

Lemma token_start_facts c :
  token_start c = true →
  is_ws c = false ∧ isspace c = false ∧ c ≠ ord "]" ∧ c ≠ ord "}"
  ∧ c ≠ 65279%N.
Proof.
  unfold token_start, in_chars. intros Hc%bool_decide_eq_true.
  change (pyq "'[{ntf-0123456789")
    with [34; 91; 123; 110; 116; 102; 45; 48; 49; 50; 51; 52; 53; 54; 55; 56; 57]%N
    in Hc.
  repeat (apply elem_of_cons in Hc as [->|Hc];
          [vm_compute; repeat split; congruence|]).
  by apply elem_of_nil in Hc.
Qed.

Lemma is_digit_token c : is_digit c = true → token_start c = true.
Proof.
  unfold is_digit. intros Hc. unbool.
  assert (c ∈ [48; 49; 50; 51; 52; 53; 54; 55; 56; 57]%N) as Hin.
  { rewrite !elem_of_cons. lia. }
  repeat (apply elem_of_cons in Hin as [->|Hin]; [by vm_compute|]).
  by apply elem_of_nil in Hin.
Qed.

Lemma is_digit_not_space c : is_digit c = true → isspace c = false.
Proof. intros Hc. by apply is_digit_token, token_start_facts in Hc as (_ & ? & _). Qed.

Lemma starts_token_app text rest : starts_token text → starts_token (text ++ rest).
Proof. intros (c & s & -> & Hc). by exists c, (s ++ rest). Qed.

Lemma skip_ws_token text : starts_token text → skip_ws text = text.
Proof.
  intros (c & s & -> & Hc). apply token_start_facts in Hc as (Hc & _).
  unfold skip_ws. by apply lstrip_by_keep.
Qed.

Lemma encode_starts_token v : storable v = true → starts_token (encode v).
Proof.
  destruct v as [|[|]|z|r|s|l|d]; try (intros _; by eexists _, _); [|done].
  intros _. cbn [encode]. unfold int_repr. destruct (z <? 0)%Z; [by eexists _, _|].
  destruct (str_of_N_shape (Z.to_N z)) as (c & ds & -> & Hc & _).
  exists c, ds. split; [done|]. by apply is_digit_token.
Qed.

Lemma snoc_exists {A} (l : list A) : l ≠ [] → ∃ s d, l = s ++ [d].
Proof.
  induction l as [|a l IH] using rev_ind; [done|]. intros _. by exists l, a.
Qed.

Lemma encode_ends v :
  storable v = true → ∃ s d, encode v = s ++ [d] ∧ isspace d = false.
Proof.
  assert (∀ n, ∃ s d, str_of_N n = s ++ [d] ∧ isspace d = false) as Hnat.
  { intros n. destruct (str_of_N_shape n) as (c & ds & Hs & Hc & Hds & _).
    destruct (snoc_exists (str_of_N n)) as (s & d & Hsd); [by rewrite Hs|].
    exists s, d. split; [done|]. apply is_digit_not_space.
    assert (forallb is_digit (str_of_N n) = true) as Hall
      by (rewrite Hs; simpl; by rewrite Hc).
    rewrite Hsd, forallb_app in Hall. cbn [forallb] in Hall.
    apply andb_true_iff in Hall as [_ Hd]. by apply andb_true_iff in Hd as [? _]. }
  destruct v as [|[|]|z|r|s|l|d]; intros Hst; try done.
  - by exists (py "nul"), (ord "l").
  - by exists (py "tru"), (ord "e").
  - by exists (py "fals"), (ord "e").
  - cbn [encode]. unfold int_repr. destruct (z <? 0)%Z; [|apply Hnat].
    destruct (Hnat (Z.abs_N z)) as (s & d & -> & Hd). by exists (ord "-" :: s), d.
  - by exists (34%N :: flat_map escape_char s), 34%N.
  - eexists (ord "[" :: _), (ord "]"). by split.
  - eexists (ord "{" :: _), (ord "}"). by split.
Qed.

(** What may follow a value inside the encoder's text. *)
Definition delimited (rest : str) : Prop :=
  match rest with
  | [] => True
  | c :: _ => c = ord "," ∨ c = ord "]" ∨ c = ord "}"
  end.

Lemma delimited_number_stop rest : delimited rest → number_stop rest.
Proof.
  destruct rest as [|c rest]; [done|]. by intros [-> |[-> | ->]].
Qed.

Lemma array_items_body_last S A text v rest :
  S text = Scanned v (ord "]" :: rest) →
  array_items_body S A text = Scanned [v] rest.
Proof. intros HS. unfold array_items_body. by rewrite HS. Qed.

Lemma array_items_body_next S A text v tail l rest :
  S text = Scanned v (item_separator ++ tail) →
  skip_ws tail = tail → A tail = Scanned l rest →
  array_items_body S A text = Scanned (v :: l) rest.
Proof.
  intros HS Htail HA. unfold array_items_body. rewrite HS. cbn [and_then].
  change (skip_ws (item_separator ++ tail)) with (ord "," :: ord " " :: tail).
  cbv iota. change (ord "," =? ord "]")%N with false.
  change (ord "," =? ord ",")%N with true. cbv iota.
  change (skip_ws (ord " " :: tail)) with (skip_ws tail).
  by rewrite Htail, HA.
Qed.

Lemma object_items_body_last S O key text v rest :
  skip_ws text = text → S text = Scanned v (ord "}" :: rest) →
  object_items_body S O (encode_basestring key ++ key_separator ++ text)
  = Scanned [(key, v)] rest.
Proof.
  intros Htext HS.
  destruct (scanstring_basestring key (key_separator ++ text)) as (t & -> & Ht).
  unfold object_items_body. change (34 =? 34)%N with true. cbv iota. rewrite Ht.
  change (skip_ws (key_separator ++ text)) with (ord ":" :: ord " " :: text).
  cbv iota. change (ord ":" =? ord ":")%N with true. cbv iota.
  change (skip_ws (ord " " :: text)) with (skip_ws text).
  by rewrite Htext, HS.
Qed.

Lemma object_items_body_next S O key text v tail l rest :
  skip_ws text = text → S text = Scanned v (item_separator ++ tail) →
  skip_ws tail = tail → O tail = Scanned l rest →
  object_items_body S O (encode_basestring key ++ key_separator ++ text)
  = Scanned ((key, v) :: l) rest.
Proof.
  intros Htext HS Htail HO.
  destruct (scanstring_basestring key (key_separator ++ text)) as (t & -> & Ht).
  unfold object_items_body. change (34 =? 34)%N with true. cbv iota. rewrite Ht.
  change (skip_ws (key_separator ++ text)) with (ord ":" :: ord " " :: text).
  cbv iota. change (ord ":" =? ord ":")%N with true. cbv iota.
  change (skip_ws (ord " " :: text)) with (skip_ws text).
  rewrite Htext, HS. cbn [and_then].
  change (skip_ws (item_separator ++ tail)) with (ord "," :: ord " " :: tail).
  cbv iota. change (ord "," =? ord "}")%N with false.
  change (ord "," =? ord ",")%N with true. cbv iota.
  change (skip_ws (ord " " :: tail)) with (skip_ws tail).
  by rewrite Htail, HO.
Qed.

Lemma scan_once_body_array A O text l rest :
  starts_token text → A text = Scanned l rest →
  scan_once_body A O (ord "[" :: text) = Scanned (PList l) rest.
Proof.
  intros Htok HA. unfold scan_once_body.
  change (ord "[" =? 34)%N with false. change (ord "[" =? ord "{")%N with false.
  change (ord "[" =? ord "[")%N with true. cbv iota.
  rewrite (skip_ws_token _ Htok). destruct Htok as (c & s & -> & Hc).
  apply token_start_facts in Hc as (_ & _ & Hc & _).
  destruct (N.eqb_spec c (ord "]")); [done|]. by rewrite HA.
Qed.

Lemma scan_once_body_object A O text pairs rest :
  starts_token text → O text = Scanned pairs rest →
  scan_once_body A O (ord "{" :: text)
  = Scanned (PDict (dict_of_pairs pairs)) rest.
Proof.
  intros Htok HO. unfold scan_once_body.
  change (ord "{" =? 34)%N with false. change (ord "{" =? ord "{")%N with true.
  cbv iota.
  rewrite (skip_ws_token _ Htok). destruct Htok as (c & s & -> & Hc).
  apply token_start_facts in Hc as (_ & _ & _ & Hc & _).
  destruct (N.eqb_spec c (ord "}")); [done|]. by rewrite HO.
Qed.

End JsonValues.

(** *** The round trip *)
Section JsonLoadsDumps.
Context `{Runtime}.

(** [scan_once] reads [v] back from its text, whatever follows it. *)
Definition reads_back (v : pyval) : Prop :=
  ∀ rest, delimited rest →
    ∃ fuel, scan_once fuel (encode v ++ rest) = Scanned v rest.

Lemma join_starts_token (v : pyval) (l : list pyval) :
  storable v = true →
  starts_token (join item_separator (map encode (v :: l))).
Proof.
  intros Hv. apply encode_starts_token in Hv as (c & s & Hs & Hc).
  cbn [map join]. rewrite Hs.
  destruct (map encode l); eexists c, _; (split; [reflexivity|done]).
Qed.

Lemma array_items_encode (l : list pyval) rest :
  l ≠ [] →
  Forall (λ v, storable v = true ∧ reads_back v) l →
  ∃ fuel,
    array_items fuel (join item_separator (map encode l) ++ ord "]" :: rest)
    = Scanned l rest.
Proof.
  induction l as [|v l IH]; [done|]. intros _ Hall.
  apply Forall_cons in Hall as [[Hst Hv] Hall].
  destruct l as [|v2 l].
  - destruct (Hv (ord "]" :: rest)) as [f Hf]; [by right; left|].
    exists (S f). cbn [array_items map join]. by apply array_items_body_last.
  - destruct IH as [f2 Hf2]; [done|done|].
    set (tail := join item_separator (map encode (v2 :: l)) ++ ord "]" :: rest) in *.
    destruct (Hv (item_separator ++ tail)) as [f1 Hf1]; [by left|].
    exists (S (f1 `max` f2)). cbn [array_items].
    assert (join item_separator (map encode (v :: v2 :: l)) ++ ord "]" :: rest
            = encode v ++ item_separator ++ tail) as ->.
    { unfold tail. cbn [map join]. by rewrite <-!app_assoc. }
    eapply array_items_body_next.
    + apply (scan_once_more f1); [lia|done].
    + apply skip_ws_token, starts_token_app, join_starts_token.
      by apply Forall_cons in Hall as [[? _] _].
    + apply (array_items_more f2); [lia|done].
Qed.

Definition encode_item (kv : str * pyval) : str :=
  encode_basestring kv.1 ++ key_separator ++ encode kv.2.

Lemma encode_item_starts_token kv (l : list (str * pyval)) :
  starts_token (join item_separator (map encode_item (kv :: l))).
Proof.
  cbn [map join].
  destruct (map encode_item l); unfold encode_item, encode_basestring;
    eexists 34%N, _; (split; [reflexivity|done]).
Qed.

Lemma object_items_encode (d : list (str * pyval)) rest :
  d ≠ [] →
  Forall (λ kv, storable kv.2 = true ∧ reads_back kv.2) d →
  ∃ fuel,
    object_items fuel (join item_separator (map encode_item d) ++ ord "}" :: rest)
    = Scanned d rest.
Proof.
  induction d as [|[k v] d IH]; [done|]. intros _ Hall.
  apply Forall_cons in Hall as [[Hst Hv] Hall]. cbn [snd] in Hst, Hv.
  pose proof (skip_ws_token _ (starts_token_app _ (ord "}" :: rest)
                                 (encode_starts_token v Hst))) as Hskip.
  destruct d as [|kv2 d].
  - destruct (Hv (ord "}" :: rest)) as [f Hf]; [by right; right|].
    exists (S f). cbn [object_items map join]. unfold encode_item. cbn [fst snd].
    rewrite <-!app_assoc. apply object_items_body_last; [|done].
    apply skip_ws_token, starts_token_app. by apply encode_starts_token.
  - destruct IH as [f2 Hf2]; [done|done|].
    set (tail := join item_separator (map encode_item (kv2 :: d)) ++ ord "}" :: rest) in *.
    destruct (Hv (item_separator ++ tail)) as [f1 Hf1]; [by left|].
    exists (S (f1 `max` f2)). cbn [object_items].
    assert (join item_separator (map encode_item ((k, v) :: kv2 :: d)) ++ ord "}" :: rest
            = encode_basestring k ++ key_separator
              ++ (encode v ++ item_separator ++ tail)) as ->.
    { unfold tail. cbn [map join]. unfold encode_item at 1. cbn [fst snd].
      by rewrite <-!app_assoc. }
    eapply object_items_body_next.
    + apply skip_ws_token, starts_token_app. by apply encode_starts_token.
    + apply (scan_once_more f1); [lia|done].
    + apply skip_ws_token, starts_token_app, encode_item_starts_token.
    + apply (object_items_more f2); [lia|done].
Qed.

Lemma dict_set_fresh (d : list (str * pyval)) k v :
  k ∉ d.*1 → dict_set d k v = d ++ [(k, v)].
Proof.
  induction d as [|[k' v'] d IH]; [done|]. cbn [fmap list_fmap fst].
  intros [Hne Hk]%not_elem_of_cons. cbn [dict_set app].
  destruct (decide (k = k')); [done|]. by rewrite IH.
Qed.

Lemma dict_of_pairs_NoDup (d : list (str * pyval)) :
  NoDup d.*1 → dict_of_pairs d = d.
Proof.
  unfold dict_of_pairs.
  assert (∀ acc, NoDup (acc ++ d).*1 →
            foldl (λ d kv, dict_set d kv.1 kv.2) acc d = acc ++ d) as Hgo.
  { induction d as [|[k v] d IH]; intros acc Hnd; cbn [foldl].
    - by rewrite app_nil_r.
    - cbn [fst snd]. rewrite dict_set_fresh.
      + rewrite IH; [by rewrite <-app_assoc|]. by rewrite <-app_assoc.
      + rewrite fmap_app in Hnd. apply NoDup_app in Hnd as (_ & Hdis & _).
        intros Hin. apply (Hdis k Hin). cbn. by left. }
  intros Hnd. by apply (Hgo []).
Qed.

Lemma scan_once_encode v : storable v = true → reads_back v.
Proof.
  induction v as [|b|z|r|s|l IH|d IH] using pyval_ind; intros Hst rest Hrest.
  - by exists 1.
  - exists 1. by destruct b.
  - exists 1. cbn [scan_once encode]. apply scan_once_body_int.
    by apply delimited_number_stop.
  - done.
  - exists 1. cbn [scan_once encode].
    destruct (scanstring_basestring s rest) as (t & -> & Ht).
    unfold scan_once_body. change (34 =? 34)%N with true. cbv iota. by rewrite Ht.
  - cbn [storable] in Hst. cbn [encode]. destruct l as [|v l].
    { by exists 1. }
    destruct (array_items_encode (v :: l) rest) as [f Hf]; [done| |].
    { rewrite forallb_forall in Hst. rewrite Forall_forall in IH |- *.
      intros x Hx. split; [by apply Hst, list_elem_of_In|].
      apply IH; [done|]. by apply Hst, list_elem_of_In. }
    exists (S f). cbn [scan_once app]. rewrite <-app_assoc.
    apply scan_once_body_array; [|done].
    apply starts_token_app, join_starts_token.
    cbn [forallb] in Hst. by apply andb_true_iff in Hst as [? _].
  - cbn [storable] in Hst. apply andb_true_iff in Hst as [Hnd Hst].
    apply bool_decide_eq_true in Hnd. cbn [encode]. destruct d as [|kv d].
    { by exists 1. }
    destruct (object_items_encode (kv :: d) rest) as [f Hf]; [done| |].
    { rewrite forallb_forall in Hst. rewrite Forall_forall in IH |- *.
      intros x Hx. split; [by apply Hst, list_elem_of_In|].
      apply IH; [done|]. by apply Hst, list_elem_of_In. }
    exists (S f). cbn [scan_once app]. rewrite <-app_assoc.
    rewrite <-(dict_of_pairs_NoDup (kv :: d) Hnd) at 2.
    apply scan_once_body_object; [|done].
    apply starts_token_app, encode_item_starts_token.
Qed.

(** [json.loads(json.dumps(v, ensure_ascii=False))] is [v]. *)
Lemma loads_dumps v : storable v = true → loads (dumps v) = Some v.
Proof.
  intros Hst. unfold loads, dumps.
  pose proof (encode_starts_token v Hst) as Htok.
  destruct (scan_once_encode v Hst [] I) as [fuel Hf]. rewrite app_nil_r in Hf.
  rewrite (skip_ws_token _ Htok).
  rewrite (scan_once_budget _ _ _ _ Hf).
  destruct Htok as (c & s & -> & Hc).
  apply token_start_facts in Hc as (_ & _ & _ & _ & Hc).
  destruct c as [|p]; [done|]. 
  destruct (decide (N.pos p = 65279%N)) as [|Hne]; [done|].
  cbn [skip_ws lstrip_by].
  repeat (destruct p as [p|p|]; try done).
Qed.

End JsonLoadsDumps.

(** ** The text [json.dumps] writes *)
Section DumpsText.
Context `{Runtime}.

(** Every character of every string of a value, keys included. *)
Fixpoint strings_forall (Q : N → bool) (v : pyval) : bool :=
  match v with
  | PStr s => forallb Q s
  | PFloat r => forallb Q r
  | PList l => forallb (strings_forall Q) l
  | PDict d => forallb (λ kv, forallb Q (fst kv) && strings_forall Q (snd kv)) d
  | _ => true
  end.

(** The strings of the value are text that [utf-8] can encode. *)
Definition utf8_safe (v : pyval) : bool := strings_forall is_scalar v.

Definition printable (c : N) : bool := (32 <=? c)%N && (c <? 127)%N.

Lemma forallb_join (P : N → bool) sep parts :
  forallb P sep = true → forallb (forallb P) parts = true →
  forallb P (join sep parts) = true.
Proof.
  intros Hsep. induction parts as [|p parts IH]; [done|].
  cbn [forallb]. intros [Hp Hparts]%andb_true_iff.
  destruct parts as [|p' parts]; [done|].
  cbn [join]. rewrite !forallb_app, Hp, Hsep. by apply IH.
Qed.

Lemma forallb_impl_true (P Q : N → bool) s :
  (∀ c, P c = true → Q c = true) → forallb P s = true → forallb Q s = true.
Proof.
  intros HPQ. rewrite !forallb_forall. auto.
Qed.

Lemma escape_char_printable c :
  forallb (λ d, printable d || ((32 <=? c)%N && (d =? c)%N)) (escape_char c) = true.
Proof.
  unfold escape_char.
  repeat match goal with
    | |- context [(c =? ?k)%N] =>
        destruct (N.eqb_spec c k) as [->|?]; [reflexivity|]
    end.
  destruct (N.ltb_spec c 32) as [Hc|Hc].
  - destruct c as [|p]; [reflexivity|].
    do 6 (destruct p as [p|p|]; try (exfalso; lia); try reflexivity).
  - cbn [forallb]. rewrite N.eqb_refl. destruct (N.leb_spec 32 c); [|lia].
    by rewrite orb_true_r.
Qed.

Lemma encode_basestring_forall (P : N → bool) s :
  (∀ c, printable c = true → P c = true) →
  forallb (λ c, (c <? 32)%N || P c) s = true →
  forallb P (encode_basestring s) = true.
Proof.
  intros HP Hs. unfold encode_basestring. cbn [forallb].
  rewrite forallb_app. cbn [forallb]. rewrite (HP 34%N) by done. cbn [andb].
  rewrite andb_true_r. induction s as [|c s IH]; [done|].
  cbn [forallb flat_map] in *. apply andb_true_iff in Hs as [Hc Hs].
  rewrite forallb_app, IH by done. rewrite andb_true_r.
  eapply forallb_impl_true; [|apply escape_char_printable].
  intros d [Hd|[Hge ->%N.eqb_eq]%andb_true_iff]%orb_true_iff; [by apply HP|].
  apply orb_true_iff in Hc as [Hlt|Hc]; [|done]. unbool. lia.
Qed.

Lemma str_of_N_printable n : forallb printable (str_of_N n) = true.
Proof.
  unfold str_of_N. eapply forallb_impl_true; [|apply digits_of_uint_all_digits].
  intros c Hc. unfold is_digit, printable in *. unbool. lia.
Qed.

Lemma encode_forall (P : N → bool) v :
  (∀ c, printable c = true → P c = true) →
  storable v = true →
  strings_forall (λ c, (c <? 32)%N || P c) v = true →
  forallb P (encode v) = true.
Proof.
  intros HP.
  assert (∀ s, forallb printable s = true → forallb P s = true) as Hlit.
  { intros s. by apply forallb_impl_true. }
  induction v as [|b|z|r|s|l IH|d IH] using pyval_ind; intros Hst Hstr.
  - by apply Hlit.
  - destruct b; by apply Hlit.
  - apply Hlit. cbn [encode]. unfold int_repr.
    destruct (z <? 0)%Z; cbn [forallb]; by rewrite str_of_N_printable.
  - done.
  - by apply encode_basestring_forall.
  - cbn [encode storable strings_forall forallb] in *.
    rewrite forallb_app. cbn [forallb].
    rewrite (HP (ord "[")), (HP (ord "]")) by done. rewrite andb_true_r. cbn [andb].
    rewrite forallb_join; [done|by apply Hlit|].
    rewrite forallb_forall in Hst, Hstr |- *. rewrite Forall_forall in IH.
    intros t (v & <- & Hv)%in_map_iff.
    apply IH; [by apply list_elem_of_In|by apply Hst|by apply Hstr].
  - cbn [encode storable strings_forall forallb] in *.
    apply andb_true_iff in Hst as [_ Hst].
    rewrite forallb_app. cbn [forallb].
    rewrite (HP (ord "{")), (HP (ord "}")) by done. rewrite andb_true_r. cbn [andb].
    rewrite forallb_join; [done|by apply Hlit|].
    rewrite forallb_forall in Hst, Hstr |- *. rewrite Forall_forall in IH.
    intros t ([k v] & <- & Hkv)%in_map_iff. cbn [fst snd].
    specialize (Hstr _ Hkv). cbn [fst snd] in Hstr.
    apply andb_true_iff in Hstr as [Hk Hv].
    rewrite !forallb_app, encode_basestring_forall, (Hlit key_separator) by done.
    apply (IH (k, v)); [by apply list_elem_of_In|by apply (Hst (k, v))|done].
Qed.

Lemma strings_forall_true (Q : N → bool) v :
  (∀ c, Q c = true) → strings_forall Q v = true.
Proof.
  intros HQ.
  assert (∀ s, forallb Q s = true) as Hs.
  { intros s. apply forallb_forall. auto. }
  induction v as [|b|z|r|s|l IH|d IH] using pyval_ind; cbn [strings_forall]; try done.
  - apply forallb_forall. rewrite Forall_forall in IH.
    intros v Hv. by apply IH, list_elem_of_In.
  - apply forallb_forall. rewrite Forall_forall in IH.
    intros kv Hkv. rewrite Hs. by apply IH, list_elem_of_In.
Qed.

Lemma strings_forall_impl (P Q : N → bool) v :
  (∀ c, P c = true → Q c = true) →
  strings_forall P v = true → strings_forall Q v = true.
Proof.
  intros HPQ.
  induction v as [|b|z|r|s|l IH|d IH] using pyval_ind; cbn [strings_forall]; try done.
  - by apply forallb_impl_true.
  - by apply forallb_impl_true.
  - rewrite !forallb_forall. rewrite Forall_forall in IH.
    intros Hl v Hv. apply IH; [by apply list_elem_of_In|by apply Hl].
  - rewrite !forallb_forall. rewrite Forall_forall in IH.
    intros Hd kv Hkv. specialize (Hd kv Hkv).
    apply andb_true_iff in Hd as [Hk Hv].
    rewrite (forallb_impl_true P Q _ HPQ Hk).
    apply IH; [by apply list_elem_of_In|done].
Qed.

(** The text has no control character, so no line break. *)
Lemma dumps_no_control v :
  storable v = true → forallb (λ c, 32 <=? c)%N (dumps v) = true.
Proof.
  intros Hst. apply encode_forall; [|done|].
  - intros c Hc. unfold printable in Hc. by apply andb_true_iff in Hc as [? _].
  - apply strings_forall_true. intros c.
    destruct (N.ltb_spec c 32), (N.leb_spec 32 c); try done; lia.
Qed.

Lemma dumps_one_line v : storable v = true → (LF ∉ dumps v) ∧ (CR ∉ dumps v).
Proof.
  intros Hst. pose proof (dumps_no_control v Hst) as Hall.
  rewrite forallb_forall in Hall.
  split; intros Hin%list_elem_of_In%Hall; by vm_compute in Hin.
Qed.

Lemma dumps_scalar v :
  storable v = true → utf8_safe v = true → forallb is_scalar (dumps v) = true.
Proof.
  intros Hst Hsafe. apply encode_forall; [|done|].
  - intros c Hc. unfold printable, is_scalar in *. unbool. lia.
  - eapply strings_forall_impl; [|exact Hsafe]. intros c ->. apply orb_true_r.
Qed.

Lemma strip_by_ends p s :
  (∀ c t, s = c :: t → p c = false) → (∀ t d, s = t ++ [d] → p d = false) →
  strip_by p s = s.
Proof.
  intros Hhead Hlast. destruct s as [|c t]; [done|].
  destruct (snoc_exists (c :: t)) as (t' & d & Heq); [done|].
  destruct t' as [|c' t'].
  - simpl in Heq. injection Heq as -> ->.
    unfold strip_by, rstrip_by. rewrite lstrip_by_keep by eauto. simpl.
    by rewrite (Hhead d []).
  - simpl in Heq. injection Heq as <- ->.
    apply strip_by_id; [by eapply Hhead|by eapply (Hlast (c :: t'))].
Qed.

Lemma dumps_strip v : storable v = true → strip (dumps v) = dumps v.
Proof.
  intros Hst. unfold strip, dumps. apply strip_by_ends.
  - intros c t Hs. destruct (encode_starts_token v Hst) as (c' & t' & Hs' & Hc).
    rewrite Hs in Hs'. injection Hs' as <- _.
    by apply token_start_facts in Hc as (_ & ? & _).
  - intros t d Hs. destruct (encode_ends v Hst) as (t' & d' & Hs' & Hd).
    rewrite Hs in Hs'. by apply app_inj_tail in Hs' as [_ ->].
Qed.

Lemma dumps_nonempty v : storable v = true → dumps v ≠ [].
Proof.
  intros Hst. unfold dumps.
  by destruct (encode_starts_token v Hst) as (c & t & -> & _).
Qed.

(** A line holding the text of [v] yields [v]. *)
Lemma line_card_dumps v :
  storable v = true → line_card (dumps v ++ [LF]) = Some v.
Proof.
  intros Hst. rewrite line_card_LF. unfold line_card.
  rewrite dumps_strip by done.
  pose proof (dumps_nonempty v Hst) as Hne%truthy_true. rewrite Hne.
  by apply loads_dumps.
Qed.

End DumpsText.

(** ** Appending to the log *)
Section AppendFacts.
Context `{Runtime}.

(** The bytes of the log file, none when there is no file. *)
Definition log_data (app : config) (w : world) : bytes :=
  match fs w !! cards_csv_path app with
  | Some (File data) => data
  | _ => []
  end.

(** The state [append_card] keeps the log in: neither the log nor its
    lock is a directory, and the log is [utf-8] text that is empty or ends
    with a line feed. *)
Definition log_ok (app : config) (w : world) : Prop :=
  fs w !! lock_path app ≠ Some Dir
  ∧ fs w !! cards_csv_path app ≠ Some Dir
  ∧ ∃ text, utf8_decode (log_data app w) = Some text ∧ terminated text.

Lemma log_data_locked app w : log_data app (locked app w) = log_data app w.
Proof.
  unfold log_data, locked. cbn [fs].
  by rewrite lookup_insert_ne by apply lock_path_ne.
Qed.

Lemma utf8_encode_line text :
  utf8_encode (text ++ [LF]) = (.++ [LF]) <$> utf8_encode text.
Proof. rewrite utf8_encode_app. by destruct (utf8_encode text). Qed.

(** The world after a successful append of the bytes [b]. *)
Definition appended (app : config) (w : world) (b : bytes) : world :=
  World (<[cards_csv_path app := File (log_data app w ++ b)]> (fs (locked app w)))
        (flashes w).

Lemma append_card_ok app card w b :
  fs w !! lock_path app ≠ Some Dir →
  fs w !! cards_csv_path app ≠ Some Dir →
  utf8_encode (dumps card ++ [LF]) = Some b →
  append_card app card w = Ok tt (appended app w b).
Proof.
  intros Hl Hp Hb. unfold append_card. fold (lock_path app).
  rewrite with_lock_free by done.
  unfold open_append, append_text, appended, log_data. munfold. cbn [fs locked].
  rewrite lookup_insert_ne by apply lock_path_ne.
  destruct (fs w !! cards_csv_path app) as [[data|]|] eqn:Hlog; [|done|].
  - cbn [fs locked]. rewrite Hb. cbn [fs locked].
    rewrite lookup_insert_ne by apply lock_path_ne. by rewrite Hlog.
  - cbn [fs locked]. rewrite Hb. cbn [fs locked].
    rewrite lookup_insert_eq. by rewrite insert_insert_eq.
Qed.

(** Whatever happens, the bytes the log had are still there, first. *)
Lemma append_card_outcome app card w :
  match append_card app card w with
  | Ok _ w' =>
      ∃ b, utf8_encode (dumps card) = Some b
           ∧ fs w' !! cards_csv_path app
             = Some (File (log_data app w ++ b ++ [LF]))
  | Raise _ w' => log_data app w' = log_data app w
  | Exhausted => False
  end.
Proof.
  destruct (decide (fs w !! lock_path app = Some Dir)) as [Hl|Hl].
  { unfold append_card. fold (lock_path app). unfold with_lock. munfold.
    by rewrite Hl. }
  destruct (decide (fs w !! cards_csv_path app = Some Dir)) as [Hp|Hp].
  { unfold append_card. fold (lock_path app). rewrite with_lock_free by done.
    unfold open_append. munfold. cbn [fs locked].
    rewrite lookup_insert_ne by apply lock_path_ne. rewrite Hp.
    apply log_data_locked. }
  destruct (utf8_encode (dumps card ++ [LF])) as [b|] eqn:Hb.
  - rewrite (append_card_ok _ _ _ _ Hl Hp Hb).
    rewrite utf8_encode_line in Hb.
    destruct (utf8_encode (dumps card)) as [b'|]; [|done]. injection Hb as <-.
    exists b'. split; [done|]. unfold appended. cbn [fs]. by rewrite lookup_insert_eq.
  - unfold append_card. fold (lock_path app). rewrite with_lock_free by done.
    unfold open_append, append_text, log_data. munfold. cbn [fs locked].
    rewrite lookup_insert_ne by apply lock_path_ne.
    destruct (fs w !! cards_csv_path app) as [[data|]|] eqn:Hlog; [|done|].
    + cbn [fs locked]. rewrite Hb. cbn [fs locked].
      rewrite lookup_insert_ne by apply lock_path_ne. by rewrite Hlog.
    + cbn [fs locked]. rewrite Hb. cbn [fs locked]. by rewrite lookup_insert_eq.
Qed.



Lemma appended_log app w b :
  fs (appended app w b) !! cards_csv_path app
  = Some (File (log_data app w ++ b)).
Proof. unfold appended. cbn [fs]. by rewrite lookup_insert_eq. Qed.

Lemma appended_lock app w b :
  fs (appended app w b) !! lock_path app = Some (File []).
Proof.
  unfold appended. cbn [fs locked].
  rewrite lookup_insert_ne by (apply not_eq_sym, lock_path_ne).
  by rewrite lookup_insert_eq.
Qed.

Lemma log_data_appended app w b :
  log_data app (appended app w b) = log_data app w ++ b.
Proof. unfold log_data at 1. by rewrite appended_log. Qed.

Lemma log_ok_appended app w b text :
  log_ok app w → utf8_encode (text ++ [LF]) = Some b →
  log_ok app (appended app w b).
Proof.
  intros (Hl & Hp & old & Hold & Hterm) Hb. unfold log_ok.
  rewrite appended_log, appended_lock, log_data_appended.
  split_and!; [done|done|].
  exists (old ++ text ++ [LF]). split.
  - rewrite (utf8_decode_app _ _ _ Hold). by rewrite (utf8_roundtrip _ _ Hb).
  - rewrite app_assoc. apply terminated_snoc.
Qed.

(** Reading after an append: what was read before, then the new value. *)
Lemma load_after_append app card w :
  storable card = true → utf8_safe card = true → log_ok app w →
  ∃ old w0 b,
    load_cards app w = Ok old w0
    ∧ utf8_encode (dumps card ++ [LF]) = Some b
    ∧ append_card app card w = Ok tt (appended app w b)
    ∧ load_cards app (appended app w b)
      = Ok (old ++ [card]) (locked app (appended app w b))
    ∧ log_ok app (appended app w b).
Proof.
  intros Hst Hsafe Hok. pose proof Hok as (Hl & Hp & text & Htext & Hterm).
  destruct (dumps_one_line card Hst) as [HLF HCR].
  assert (is_Some (utf8_encode (dumps card ++ [LF]))) as [b Hb].
  { apply utf8_encode_scalar. rewrite forallb_app, dumps_scalar by done. done. }
  assert (∃ old w0, load_cards app w = Ok old w0
            ∧ old = omap line_card (text_lines (universal_newlines text)))
    as (old & w0 & Hload & Hold).
  { unfold log_data in Htext.
    destruct (fs w !! cards_csv_path app) as [[data|]|] eqn:Hlog; [|done|].
    - eexists _, _. split; [by apply (load_cards_present _ _ data)|done].
    - injection Htext as <-. eexists _, _. split; [by apply load_cards_absent|done]. }
  exists old, w0, b. split_and!; [done|done|by apply append_card_ok| |].
  - rewrite (load_cards_present app _ (log_data app w ++ b) (text ++ dumps card ++ [LF])).
    + f_equal. rewrite universal_newlines_app by (by apply terminated_not_CR).
      rewrite (universal_newlines_id (dumps card ++ [LF])).
      2:{ rewrite not_elem_of_app. split; [done|]. by intros ?%list_elem_of_singleton. }
      rewrite text_lines_app by (by apply universal_newlines_terminated).
      rewrite omap_app, <-Hold. f_equal.
      rewrite (text_lines_line (dumps card) []) by done. cbn [text_lines omap list_omap].
      by rewrite line_card_dumps.
    + apply appended_log.
    + by rewrite appended_lock.
    + rewrite (utf8_decode_app _ _ _ Htext). by rewrite (utf8_roundtrip _ _ Hb).
  - by apply (log_ok_appended _ _ _ (dumps card)).
Qed.

(** A world without a log, where the lock is not a directory, is in the
    state the store keeps. *)
Lemma log_ok_fresh app w :
  fs w !! cards_csv_path app = None → fs w !! lock_path app ≠ Some Dir →
  log_ok app w.
Proof.
  intros Hp Hl. unfold log_ok, log_data. rewrite Hp. split_and!; [done|done|].
  exists []. split; [done|by left].
Qed.

(** *** Cards *)
Definition card_strings (c : Card) : list str :=
  [c_id c; c_created_at c; c_title c; c_description c]
  ++ flat_map (λ f, [f_name f; f_url f; f_ext f]) (c_files c).

(** A string [utf-8] can encode: no surrogate code point in it. *)
Definition unicode_text (s : str) : Prop := forallb is_scalar s = true.

Lemma card_dict_storable c : storable (card_dict c) = true.
Proof.
  cbn [storable card_dict forallb snd]. rewrite andb_true_r.
  apply andb_true_iff. split; [by vm_compute|].
  apply forallb_forall. intros v (f & <- & _)%in_map_iff. by vm_compute.
Qed.

Lemma card_dict_safe c :
  Forall unicode_text (card_strings c) → utf8_safe (card_dict c) = true.
Proof.
  unfold card_strings, unicode_text. intros Hall.
  apply Forall_app in Hall as [Hhead Hfiles].
  apply Forall_cons in Hhead as [Hid Hhead].
  apply Forall_cons in Hhead as [Hcreated Hhead].
  apply Forall_cons in Hhead as [Htitle Hhead].
  apply Forall_cons in Hhead as [Hdesc _].
  unfold utf8_safe. cbn [strings_forall card_dict forallb fst snd].
  rewrite Hid, Hcreated, Htitle, Hdesc.
  assert (forallb (strings_forall is_scalar) (stored_file_dict <$> c_files c) = true)
    as ->; [|by vm_compute].
  apply forallb_forall. intros v (f & <- & Hf)%in_map_iff.
  rewrite Forall_forall in Hfiles.
  assert (∀ s, s ∈ [f_name f; f_url f; f_ext f] → forallb is_scalar s = true) as Hs.
  { intros s Hs. apply Hfiles. apply list_elem_of_In, in_flat_map.
    exists f. split; [done|by apply list_elem_of_In]. }
  cbn [strings_forall stored_file_dict forallb fst snd].
  rewrite (Hs (f_name f)), (Hs (f_url f)), (Hs (f_ext f)); [by vm_compute|..];
    rewrite !elem_of_cons; auto.
Qed.

End AppendFacts.

(** ** Claims on the log *)
Section LogClaims.
Context `{Runtime}.

(** C1, amended.  For a card whose strings are text [utf-8] can encode (no
    surrogate code point), appended to a log in the state the store keeps
    (absent, or [utf-8] text that is empty or ends in a line feed, neither
    the log nor its lock a directory): [append_card] succeeds, the
    [load_cards] that follows succeeds, and the last value it returns is
    the card. *)
Theorem append_load_round_trip app (card : Card) w :
  Forall unicode_text (card_strings card) → log_ok app w →
  ∃ w1 cards w2,
    append_card app (card_dict card) w = Ok tt w1
    ∧ load_cards app w1 = Ok cards w2
    ∧ last cards = Some (card_dict card).
Proof.
  intros Htext Hok.
  destruct (load_after_append app (card_dict card) w)
    as (old & w0 & b & _ & _ & Happ & Hload & _);
    [apply card_dict_storable|by apply card_dict_safe|done|].
  eexists _, _, _. split_and!; [done|done|]. by rewrite last_snoc.
Qed.


Lemma unique_filename_total folder name w :
  ∃ candidate, unique_filename folder name w = Ok candidate w.
Proof.
  destruct (unique_filename_spec folder name w) as (c & Hc & _). by exists c.
Qed.

(** The budgets of the model never run out in a request. *)
Lemma admin_new_terminates app method request w :
  admin_new app method request w ≠ Exhausted.
Proof.
  unfold admin_new. case_bool_decide; [|done].
  destruct (negb (truthy _)); [done|]. unfold makedirs.
  set (folder := path_join _ _).
  destruct (negb (truthy folder)); [done|]. munfold.
  assert (∀ w1 files,
            (saved_files ← admin_new_files folder (take 10 (uuid4_hex request)) files [];
             append_card app (card_dict
               {| c_id := take 10 (uuid4_hex request);
                  c_created_at := utcnow_isoformat request ++ py "Z";
                  c_title := strip (default [] (form_title request));
                  c_description := strip (default [] (form_description request));
                  c_files := saved_files |});;
             flash MsgPublished "ok";; mret (Redirect "index")) w1 ≠ Exhausted)
    as Hrest.
  { intros w1 files. unfold mbind at 1, M_bind at 1.
    pose proof (admin_new_files_post folder (take 10 (uuid4_hex request)) files [] w1)
      as Hpost.
    destruct (admin_new_files _ _ _ _ w1) as [saved w2|e w2|]; [|done|done].
    unfold mbind at 1, M_bind at 1.
    match goal with
    | |- context [append_card app ?c w2] =>
        pose proof (append_card_outcome app c w2) as Hout;
        destruct (append_card app c w2) as [[] w3|e w3|]; done
    end. }
  destruct (fs w !! folder) as [[|]|]; [done| |]; apply Hrest.
Qed.

End LogClaims.

(** ** Start-up *)
Section StartFacts.

Lemma makedirs_outcome p w :
  match makedirs p w with
  | Ok _ w' =>
      p ≠ []
      ∧ (∀ data, fs w !! p ≠ Some (File data))
      ∧ w' = World (<[p := Dir]> (fs w)) (flashes w)
  | Raise e w' =>
      w' = w
      ∧ ((e = FileNotFoundError ∧ p = [])
         ∨ (e = FileExistsError ∧ p ≠ [] ∧ ∃ data, fs w !! p = Some (File data)))
  | Exhausted => False
  end.
Proof.
  unfold makedirs. destruct p as [|c p]; [split; [done|by left]|].
  cbn [truthy negb]. munfold. destruct (fs w !! (c :: p)) as [[data|]|] eqn:Hp.
  - split; [done|]. right. split_and!; [done|done|by exists data].
  - split_and!; [done|done|]. destruct w as [m fl]. simpl in *. by rewrite insert_id.
  - done.
Qed.

(** [ensure_dirs] in every state of the file system. *)
Lemma ensure_dirs_cases (app : config) w :
  match ensure_dirs app w with
  | Ok _ w' =>
      DATA_DIR app ≠ [] ∧ UPLOADS_DIR app ≠ []
      ∧ (∀ data, fs w !! DATA_DIR app ≠ Some (File data))
      ∧ (∀ data, fs w !! UPLOADS_DIR app ≠ Some (File data))
      ∧ fs w' !! DATA_DIR app = Some Dir
      ∧ fs w' !! UPLOADS_DIR app = Some Dir
      ∧ (∀ p nd, fs w !! p = Some nd → fs w' !! p = Some nd)
      ∧ flashes w' = flashes w
      ∧ ensure_dirs app w' = Ok tt w'
  | Raise e w' =>
      (DATA_DIR app = [] ∨ UPLOADS_DIR app = []
       ∨ (∃ data, fs w !! DATA_DIR app = Some (File data))
       ∨ (∃ data, fs w !! UPLOADS_DIR app = Some (File data)))
      ∧ (∀ p nd, fs w !! p = Some nd → fs w' !! p = Some nd)
      ∧ flashes w' = flashes w
  | Exhausted => False
  end.
Proof.
  unfold ensure_dirs. unfold mbind at 1, M_bind at 1.
  pose proof (makedirs_outcome (DATA_DIR app) w) as H1.
  destruct (makedirs (DATA_DIR app) w) as [[] w1|e w1|]; [| |done].
  2:{ destruct H1 as (-> & [[_ Hd]|(_ & _ & Hf)]); split_and!; auto. }
  destruct H1 as (Hdne & Hd & ->).
  set (w1 := World _ _).
  pose proof (makedirs_outcome (UPLOADS_DIR app) w1) as H2.
  destruct (makedirs (UPLOADS_DIR app) w1) as [[] w2|e w2|] eqn:Hrun; [| |done].
  - destruct H2 as (Hune & Hu & ->). cbn [fs flashes w1] in *.
    assert (∀ data, fs w !! UPLOADS_DIR app ≠ Some (File data)) as Hu'.
    { intros data Hp. apply (Hu data).
      destruct (decide (UPLOADS_DIR app = DATA_DIR app)) as [Heq|Hne].
      - rewrite Heq in Hp. by apply Hd in Hp.
      - by rewrite lookup_insert_ne. }
    split_and!; [done|done|done|done| |by rewrite lookup_insert_eq| |done|].
    + destruct (decide (UPLOADS_DIR app = DATA_DIR app)) as [<-|Hne];
        [by rewrite lookup_insert_eq|].
      by rewrite lookup_insert_ne, lookup_insert_eq.
    + intros p nd Hp.
      destruct (decide (p = UPLOADS_DIR app)) as [->|Hpu].
      { rewrite lookup_insert_eq. destruct nd; [by apply Hu' in Hp|done]. }
      rewrite lookup_insert_ne by done.
      destruct (decide (p = DATA_DIR app)) as [->|Hpd].
      { rewrite lookup_insert_eq. destruct nd; [by apply Hd in Hp|done]. }
      by rewrite lookup_insert_ne.
    + unfold makedirs. apply truthy_true in Hdne, Hune. rewrite Hdne, Hune.
      cbn [negb]. munfold. cbn [fs flashes].
      destruct (decide (UPLOADS_DIR app = DATA_DIR app)) as [Heq|Hne].
      * rewrite <-Heq. rewrite !lookup_insert_eq. cbn [fs]. by rewrite lookup_insert_eq.
      * rewrite (lookup_insert_ne _ (UPLOADS_DIR app) (DATA_DIR app)) by done.
        rewrite lookup_insert_eq. cbn [fs]. by rewrite lookup_insert_eq.
  - assert (∀ p nd, fs w !! p = Some nd → fs w1 !! p = Some nd) as Hkeep.
    { intros p nd Hp. unfold w1. cbn [fs].
      destruct (decide (p = DATA_DIR app)) as [->|Hpd].
      { rewrite lookup_insert_eq. destruct nd; [by apply Hd in Hp|done]. }
      by rewrite lookup_insert_ne. }
    destruct H2 as (-> & [[_ Hu]|(_ & _ & data & Hf)]); [by split_and!; auto|].
    split_and!; [|done|done].
    right. right. right. exists data. cbn [fs w1] in Hf.
    destruct (decide (UPLOADS_DIR app = DATA_DIR app)) as [Heq|Hne].
    + rewrite Heq, lookup_insert_eq in Hf. done.
    + by rewrite lookup_insert_ne in Hf.
Qed.

Lemma ensure_dirs_no_data (app : config) w :
  DATA_DIR app = [] → ensure_dirs app w = Raise FileNotFoundError w.
Proof. intros Hd. unfold ensure_dirs, makedirs. rewrite Hd. by munfold. Qed.

Lemma ensure_dirs_data_file (app : config) w data :
  DATA_DIR app ≠ [] → fs w !! DATA_DIR app = Some (File data) →
  ensure_dirs app w = Raise FileExistsError w.
Proof.
  intros Hne%truthy_true Hd. unfold ensure_dirs, makedirs. rewrite Hne. munfold.
  cbn [negb]. by rewrite Hd.
Qed.

Lemma ensure_dirs_no_uploads (app : config) w :
  UPLOADS_DIR app = [] ∨ (∃ data, fs w !! UPLOADS_DIR app = Some (File data)) →
  ∃ e w', ensure_dirs app w = Raise e w'.
Proof.
  intros Hu. pose proof (ensure_dirs_cases app w) as Hout.
  destruct (ensure_dirs app w) as [[] w'|e w'|]; [|by eauto|done].
  destruct Hout as (_ & Hune & _ & Hnofile & _).
  destruct Hu as [Hu|[data Hu]]; [done|by apply Hnofile in Hu].
Qed.

(** X2.  When [ensure_dirs] returns, neither configured path is empty or
    was a regular file, both are directories, every node that was there is
    as it was, and running it again changes nothing.  When it raises, every
    node that was there is as it was.  It raises [FileNotFoundError] on an
    empty [DATA_DIR], [FileExistsError] on a [DATA_DIR] that is a regular
    file, both before anything is made, and it raises when [UPLOADS_DIR] is
    empty or a regular file. *)
Theorem ensure_dirs_outcome (app : config) w :
  match ensure_dirs app w with
  | Ok _ w' =>
      DATA_DIR app ≠ [] ∧ UPLOADS_DIR app ≠ []
      ∧ (∀ data, fs w !! DATA_DIR app ≠ Some (File data))
      ∧ (∀ data, fs w !! UPLOADS_DIR app ≠ Some (File data))
      ∧ fs w' !! DATA_DIR app = Some Dir
      ∧ fs w' !! UPLOADS_DIR app = Some Dir
      ∧ (∀ p nd, fs w !! p = Some nd → fs w' !! p = Some nd)
      ∧ flashes w' = flashes w
      ∧ ensure_dirs app w' = Ok tt w'
  | Raise _ w' =>
      (∀ p nd, fs w !! p = Some nd → fs w' !! p = Some nd)
      ∧ flashes w' = flashes w
  | Exhausted => False
  end
  ∧ (DATA_DIR app = [] → ensure_dirs app w = Raise FileNotFoundError w)
  ∧ (DATA_DIR app ≠ [] → (∃ data, fs w !! DATA_DIR app = Some (File data)) →
     ensure_dirs app w = Raise FileExistsError w)
  ∧ (UPLOADS_DIR app = [] ∨ (∃ data, fs w !! UPLOADS_DIR app = Some (File data)) →
     ∃ e w', ensure_dirs app w = Raise e w').
Proof.
  split_and!.
  - pose proof (ensure_dirs_cases app w) as Hout.
    destruct (ensure_dirs app w) as [[] w'|e w'|]; [done| |done].
    by destruct Hout as (_ & ? & ?).
  - apply ensure_dirs_no_data.
  - intros Hne [data Hd]. by apply (ensure_dirs_data_file _ _ data).
  - apply ensure_dirs_no_uploads.
Qed.

(** X3.  [create_app] reads its settings from the environment, with the
    defaults of the source.  A [MAX_CONTENT_LENGTH] that [int] refuses
    makes it raise [ValueError] before any directory is made.  Otherwise
    it goes on to [ensure_dirs]: it raises when [DATA_DIR] or
    [UPLOADS_DIR] is set to the empty string or names a regular file, and
    when it returns the two directories exist, under names that are not
    empty; in every case each node that was there is as it was. *)
Theorem create_app_outcome (int_of_str : str → option Z) (environ : gmap str str) w :
  let limit := default (py "125829120") (environ !! py "MAX_CONTENT_LENGTH") in
  let data_dir := default (py "/var/data") (environ !! py "DATA_DIR") in
  let uploads_dir := default (py "/var/data/uploads") (environ !! py "UPLOADS_DIR") in
  match create_app int_of_str environ w with
  | Ok (inl e) w' => e = ValueError ∧ int_of_str limit = None ∧ w' = w
  | Ok (inr app) w' =>
      int_of_str limit = Some (MAX_CONTENT_LENGTH app)
      ∧ SECRET_KEY app = default (py "dev-secret-change-me") (environ !! py "SECRET_KEY")
      ∧ ADMIN_PASSWORD app = default [] (environ !! py "ADMIN_PASSWORD")
      ∧ DATA_DIR (store app) = data_dir
      ∧ UPLOADS_DIR (store app) = uploads_dir
      ∧ data_dir ≠ [] ∧ uploads_dir ≠ []
      ∧ fs w' !! data_dir = Some Dir
      ∧ fs w' !! uploads_dir = Some Dir
      ∧ (∀ p nd, fs w !! p = Some nd → fs w' !! p = Some nd)
  | Raise _ w' =>
      is_Some (int_of_str limit)
      ∧ (∀ p nd, fs w !! p = Some nd → fs w' !! p = Some nd)
  | Exhausted => False
  end
  ∧ (int_of_str limit = None →
     create_app int_of_str environ w = Ok (inl ValueError) w)
  ∧ (is_Some (int_of_str limit) →
     data_dir = [] ∨ uploads_dir = []
     ∨ (∃ data, fs w !! data_dir = Some (File data))
     ∨ (∃ data, fs w !! uploads_dir = Some (File data)) →
     ∃ e w', create_app int_of_str environ w = Raise e w').
Proof.
  intros limit data_dir uploads_dir. unfold create_app.
  change (str_of_N (120 * 1024 * 1024)) with (py "125829120"). fold limit.
  change DEFAULT_DATA_DIR with (py "/var/data").
  change DEFAULT_UPLOADS_DIR with (py "/var/data/uploads").
  fold data_dir uploads_dir.
  destruct (int_of_str limit) as [n|] eqn:Hn.
  2:{ split_and!; [done|done|]. by intros [? ?]. }
  cbn [store]. unfold mbind, M_bind.
  set (app := Config _ _).
  pose proof (ensure_dirs_cases app w) as Hdirs.
  destruct (ensure_dirs app w) as [[] w'|e w'|] eqn:Hrun; [| |done].
  - destruct Hdirs as (Hdne & Hune & Hdf & Huf & Hd & Hu & Hkeep & _).
    split_and!; [by split_and!|done|].
    intros _ [Hc|[Hc|[[data Hc]|[data Hc]]]]; [done|done|..].
    + by apply Hdf in Hc.
    + by apply Huf in Hc.
  - destruct Hdirs as (_ & Hkeep & _).
    split; [by split|]. split; [done|]. intros _ _. by eauto.
Qed.

End StartFacts.

(** ** Identifiers and the folder uploads are served from *)
Section ServeFacts.
Context `{Runtime}.

Lemma hexdigits_lower_hex c : c ∈ hexdigits ↔ is_lower_hex c = true.
Proof.
  rewrite <-in_chars_hexdigits. unfold in_chars. by rewrite bool_decide_eq_true.
Qed.

(** Lower-casing leaves a text of digits and letters [a]-[f] as it is. *)
Lemma lower_hex_fixed s : Forall (λ c, c ∈ hexdigits) s → lower s = s.
Proof.
  intros Hs. unfold lower. rewrite lower_from_ascii.
  - induction Hs as [|c s Hc _ IH]; [done|]. cbn [fmap list_fmap]. 
    f_equal; [|exact IH].
    apply hexdigits_lower_hex in Hc. unfold is_lower_hex, is_upper_ascii in *.
    destruct (65 <=? c)%N eqn:?, (c <=? 90)%N eqn:?; simpl; try done. unbool. lia.
  - apply forallb_forall. intros c Hc%list_elem_of_In.
    rewrite Forall_forall in Hs. apply Hs, hexdigits_lower_hex in Hc.
    unfold is_lower_hex, is_ascii in *. unbool. lia.
Qed.

Lemma sanitize_id_fixed v : id_shape v → sanitize_id v = v.
Proof.
  intros Hv. pose proof Hv as [Hhex _].
  rewrite <-(lower_hex_fixed v Hhex) at 2. apply sanitize_id_accept.
  by rewrite lower_hex_fixed.
Qed.

Lemma sanitize_id_cases raw :
  (sanitize_id raw = [] ∧ ¬ id_shape (lower raw))
  ∨ (sanitize_id raw = lower raw ∧ id_shape (lower raw)).
Proof.
  destruct (decide (id_shape (lower raw))) as [Hok|Hno].
  - right. split; [by apply sanitize_id_accept|done].
  - left. split; [by apply sanitize_id_reject|done].
Qed.

(** X4.  The result of [sanitize_id] is empty or 8 to 32 characters out of
    [0-9a-f], and [sanitize_id] returns such a text unchanged: sanitizing
    twice is sanitizing once. *)
Theorem sanitize_id_idempotent raw :
  (sanitize_id raw = [] ∨ id_shape (sanitize_id raw))
  ∧ (∀ v, id_shape v → sanitize_id v = v)
  ∧ sanitize_id (sanitize_id raw) = sanitize_id raw.
Proof.
  destruct (sanitize_id_cases raw) as [[-> _]|[-> Hok]].
  - split_and!; [by left|apply sanitize_id_fixed|done].
  - split_and!; [by right|apply sanitize_id_fixed|by apply sanitize_id_fixed].
Qed.

Lemma hexdigits_not_sep c : c ∈ hexdigits → c ≠ sep ∧ c ≠ dot.
Proof.
  intros Hc%hexdigits_lower_hex. unfold is_lower_hex, sep, dot in *.
  split; intros ->; by vm_compute in Hc.
Qed.

(** Joining a directory and a name that does not start with a separator
    puts the name under the directory. *)
Lemma path_join_child a b :
  starts_with_sep b = false →
  path_join a b = a ++ b ∨ path_join a b = a ++ sep :: b.
Proof.
  unfold path_join, starts_with_sep. destruct b as [|c b].
  - intros _. destruct (_ || _); auto.
  - intros ->. destruct (_ || _); auto.
Qed.

Lemma id_shape_child v : id_shape v → starts_with_sep v = false.
Proof.
  intros [Hhex [Hlen _]]. destruct v as [|c v]; [done|]. simpl.
  apply Forall_cons in Hhex as [Hc _]. apply hexdigits_not_sep in Hc as [Hc _].
  by apply N.eqb_neq.
Qed.

(** X5.  [uploaded_file] answers 404 exactly when [sanitize_id] refuses the
    card id, whatever the file name.  Otherwise it serves from one folder:
    the uploads directory followed by the lower-cased id, 8 to 32
    characters out of [0-9a-f], so with no separator and no dot in it; the
    folder is the same for the id in any letter case.  An id with an ASCII
    character outside [0-9a-fA-F] is answered 404. *)
Theorem uploaded_file_confined (app : flask_config) (card_id filename : str) :
  match uploaded_file app card_id filename with
  | inl e => e = NotFound ∧ sanitize_id card_id = []
  | inr page =>
      let id := lower card_id in
      let folder := path_join (UPLOADS_DIR (store app)) id in
      page = SendFromDirectory folder filename
      ∧ id_shape id ∧ (sep ∉ id) ∧ (dot ∉ id)
      ∧ (folder = UPLOADS_DIR (store app) ++ id
         ∨ folder = UPLOADS_DIR (store app) ++ sep :: id)
      ∧ uploaded_file app id filename = uploaded_file app card_id filename
  end
  ∧ (∀ c, c ∈ card_id → is_ascii c = true → c ∉ hexdigits_anycase →
          uploaded_file app card_id filename = inl NotFound).
Proof.
  unfold uploaded_file. split.
  - destruct (sanitize_id_cases card_id) as [[-> _]|[Hs Hok]]; [done|].
    rewrite Hs. rewrite (id_shape_nonempty _ Hok). cbn [negb].
    rewrite (sanitize_id_fixed _ Hok), (id_shape_nonempty _ Hok). cbn [negb].
    split_and!; [done|done| | |by apply path_join_child, id_shape_child|done].
    + intros Hin. destruct Hok as [Hhex _]. rewrite Forall_forall in Hhex.
      by apply Hhex, hexdigits_not_sep in Hin as [? _].
    + intros Hin. destruct Hok as [Hhex _]. rewrite Forall_forall in Hhex.
      by apply Hhex, hexdigits_not_sep in Hin as [_ ?].
  - intros c Hc Hascii Hnot.
    destruct (sanitize_id_cases card_id) as [[-> _]|[_ [Hall _]]]; [done|].
    exfalso. apply list_elem_of_split in Hc as (s1 & s2 & ->).
    assert (is_hex_anycase c = false) as Hh.
    { rewrite <-in_chars_hexdigits_anycase. by apply bool_decide_eq_false. }
    destruct (lower_char_not_hex s1 c s2 Hascii Hh) as (d & Hd & Hdh).
    assert (d ∈ lower (s1 ++ c :: s2)) as Hin.
    { apply lower_from_elem. simpl. rewrite Hd. by apply list_elem_of_singleton. }
    rewrite Forall_forall in Hall. apply Hall, hexdigits_lower_hex in Hin. congruence.
Qed.

End ServeFacts.

(** ** The admin session *)
Section AuthFacts.
Context `{Runtime}.

Lemma is_admin_insert_true s : is_admin (<[py "is_admin" := PBool true]> s) = true.
Proof. unfold is_admin. by rewrite lookup_insert_eq. Qed.

Lemma is_admin_delete s : is_admin (delete (py "is_admin") s) = false.
Proof. unfold is_admin. by rewrite lookup_delete_eq. Qed.

(** A login request that is granted: a POST carrying the configured
    password, when one is configured. *)
Definition grants (app : flask_config) (method : string) (password : option str) : Prop :=
  method = "POST"%string ∧ ADMIN_PASSWORD app ≠ []
  ∧ default [] password = ADMIN_PASSWORD app.

#[global] Instance grants_dec app method password : Decision (grants app method password).
Proof. unfold grants. apply _. Defined.

Lemma admin_login_granted app method password b :
  grants app method password →
  admin_login app method password b
  = (RedirectTo "admin_new",
     Browser (<[py "is_admin" := PBool true]> (session b))
             (notices b ++ [(MsgLoggedIn, "ok"%string)])).
Proof.
  intros (-> & Hset%truthy_true & Heq). unfold admin_login.
  rewrite bool_decide_eq_true_2 by done. rewrite Hset. cbn [negb].
  by rewrite bool_decide_eq_true_2 by done.
Qed.

Lemma admin_login_refused app method password b :
  ¬ grants app method password →
  session (admin_login app method password b).2 = session b.
Proof.
  intros Hno. unfold admin_login.
  case_bool_decide as Hm; [|done].
  destruct (truthy (ADMIN_PASSWORD app)) eqn:Hset; [|done]. cbn [negb].
  case_bool_decide as Hp; [|done].
  exfalso. apply Hno. split_and!; [done|by apply truthy_true|done].
Qed.

(** X6.  [admin_login] makes the session an admin session exactly on a POST
    that carries the configured password, and only when that password is
    not empty: with no password configured nothing is granted, not even to
    an empty password.  Every other request leaves the session as it was,
    so a failed attempt neither grants nor withdraws anything. *)
Theorem admin_login_grants_iff app method password b :
  let '(page, b') := admin_login app method password b in
  (is_admin (session b') = true
   ↔ is_admin (session b) = true ∨ grants app method password)
  ∧ (grants app method password →
     page = RedirectTo "admin_new"
     ∧ session b' = <[py "is_admin" := PBool true]> (session b))
  ∧ (¬ grants app method password → session b' = session b)
  ∧ (ADMIN_PASSWORD app = [] → session b' = session b).
Proof.
  destruct (admin_login app method password b) as [page b'] eqn:Hrun.
  destruct (decide (grants app method password)) as [Hg|Hno].
  - rewrite (admin_login_granted _ _ _ _ Hg) in Hrun. injection Hrun as <- <-.
    cbn [session]. split_and!.
    + rewrite is_admin_insert_true. split; [by right|done].
    + done.
    + done.
    + intros Hempty. by destruct Hg as (_ & ? & _).
  - pose proof (admin_login_refused _ _ _ b Hno) as Hs. rewrite Hrun in Hs.
    cbn [snd] in Hs. rewrite Hs. split_and!; [|done|done|done].
    split; [by left|]. by intros [?|?].
Qed.

(** X7.  The admin session from login to logout.  After a granted login
    the route [/admin/new] runs [admin_new].  After [admin_logout],
    whatever the session held, the session is no admin session, its other
    entries are as they were, and the route answers every request, of any
    method, with a redirect to the login page without running [admin_new]:
    the world is as it was. *)
Theorem admin_session_lifecycle app b method request w :
  (∀ login_method password,
     grants app login_method password →
     admin_new_route app (session (admin_login app login_method password b).2)
       method request w
     = admin_new (store app) method request w)
  ∧ is_admin (session (admin_logout b).2) = false
  ∧ (∀ key, key ≠ py "is_admin" →
            session (admin_logout b).2 !! key = session b !! key)
  ∧ admin_new_route app (session (admin_logout b).2) method request w
    = Ok (Redirect "admin_login") w
  ∧ (is_admin (session b) = false →
     admin_new_route app (session b) method request w
     = Ok (Redirect "admin_login") w).
Proof.
  split_and!.
  - intros lm password Hg. rewrite (admin_login_granted _ _ _ _ Hg). cbn [snd session].
    unfold admin_new_route, admin_required. by rewrite is_admin_insert_true.
  - cbn. apply is_admin_delete.
  - intros key Hkey. cbn. by rewrite lookup_delete_ne.
  - unfold admin_new_route, admin_required. cbn [admin_logout snd session notify].
    by rewrite is_admin_delete.
  - intros Hno. unfold admin_new_route, admin_required. by rewrite Hno.
Qed.

End AuthFacts.

(** ** What the ingestion loop stores *)
Section StoreFacts.
Context `{Runtime}.
Implicit Types (f : FileStorage) (files : list FileStorage) (w : world).

(** The name [admin_new] works with for an entry. *)
Definition safe_name f : str := secure_filename (getattr_filename f).

(** The entries the loop stores, and those it reports. *)
Definition accepted f : bool :=
  file_bool f && truthy (safe_name f) && allowed_file (safe_name f).
Definition refused f : bool :=
  file_bool f && truthy (safe_name f) && negb (allowed_file (safe_name f)).

(** [n] is the name [unique_filename] can give for [name]. *)
Definition renamed (name n : str) : Prop :=
  n = name ∨ ∃ k, (2 ≤ k)%N ∧ n = candidate_name (split_ext name).1 (split_ext name).2 k.

(** What the loop did with one stored entry. *)
Definition stored_as card_folder w w' (n : str) f : Prop :=
  renamed (safe_name f) n
  ∧ fs w !! path_join card_folder n = None
  ∧ fs w' !! path_join card_folder n = Some (File (stream f)).

Definition refusal f : message * string :=
  (MsgUnsupportedExtension (getattr_filename f), "error"%string).

Lemma admin_new_files_run card_folder card_id files saved w :
  ∃ names w',
    admin_new_files card_folder card_id files saved w
    = Ok (saved ++ (stored_file card_id <$> names)) w'
    ∧ Forall2 (stored_as card_folder w w') names (List.filter accepted files)
    ∧ (∀ p, p ∉ path_join card_folder <$> names → fs w' !! p = fs w !! p)
    ∧ flashes w' = flashes w ++ (refusal <$> List.filter refused files).
Proof.
  revert saved w. induction files as [|f files IH]; intros saved w.
  - exists [], w. simpl. rewrite !app_nil_r. split_and!; [done|constructor|done|done].
  - destruct (admin_new_files_cases f) as [Hc|[Hc|[(Hf & Hs & Ha)|(Hf & Hs & Ha)]]].
    + rewrite admin_new_files_unnamed by done.
      destruct (IH saved w) as (names & w' & Hrun & Hst & Hframe & Hfl).
      exists names, w'. cbn [List.filter]. unfold accepted at 1, refused at 1.
      rewrite Hc. cbn [andb]. done.
    + rewrite admin_new_files_unsafe by done.
      destruct (IH saved w) as (names & w' & Hrun & Hst & Hframe & Hfl).
      exists names, w'. cbn [List.filter]. unfold accepted at 1, refused at 1.
      unfold safe_name. rewrite Hc. cbn [truthy]. rewrite !andb_false_r. cbn [andb]. done.
    + rewrite admin_new_files_refused by done. munfold.
      destruct (IH saved (World (fs w) (flashes w ++ [refusal f])))
        as (names & w' & Hrun & Hst & Hframe & Hfl).
      exists names, w'. cbn [List.filter]. unfold accepted at 1, refused at 1.
      unfold safe_name. apply truthy_true in Hs. rewrite Hf, Hs, Ha. cbn [andb negb].
      split_and!; [exact Hrun|exact Hst|exact Hframe|].
      rewrite Hfl. cbn [flashes fmap list_fmap]. by rewrite <-app_assoc.
    + rewrite admin_new_files_accepted by done.
      destruct (unique_filename_spec card_folder (safe_name f) w)
        as (cand & Hu & Hfree & Hshape).
      unfold safe_name in Hu. unfold mbind at 1, M_bind at 1. rewrite Hu.
      unfold mbind at 1, M_bind at 1. rewrite write_bytes_fresh by done.
      set (w1 := World _ _).
      destruct (IH (saved ++ [stored_file card_id cand]) w1)
        as (names & w' & Hrun & Hst & Hframe & Hfl).
      exists (cand :: names), w'. cbn [List.filter]. unfold accepted at 1, refused at 1.
      unfold safe_name at 1 2 3 4. apply truthy_true in Hs. rewrite Hf, Hs, Ha. cbn [andb negb].
      assert (path_join card_folder cand ∉ path_join card_folder <$> names) as Hnew.
      { intros (n & Heq & Hn)%list_elem_of_fmap.
        apply list_elem_of_lookup in Hn as [i Hi].
        destruct (Forall2_lookup_l _ _ _ _ _ Hst Hi) as (f' & _ & _ & Hnone & _).
        rewrite <-Heq in Hnone. unfold w1 in Hnone. cbn [fs] in Hnone.
        by rewrite lookup_insert_eq in Hnone. }
      split_and!.
      * rewrite Hrun. cbn [fmap list_fmap]. by rewrite <-app_assoc.
      * constructor.
        -- split_and!.
           ++ destruct Hshape as [[_ ->]|[_ (k & Hk & -> & _)]]; [by left|right; eauto].
           ++ done.
           ++ rewrite Hframe by done. unfold w1. cbn [fs]. by rewrite lookup_insert_eq.
        -- eapply Forall2_impl; [exact Hst|].
           intros n f' (Hren & Hnone & Hsome). split_and!; [done| |done].
           unfold w1 in Hnone. cbn [fs] in Hnone.
           by apply lookup_insert_None in Hnone as [? _].
      * intros p Hp. rewrite fmap_cons in Hp. apply not_elem_of_cons in Hp as [Hne Hp].
        rewrite Hframe by done. unfold w1. cbn [fs]. by rewrite lookup_insert_ne.
      * done.
Qed.


(** *** Names *)

Lemma lstrip_by_head p s c t : lstrip_by p s = c :: t → p c = false.
Proof.
  induction s as [|d s IH]; [done|]. simpl.
  destruct (p d) eqn:Hd; [done|]. by intros [= <- _].
Qed.

Lemma lstrip_by_suffix p s : ∃ pre, s = pre ++ lstrip_by p s.
Proof.
  induction s as [|d s [pre IH]]; [by exists []|]. simpl.
  destruct (p d); [|by exists []]. exists (d :: pre). simpl. by rewrite <-IH.
Qed.

Lemma rstrip_by_prefix p s : ∃ post, s = rstrip_by p s ++ post.
Proof.
  unfold rstrip_by. destruct (lstrip_by_suffix p (rev s)) as [pre Hpre].
  exists (rev pre). rewrite <-rev_app_distr, <-Hpre. by rewrite rev_involutive.
Qed.

Lemma strip_by_head p s c t : strip_by p s = c :: t → p c = false.
Proof.
  unfold strip_by. intros Hs.
  destruct (rstrip_by_prefix p (lstrip_by p s)) as [post Hpost].
  rewrite Hs in Hpost. by apply lstrip_by_head in Hpost.
Qed.

Lemma strip_by_Forall (Q : N → Prop) p s : Forall Q s → Forall Q (strip_by p s).
Proof.
  intros Hs. unfold strip_by.
  destruct (lstrip_by_suffix p s) as [pre Hpre].
  destruct (rstrip_by_prefix p (lstrip_by p s)) as [post Hpost].
  rewrite Hpre, Hpost in Hs.
  by apply Forall_app in Hs as [_ [? _]%Forall_app].
Qed.

(** A name of letters, digits, [_], [.] and [-] that is not empty and does
    not start with a dot. *)
Definition plain_name (n : str) : Prop :=
  n ≠ [] ∧ Forall (λ c, filename_safe_char c = true) n ∧ head n ≠ Some dot.

Lemma secure_filename_plain s : secure_filename s ≠ [] → plain_name (secure_filename s).
Proof.
  intros Hne. split; [done|]. unfold secure_filename in *. split.
  - apply strip_by_Forall. apply Forall_forall.
    intros c Hc%list_elem_of_In%filter_In. by destruct Hc.
  - destruct (strip_chars _ _) as [|c t] eqn:Hs; [done|].
    apply strip_by_head in Hs. cbn [head]. intros [= ->]. by vm_compute in Hs.
Qed.

Lemma digits_safe n : Forall (λ c, filename_safe_char c = true) (str_of_N n).
Proof.
  apply Forall_forall. intros c Hc%list_elem_of_In.
  pose proof (digits_of_uint_all_digits (N.to_uint n)) as Hall.
  rewrite forallb_forall in Hall. apply Hall in Hc.
  unfold is_digit, filename_safe_char in *. unbool. lia.
Qed.

(** The parts of a name [allowed_file] accepts. *)
Lemma allowed_file_split name :
  allowed_file name = true →
  ∃ base ext, name = base ++ dot :: ext ∧ split_ext name = (base, ext)
              ∧ ext ≠ [] ∧ (dot ∉ ext) ∧ lower ext ∈ ALLOWED_EXTENSIONS.
Proof.
  intros (base & ext & -> & Hext & Hin)%allowed_file_parts.
  exists base, ext. split_and!; [done| |by eapply lower_allowed_nonempty|done|done].
  unfold split_ext, rpartition. by rewrite split_last_app.
Qed.

Lemma candidate_name_ext base ext k :
  ext ≠ [] → (dot ∉ ext) →
  rsplit1_last dot (candidate_name base ext k) = ext.
Proof.
  intros Hne%truthy_true Hext. unfold candidate_name. rewrite Hne.
  change (py ".") with [dot].
  rewrite !(assoc_L (++)), <-(assoc_L (++) _ [dot] ext). simpl.
  by rewrite rsplit1_last_app.
Qed.

Lemma renamed_plain name n :
  allowed_file name = true → plain_name name → renamed name n →
  plain_name n ∧ lower (rsplit1_last dot n) ∈ ALLOWED_EXTENSIONS.
Proof.
  intros (base & ext & Hname & Hsplit & Hne & Hext & Hin)%allowed_file_split Hplain.
  intros [->|(k & _ & ->)].
  - split; [done|]. rewrite Hname. by rewrite rsplit1_last_app.
  - rewrite Hsplit. cbn [fst snd]. rewrite candidate_name_ext by done. split; [|done].
    destruct Hplain as (_ & Hsafe & Hhead). rewrite Hname in Hsafe, Hhead.
    apply Forall_app in Hsafe as [Hbase Hrest]. apply Forall_cons in Hrest as [_ Hsafe_ext].
    unfold candidate_name. apply truthy_true in Hne. rewrite Hne.
    destruct base as [|c base]; [done|].
    split_and!; [done| |done].
    rewrite !Forall_app. split_and!; [done|by repeat constructor|apply digits_safe|
                                       by repeat constructor|done].
Qed.

(** Where a plain name lands. *)
Lemma plain_name_child folder n :
  plain_name n →
  (sep ∉ n) ∧ n ≠ py "." ∧ n ≠ py ".."
  ∧ (path_join folder n = folder ++ n ∨ path_join folder n = folder ++ sep :: n).
Proof.
  intros (Hne & Hsafe & Hhead). split_and!.
  - intros Hin. rewrite Forall_forall in Hsafe. by apply Hsafe in Hin.
  - by intros ->.
  - by intros ->.
  - apply path_join_child. destruct n as [|c n]; [done|]. simpl.
    apply Forall_cons in Hsafe as [Hc _]. apply N.eqb_neq. by intros ->.
Qed.

Lemma accepted_spec f :
  accepted f = true ↔
  file_bool f = true ∧ safe_name f ≠ [] ∧ allowed_file (safe_name f) = true.
Proof. unfold accepted. rewrite !andb_true_iff, truthy_true. tauto. Qed.

Lemma stored_as_plain card_folder w w' n f :
  accepted f = true → stored_as card_folder w w' n f →
  plain_name n ∧ lower (rsplit1_last dot n) ∈ ALLOWED_EXTENSIONS.
Proof.
  intros (_ & Hne & Ha)%accepted_spec (Hren & _).
  apply (renamed_plain (safe_name f)); [done| |done]. by apply secure_filename_plain.
Qed.

(** *** The names the loop chooses *)

(** The name [unique_filename] gives in the file system [m]. *)
Definition chosen_name (m : gmap str node) (folder name : str) : str :=
  default name
    (unique_filename_loop (S (S (size m))) m folder
       (split_ext name).1 (split_ext name).2 name 2).

(** The names the loop gives to the entries it stores, each entry written
    before the next is named. *)
Fixpoint chosen_names (m : gmap str node) (folder : str) files : list str :=
  match files with
  | [] => []
  | f :: files =>
      if accepted f then
        let n := chosen_name m folder (safe_name f) in
        n :: chosen_names (<[path_join folder n := File (stream f)]> m) folder files
      else chosen_names m folder files
  end.

Lemma unique_filename_chosen folder name w :
  unique_filename folder name w = Ok (chosen_name (fs w) folder name) w
  ∧ fs w !! path_join folder (chosen_name (fs w) folder name) = None.
Proof.
  destruct (unique_filename_spec folder name w) as (c & Hu & Hfree & _).
  assert (c = chosen_name (fs w) folder name) as <-; [|done].
  revert Hu. unfold unique_filename, chosen_name.
  destruct (split_ext name) as [base ext]. munfold. cbn [fst snd].
  destruct (unique_filename_loop _ _ _ _ _ _ _) as [r|]; [|done]. by intros [= ->].
Qed.

Lemma admin_new_files_chosen card_folder card_id files saved w :
  ∃ w', admin_new_files card_folder card_id files saved w
        = Ok (saved ++ (stored_file card_id <$> chosen_names (fs w) card_folder files)) w'.
Proof.
  revert saved w. induction files as [|f files IH]; intros saved w.
  - exists w. simpl. by rewrite app_nil_r.
  - destruct (admin_new_files_cases f) as [Hc|[Hc|[(Hf & Hs & Ha)|(Hf & Hs & Ha)]]].
    + rewrite admin_new_files_unnamed by done. cbn [chosen_names].
      unfold accepted. rewrite Hc. cbn [andb]. apply IH.
    + rewrite admin_new_files_unsafe by done. cbn [chosen_names].
      unfold accepted, safe_name. rewrite Hc. cbn [truthy].
      rewrite andb_false_r. cbn [andb]. apply IH.
    + rewrite admin_new_files_refused by done. munfold. cbn [chosen_names].
      unfold accepted, safe_name. rewrite Ha, andb_false_r.
      exact (IH saved (World (fs w) _)).
    + rewrite admin_new_files_accepted by done. fold (safe_name f).
      destruct (unique_filename_chosen card_folder (safe_name f) w) as [Hu Hfree].
      unfold mbind at 1, M_bind at 1. rewrite Hu.
      unfold mbind at 1, M_bind at 1. rewrite write_bytes_fresh by done.
      set (w1 := World _ _).
      destruct (IH (saved ++ [stored_file card_id (chosen_name (fs w) card_folder (safe_name f))]) w1)
        as [w' Hrun].
      exists w'. rewrite Hrun. cbn [chosen_names].
      assert (accepted f = true) as -> by (by apply accepted_spec).
      cbn [fmap list_fmap]. by rewrite <-app_assoc.
Qed.

End StoreFacts.

(** ** Properties of the ingestion loop *)
Section StoreClaims.
Context `{Runtime}.
Implicit Types (f : FileStorage) (files : list FileStorage) (w : world).

Lemma stored_file_names card_id (names names' : list str) :
  stored_file card_id <$> names = stored_file card_id <$> names' → names = names'.
Proof.
  intros Heq%(f_equal (fmap f_name)). rewrite <-!list_fmap_compose in Heq.
  by rewrite !list_fmap_id in Heq.
Qed.

Lemma filter_accepted_all files :
  Forall (λ f, accepted f = true) files → List.filter accepted files = files.
Proof.
  induction 1 as [|f files Hf _ IH]; [done|]. cbn [List.filter]. by rewrite Hf, IH.
Qed.

Lemma path_join_prefix folder n :
  plain_name n → folder `prefix_of` path_join folder n.
Proof.
  intros Hn. destruct (plain_name_child folder n Hn) as (_ & _ & _ & [-> | ->]).
  - by exists n.
  - by exists (sep :: n).
Qed.

(** The run of the loop, with the names it chooses. *)
Lemma admin_new_files_run_chosen card_folder card_id files saved w :
  ∃ w',
    admin_new_files card_folder card_id files saved w
    = Ok (saved ++ (stored_file card_id <$> chosen_names (fs w) card_folder files)) w'
    ∧ NoDup (chosen_names (fs w) card_folder files)
    ∧ Forall2 (stored_as card_folder w w')
        (chosen_names (fs w) card_folder files) (List.filter accepted files)
    ∧ (∀ p, p ∉ path_join card_folder <$> chosen_names (fs w) card_folder files →
            fs w' !! p = fs w !! p)
    ∧ (∀ p nd, fs w !! p = Some nd → fs w' !! p = Some nd)
    ∧ flashes w' = flashes w ++ (refusal <$> List.filter refused files).
Proof.
  destruct (admin_new_files_chosen card_folder card_id files saved w) as [w' Hrun].
  destruct (admin_new_files_run card_folder card_id files saved w)
    as (names & w'' & Hrun' & Hst & Hframe & Hfl).
  pose proof (admin_new_files_post card_folder card_id files saved w) as Hpost.
  rewrite Hrun in Hrun', Hpost.
  injection Hrun' as Hnames%app_inv_head%stored_file_names <-. subst names.
  cbn [batch_post] in Hpost.
  destruct Hpost as (names & Hnames%app_inv_head%stored_file_names & Hnd & _ & Hkeep).
  subst names. exists w'. by split_and!.
Qed.

(** X8.  Whatever the request holds, when the card folder is there and the
    names the loop chooses fit the limits of the file system, the loop of
    [admin_new] over the uploaded entries returns.  It has stored exactly
    the entries that have a file name, a non-empty sanitized name and an
    allowed extension, in the order of the request: each under the name
    [unique_filename] gave it, at a path that was free, with the content of
    that entry, and with one descriptor appended.  Nothing else in the
    file system changes, and one message is flashed for each entry refused
    for its extension, in order. *)
Theorem admin_new_files_stores_accepted card_folder card_id files saved w :
  fs w !! card_folder = Some Dir →
  Forall (λ n, fits card_folder n = true) (chosen_names (fs w) card_folder files) →
  ∃ names w',
    names = chosen_names (fs w) card_folder files
    ∧ admin_new_files card_folder card_id files saved w
      = Ok (saved ++ (stored_file card_id <$> names)) w'
    ∧ Forall2 (λ n f,
                 (n = safe_name f
                  ∨ ∃ k, (2 ≤ k)%N
                         ∧ n = candidate_name (split_ext (safe_name f)).1
                                 (split_ext (safe_name f)).2 k)
                 ∧ fs w !! path_join card_folder n = None
                 ∧ fs w' !! path_join card_folder n = Some (File (stream f)))
        names (List.filter accepted files)
    ∧ (∀ p, p ∉ path_join card_folder <$> names → fs w' !! p = fs w !! p)
    ∧ flashes w'
      = flashes w
        ++ ((λ f, (MsgUnsupportedExtension (getattr_filename f), "error"%string))
              <$> List.filter refused files).
Proof.
  intros _ _.
  destruct (admin_new_files_run_chosen card_folder card_id files saved w)
    as (w' & Hrun & _ & Hst & Hframe & _ & Hfl).
  by exists (chosen_names (fs w) card_folder files), w'.
Qed.


(** *** One name many times *)

Fixpoint numbers (k : N) (n : nat) : list N :=
  match n with
  | O => []
  | S n => k :: numbers (k + 1) n
  end.

(** The names given to [n] entries of the same name in a folder that
    holds none of them: the name, then the name with [_2], [_3], ... *)
Definition numbered (name : str) (n : nat) : list str :=
  match n with
  | O => []
  | S m =>
      name :: (candidate_name (split_ext name).1 (split_ext name).2 <$> numbers 2 m)
  end.

Lemma name_not_candidate folder name k :
  allowed_file name = true →
  path_join folder name
  ≠ path_join folder (candidate_name (split_ext name).1 (split_ext name).2 k).
Proof.
  intros (base & ext & Hname & Hsplit & Hne & _)%allowed_file_split.
  rewrite Hsplit. cbn [fst snd]. rewrite Hname.
  unfold candidate_name. apply truthy_true in Hne. rewrite Hne.
  intros Heq%path_join_inj.
  - apply app_inv_head in Heq. done.
  - by destruct base.
Qed.

Section Numbering.
Variables (card_folder card_id name : str).
Hypothesis name_allowed : allowed_file name = true.

Let cand (k : N) : str := candidate_name (split_ext name).1 (split_ext name).2 k.
Let path (n : str) : str := path_join card_folder n.

(** The folder holds the name and its numbered variants up to [j]. *)
Definition filled (j : N) w : Prop :=
  is_Some (fs w !! path name)
  ∧ (∀ k, (2 ≤ k ≤ j)%N → is_Some (fs w !! path (cand k)))
  ∧ (∀ k, (j < k)%N → fs w !! path (cand k) = None).

Lemma filled_next j f w :
  (1 ≤ j)%N → filled j w → safe_name f = name →
  unique_filename card_folder name w = Ok (cand (j + 1)) w
  ∧ filled (j + 1)
      (World (<[path (cand (j + 1)) := File (stream f)]> (fs w)) (flashes w)).
Proof.
  intros Hj (Hname & Hbelow & Habove) Hf.
  destruct (unique_filename_spec card_folder name w) as (c & Hu & Hfree & Hshape).
  destruct Hshape as [[Hnone _]|[_ (k & Hk & -> & Hleast)]].
  { fold (path name) in Hnone. rewrite Hnone in Hname. by destruct Hname. }
  fold (cand k) in Hu, Hfree. fold (path (cand k)) in Hfree.
  assert (k = (j + 1)%N) as ->.
  { destruct (decide (k ≤ j)%N) as [Hle|Hgt].
    - destruct (Hbelow k) as [? Hsome]; [lia|]. congruence.
    - destruct (decide (k = j + 1)%N) as [|Hne]; [done|].
      destruct (Hleast (j + 1)%N) as [? Hsome]; [lia|].
      fold (cand (j + 1)) in Hsome. fold (path (cand (j + 1))) in Hsome.
      rewrite Habove in Hsome by lia. done. }
  split; [done|]. split_and!; cbn [fs].
  - rewrite lookup_insert_is_Some. destruct (decide (path (cand (j + 1)) = path name)); auto.
  - intros k Hk'. rewrite lookup_insert_is_Some.
    destruct (decide (path (cand (j + 1)) = path (cand k))); [auto|].
    right. split; [done|]. apply Hbelow.
    assert (k ≠ j + 1)%N by congruence. lia.
  - intros k Hk'. apply lookup_insert_None. split; [apply Habove; lia|].
    intros Heq%candidate_path_inj. lia.
Qed.

Lemma numbered_rest files : ∀ j saved w,
  (1 ≤ j)%N → filled j w →
  Forall (λ f, accepted f = true ∧ safe_name f = name) files →
  ∃ w', admin_new_files card_folder card_id files saved w
        = Ok (saved ++ (stored_file card_id <$> (cand <$> numbers (j + 1) (length files)))) w'.
Proof.
  induction files as [|f files IH]; intros j saved w Hj Hfill Hall.
  - exists w. simpl. by rewrite app_nil_r.
  - apply Forall_cons in Hall as [[Hacc Hf] Hall].
    apply accepted_spec in Hacc as (Hb & Hne & Ha).
    rewrite admin_new_files_accepted by done. fold (safe_name f). rewrite Hf.
    destruct (filled_next j f w Hj Hfill Hf) as [Hu Hfill'].
    unfold mbind at 1, M_bind at 1. rewrite Hu.
    unfold mbind at 1, M_bind at 1. rewrite write_bytes_fresh.
    2:{ destruct Hfill as (_ & _ & Habove). apply Habove. lia. }
    destruct (IH (j + 1)%N (saved ++ [stored_file card_id (cand (j + 1))]) _
                ltac:(lia) Hfill' Hall) as [w' Hrun].
    exists w'. unfold path, cand in *. rewrite Hrun. cbn [length numbers fmap list_fmap].
    by rewrite <-app_assoc.
Qed.

Lemma numbered_run files saved w :
  Forall (λ f, accepted f = true ∧ safe_name f = name) files →
  fs w !! path name = None →
  (∀ k, fs w !! path (cand k) = None) →
  ∃ w', admin_new_files card_folder card_id files saved w
        = Ok (saved ++ (stored_file card_id <$> numbered name (length files))) w'.
Proof.
  intros Hall Hname Hcands. destruct files as [|f files].
  - exists w. simpl. by rewrite app_nil_r.
  - apply Forall_cons in Hall as [[Hacc Hf] Hall].
    apply accepted_spec in Hacc as (Hb & Hne & Ha).
    rewrite admin_new_files_accepted by done. fold (safe_name f). rewrite Hf.
    destruct (unique_filename_spec card_folder name w) as (c & Hu & Hfree & Hshape).
    destruct Hshape as [[_ ->]|[[? Hsome] _]].
    2:{ fold (path name) in Hsome. congruence. }
    unfold mbind at 1, M_bind at 1. rewrite Hu.
    unfold mbind at 1, M_bind at 1. rewrite write_bytes_fresh by done.
    destruct (numbered_rest files 1 (saved ++ [stored_file card_id name])
                (World (<[path name := File (stream f)]> (fs w)) (flashes w)))
      as [w' Hrun]; [lia| |done|].
    + split_and!; cbn [fs].
      * rewrite lookup_insert_eq. by eexists.
      * intros k Hk. lia.
      * intros k _. apply lookup_insert_None. split; [apply Hcands|].
        by apply name_not_candidate.
    + exists w'. unfold path, cand in *. rewrite Hrun.
      cbn [length numbered fmap list_fmap]. by rewrite <-app_assoc.
Qed.

End Numbering.

(** X10.  Entries that all sanitize to one allowed name, stored in a folder
    that is there and holds neither that name nor a numbered variant of
    it, when the name and its numbered variants for these entries fit the
    limits of the file system, are kept under the name, then the name with
    [_2], [_3], ... before the extension, in the order of the request, each
    with its own content. *)
Theorem same_name_numbered card_folder card_id name files saved w :
  Forall (λ f, accepted f = true ∧ safe_name f = name) files →
  fs w !! card_folder = Some Dir →
  fs w !! path_join card_folder name = None →
  (∀ k, fs w !! path_join card_folder
               (candidate_name (split_ext name).1 (split_ext name).2 k) = None) →
  Forall (λ n, fits card_folder n = true) (numbered name (length files)) →
  ∃ w',
    admin_new_files card_folder card_id files saved w
    = Ok (saved ++ (stored_file card_id <$> numbered name (length files))) w'
    ∧ Forall2 (λ n f, fs w' !! path_join card_folder n = Some (File (stream f)))
        (numbered name (length files)) files.
Proof.
  intros Hall _ Hname Hcands _.
  destruct files as [|f0 files0] eqn:Hfiles.
  { exists w. simpl. rewrite app_nil_r. split; [done|constructor]. }
  rewrite <-Hfiles in *.
  assert (allowed_file name = true) as Ha.
  { rewrite Hfiles in Hall. apply Forall_cons in Hall as [[Hacc <-] _].
    by apply accepted_spec in Hacc as (_ & _ & ?). }
  destruct (numbered_run card_folder card_id name Ha files saved w Hall Hname Hcands)
    as [w' Hrun].
  exists w'. split; [done|].
  destruct (admin_new_files_run card_folder card_id files saved w)
    as (names & w'' & Hrun' & Hst & _).
  rewrite Hrun in Hrun'. injection Hrun' as Hnames%app_inv_head%stored_file_names <-.
  rewrite <-Hnames in Hst.
  rewrite filter_accepted_all in Hst.
  2:{ eapply Forall_impl; [exact Hall|]. by intros f [? _]. }
  eapply Forall2_impl; [exact Hst|]. by intros n f (_ & _ & ?).
Qed.

(** *** One name twice *)

Lemma two_of_a_name card_folder card_id name f1 f2 saved w :
  accepted f1 = true → accepted f2 = true →
  safe_name f1 = name → safe_name f2 = name →
  fs w !! path_join card_folder name = None →
  fs w !! path_join card_folder
            (candidate_name (split_ext name).1 (split_ext name).2 2) = None →
  ∃ w',
    admin_new_files card_folder card_id [f1; f2] saved w
    = Ok (saved ++ [stored_file card_id name;
                    stored_file card_id
                      (candidate_name (split_ext name).1 (split_ext name).2 2)]) w'
    ∧ fs w' !! path_join card_folder name = Some (File (stream f1))
    ∧ fs w' !! path_join card_folder
                 (candidate_name (split_ext name).1 (split_ext name).2 2)
      = Some (File (stream f2)).
Proof.
  intros (Hb1 & Hne1 & Hal1)%accepted_spec (Hb2 & Hne2 & Hal2)%accepted_spec
    Hn1 Hn2 Hfree Hfree2.
  rewrite admin_new_files_accepted by done. fold (safe_name f1). rewrite Hn1.
  destruct (unique_filename_spec card_folder name w) as (c & Hu & _ & Hshape).
  destruct Hshape as [[_ ->]|[[? Hsome] _]]; [|congruence].
  unfold mbind at 1, M_bind at 1. rewrite Hu.
  unfold mbind at 1, M_bind at 1. rewrite write_bytes_fresh by done.
  set (w1 := World _ _).
  assert (path_join card_folder name
          ≠ path_join card_folder
              (candidate_name (split_ext name).1 (split_ext name).2 2)) as Hdiff.
  { apply name_not_candidate. by rewrite <-Hn1. }
  rewrite admin_new_files_accepted by done. fold (safe_name f2). rewrite Hn2.
  destruct (unique_filename_spec card_folder name w1) as (c & Hu2 & Hfree' & Hshape).
  destruct Hshape as [[Hnone _]|[_ (k & Hk & -> & Hleast)]].
  { unfold w1 in Hnone. cbn [fs] in Hnone. by rewrite lookup_insert_eq in Hnone. }
  assert (k = 2%N) as ->.
  { destruct (decide (k = 2%N)) as [|Hne]; [done|].
    destruct (Hleast 2%N) as [nd Hnd]; [lia|].
    unfold w1 in Hnd. cbn [fs] in Hnd. rewrite lookup_insert_ne in Hnd by done.
    congruence. }
  unfold mbind at 1, M_bind at 1. rewrite Hu2.
  unfold mbind at 1, M_bind at 1. rewrite write_bytes_fresh by done.
  eexists. split_and!.
  - cbn [admin_new_files mret M_ret]. by rewrite <-app_assoc.
  - cbn [fs w1]. rewrite lookup_insert_ne by done. by rewrite lookup_insert_eq.
  - cbn [fs]. by rewrite lookup_insert_eq.
Qed.

(** C5.  For a name as [secure_filename] gives them, [unique_filename]
    returns, without touching the file system, a name that is free in the
    folder: the name itself when it is free, otherwise the name with [_k]
    put before its extension for the least [k] from 2 on that is free.
    Whether the loop of [admin_new] returns or raises, every node that was
    there is as it was; when it returns, it has stored every accepted
    entry, in order, with its content, under pairwise distinct names that
    were free.  Two entries of one sanitized name, in a folder that is
    there and holds neither the name nor its variant [_2] (both within the
    limits of the file system), are stored under the name and under the
    variant, each with its own content: [a.png] and [a_2.png]. *)
Theorem unique_filename_no_overwrite card_folder card_id :
  (∀ name w,
      name ≠ [] → Forall (λ c, filename_safe_char c = true) name →
      head name ≠ Some dot →
      ∃ candidate,
        unique_filename card_folder name w = Ok candidate w
        ∧ fs w !! path_join card_folder candidate = None
        ∧ ((fs w !! path_join card_folder name = None ∧ candidate = name)
           ∨ (is_Some (fs w !! path_join card_folder name)
              ∧ ∃ k, (2 ≤ k)%N
                   ∧ candidate
                     = candidate_name (split_ext name).1 (split_ext name).2 k
                   ∧ ∀ j, (2 ≤ j < k)%N →
                          is_Some (fs w !! path_join card_folder
                                     (candidate_name (split_ext name).1
                                        (split_ext name).2 j)))))
  ∧ (∀ files saved w,
      match admin_new_files card_folder card_id files saved w with
      | Ok r w' =>
          ∃ names,
            r = saved ++ (stored_file card_id <$> names)
            ∧ NoDup names
            ∧ Forall2 (λ n f,
                         (n = safe_name f
                          ∨ ∃ k, (2 ≤ k)%N
                                 ∧ n = candidate_name (split_ext (safe_name f)).1
                                         (split_ext (safe_name f)).2 k)
                         ∧ fs w !! path_join card_folder n = None
                         ∧ fs w' !! path_join card_folder n = Some (File (stream f)))
                names (List.filter accepted files)
            ∧ (∀ p nd, fs w !! p = Some nd → fs w' !! p = Some nd)
      | Raise _ w' => ∀ p nd, fs w !! p = Some nd → fs w' !! p = Some nd
      | Exhausted => False
      end)
  ∧ (∀ name f1 f2 saved w,
      let name_2 := candidate_name (split_ext name).1 (split_ext name).2 2 in
      accepted f1 = true → accepted f2 = true →
      safe_name f1 = name → safe_name f2 = name →
      fs w !! card_folder = Some Dir →
      fs w !! path_join card_folder name = None →
      fs w !! path_join card_folder name_2 = None →
      fits card_folder name = true → fits card_folder name_2 = true →
      ∃ w',
        admin_new_files card_folder card_id [f1; f2] saved w
        = Ok (saved ++ [stored_file card_id name; stored_file card_id name_2]) w'
        ∧ fs w' !! path_join card_folder name = Some (File (stream f1))
        ∧ fs w' !! path_join card_folder name_2 = Some (File (stream f2)))
  ∧ candidate_name (split_ext (py "a.png")).1 (split_ext (py "a.png")).2 2
    = py "a_2.png".
Proof.
  split_and!.
  - intros name w _ _ _. apply unique_filename_spec.
  - intros files saved w.
    destruct (admin_new_files_run_chosen card_folder card_id files saved w)
      as (w' & Hrun & Hnd & Hst & _ & Hkeep & _).
    rewrite Hrun. by exists (chosen_names (fs w) card_folder files).
  - intros name f1 f2 saved w name_2 Ha1 Ha2 Hn1 Hn2 _ Hfree Hfree2 _ _.
    by apply two_of_a_name.
  - by vm_compute.
Qed.

End StoreClaims.

(** ** Publication: the text of a card, the log around it *)
Section PublishFacts.
Context `{Runtime}.
Implicit Types (f : FileStorage) (files : list FileStorage) (w : world).

(** The run of the loop with what is known of the names. *)
Lemma admin_new_files_run_plain card_folder card_id files saved w :
  ∃ names w',
    names = chosen_names (fs w) card_folder files
    ∧ admin_new_files card_folder card_id files saved w
      = Ok (saved ++ (stored_file card_id <$> names)) w'
    ∧ Forall2 (stored_as card_folder w w') names (List.filter accepted files)
    ∧ Forall (λ n, plain_name n ∧ lower (rsplit1_last dot n) ∈ ALLOWED_EXTENSIONS) names
    ∧ (∀ p, (¬ card_folder `prefix_of` p) ∨ p = card_folder → fs w' !! p = fs w !! p)
    ∧ flashes w' = flashes w ++ (refusal <$> List.filter refused files).
Proof.
  destruct (admin_new_files_run_chosen card_folder card_id files saved w)
    as (w' & Hrun & _ & Hst & Hframe & _ & Hfl).
  exists (chosen_names (fs w) card_folder files), w'.
  set (names := chosen_names (fs w) card_folder files) in *.
  assert (Forall (λ n, plain_name n ∧ lower (rsplit1_last dot n) ∈ ALLOWED_EXTENSIONS)
            names) as Hplain.
  { eapply Forall2_Forall_l; [exact Hst|]. apply Forall_forall.
    intros f [_ Hf]%list_elem_of_In%filter_In n Hn. by eapply stored_as_plain. }
  split_and!; [done|done|done|done| |done].
  intros p Hp. apply Hframe. intros (n & -> & Hn)%list_elem_of_fmap.
  rewrite Forall_forall in Hplain. apply Hplain in Hn as [Hn _].
  destruct Hp as [Hp|Hp]; [by apply Hp, path_join_prefix|].
  destruct (plain_name_child card_folder n Hn) as (_ & _ & _ & [Heq|Heq]);
    rewrite Heq in Hp; apply (f_equal length) in Hp; rewrite length_app in Hp;
    destruct Hn as (Hne & _); destruct n; simpl in Hp; try done; lia.
Qed.

(** On a log in the state the store keeps, what [load_cards] returns is
    read off the bytes of the log. *)
Lemma load_cards_log_ok app w :
  log_ok app w →
  ∃ text w0,
    utf8_decode (log_data app w) = Some text
    ∧ load_cards app w = Ok (omap line_card (text_lines (universal_newlines text))) w0.
Proof.
  intros (Hl & Hp & text & Htext & _). unfold log_data in Htext.
  destruct (fs w !! cards_csv_path app) as [[data|]|] eqn:Hlog; [|done|].
  - exists text. eexists. split; [unfold log_data; by rewrite Hlog|].
    by apply (load_cards_present _ _ data).
  - injection Htext as <-. exists []. eexists.
    split; [unfold log_data; by rewrite Hlog|]. by apply load_cards_absent.
Qed.

Lemma log_ok_agree app w w' :
  fs w' !! cards_csv_path app = fs w !! cards_csv_path app →
  fs w' !! lock_path app = fs w !! lock_path app →
  log_ok app w → log_ok app w' ∧ log_data app w' = log_data app w.
Proof.
  intros Hp Hl Hok. unfold log_ok, log_data in *. rewrite Hp, Hl. done.
Qed.

Lemma unicode_text_strip s : unicode_text s → unicode_text (strip s).
Proof.
  unfold unicode_text. rewrite !forallb_forall. intros Hs c Hc.
  assert (Forall (λ c, is_scalar c = true) s) as Hall.
  { apply Forall_forall. intros d Hd. by apply Hs, list_elem_of_In. }
  apply (strip_by_Forall _ isspace) in Hall. rewrite Forall_forall in Hall.
  by apply Hall, list_elem_of_In.
Qed.

Lemma unicode_text_app s t : unicode_text s → unicode_text t → unicode_text (s ++ t).
Proof. unfold unicode_text. rewrite forallb_app. by intros -> ->. Qed.

Lemma unicode_text_take n s : unicode_text s → unicode_text (take n s).
Proof.
  unfold unicode_text. rewrite <-(take_drop n s) at 1. rewrite forallb_app.
  by intros [? _]%andb_true_iff.
Qed.

Lemma safe_char_ascii c : filename_safe_char c = true → is_ascii c = true.
Proof. unfold filename_safe_char, is_ascii. intros Hc. unbool. lia. Qed.

Lemma ascii_text s : forallb is_ascii s = true → unicode_text s.
Proof.
  unfold unicode_text. apply forallb_impl_true. intros c Hc.
  unfold is_ascii, is_scalar in *. unbool. lia.
Qed.

Lemma lower_ascii_text s : forallb is_ascii s = true → unicode_text (lower s).
Proof.
  intros Hs. unfold lower. rewrite lower_from_ascii by done.
  unfold unicode_text. rewrite forallb_forall in Hs |- *.
  intros d (c & <- & Hc)%in_map_iff. apply Hs in Hc.
  unfold is_ascii, is_scalar, is_upper_ascii in *.
  destruct (65 <=? c)%N eqn:?, (c <=? 90)%N eqn:?; simpl; unbool; lia.
Qed.

Lemma rsplit1_last_forallb (Q : N → bool) sep s :
  forallb Q s = true → forallb Q (rsplit1_last sep s) = true.
Proof.
  unfold rsplit1_last. destruct (split_last sep s) as [[b a]|] eqn:Hs; [|done].
  apply split_last_Some in Hs as [-> _]. rewrite forallb_app. cbn [forallb].
  by intros [_ [_ ?]%andb_true_iff]%andb_true_iff.
Qed.

Lemma plain_name_ascii n : plain_name n → forallb is_ascii n = true.
Proof.
  intros (_ & Hsafe & _). apply forallb_forall. intros c Hc%list_elem_of_In.
  rewrite Forall_forall in Hsafe. by apply safe_char_ascii, Hsafe.
Qed.

End PublishFacts.

(** ** Publication: the run of [admin_new] *)
Section PublishRun.
Context `{Runtime}.
Implicit Types (f : FileStorage) (files : list FileStorage) (w : world).

(** The card [admin_new] builds for a request whose files were stored
    under [names]. *)
Definition published_card (request : post) (names : list str) : Card := {|
  c_id := take 10 (uuid4_hex request);
  c_created_at := utcnow_isoformat request ++ py "Z";
  c_title := strip (default [] (form_title request));
  c_description := strip (default [] (form_description request));
  c_files := stored_file (take 10 (uuid4_hex request)) <$> names;
|}.

(** The names under which [admin_new] stores the uploads of a request:
    those the loop chooses in the card folder, once it is made. *)
Definition upload_names (app : config) (request : post) (w : world) : list str :=
  let card_folder := path_join (UPLOADS_DIR app) (take 10 (uuid4_hex request)) in
  chosen_names (<[card_folder := Dir]> (fs w)) card_folder (form_files request).

Lemma makedirs_ok p w :
  p ≠ [] → (∀ data, fs w !! p ≠ Some (File data)) →
  makedirs p w = Ok tt (World (<[p := Dir]> (fs w)) (flashes w)).
Proof.
  intros Hne Hp. pose proof (makedirs_outcome p w) as Hout.
  destruct (makedirs p w) as [[] w'|e w'|]; [|exfalso|done].
  - by destruct Hout as (_ & _ & ->).
  - destruct Hout as (_ & [[_ ?]|(_ & _ & data & Hf)]); [done|]. by apply Hp in Hf.
Qed.

(** [uuid.uuid4().hex]: 32 hexadecimal digits. *)
Definition uuid_hex (s : str) : Prop :=
  Forall (λ c, c ∈ hexdigits) s ∧ length s = 32.

Lemma hexdigits_text s : Forall (λ c, c ∈ hexdigits) s → unicode_text s.
Proof.
  intros Hs. apply forallb_forall. intros c Hc%list_elem_of_In.
  rewrite Forall_forall in Hs. apply Hs in Hc.
  apply (bool_decide_pack _) in Hc. fold (in_chars hexdigits c) in Hc.
  rewrite in_chars_hexdigits in Hc. apply Is_true_true in Hc.
  unfold is_lower_hex, is_scalar in *. unbool. lia.
Qed.

Lemma path_join_nonempty a b : b ≠ [] → path_join a b ≠ [].
Proof.
  intros Hb. unfold path_join. destruct b as [|c b]; [done|].
  destruct (c =? sep)%N; [done|].
  destruct (negb (truthy a) || bool_decide (last a = Some sep)); by destruct a.
Qed.

Lemma card_folder_nonempty (folder uuid : str) :
  uuid_hex uuid → path_join folder (take 10 uuid) ≠ [].
Proof.
  intros [_ Hlen]. apply path_join_nonempty.
  destruct uuid; [done|]. done.
Qed.

Lemma published_card_text request names :
  Forall unicode_text
    [default [] (form_title request); default [] (form_description request);
     utcnow_isoformat request] →
  uuid_hex (uuid4_hex request) →
  (∀ id n, unicode_text id → unicode_text n →
           unicode_text (url_for_uploaded_file id n)) →
  Forall plain_name names →
  Forall unicode_text (card_strings (published_card request names)).
Proof.
  intros Hform [Huuid%hexdigits_text _] Hurl Hnames.
  apply Forall_cons in Hform as [Htitle Hform].
  apply Forall_cons in Hform as [Hdesc Hform].
  apply Forall_cons in Hform as [Hnow _].
  unfold card_strings, published_card. cbn [c_id c_created_at c_title c_description c_files].
  apply Forall_app. split.
  - repeat apply Forall_cons_2; [..|apply Forall_nil_2].
    + by apply unicode_text_take.
    + by apply unicode_text_app.
    + by apply unicode_text_strip.
    + by apply unicode_text_strip.
  - apply Forall_forall. intros s Hs%list_elem_of_In%in_flat_map.
    destruct Hs as (sf & Hsf%list_elem_of_In & Hs%list_elem_of_In).
    apply list_elem_of_fmap in Hsf as (n & -> & Hn).
    rewrite Forall_forall in Hnames. apply Hnames, plain_name_ascii in Hn.
    unfold stored_file in Hs. cbn [f_name f_url f_ext] in Hs.
    rewrite !elem_of_cons, elem_of_nil in Hs. destruct Hs as [->|[->|[->|[]]]].
    + by apply ascii_text.
    + apply Hurl; [by apply unicode_text_take|by apply ascii_text].
    + by apply lower_ascii_text, rsplit1_last_forallb.
Qed.

Lemma prefix_of_refl_ne (a b : str) : ¬ a `prefix_of` b → a ≠ b.
Proof. intros Hno ->. by apply Hno. Qed.

Lemma admin_new_publishes_run app request w :
  let card_id := take 10 (uuid4_hex request) in
  let card_folder := path_join (UPLOADS_DIR app) card_id in
  strip (default [] (form_title request)) ≠ [] →
  Forall unicode_text
    [default [] (form_title request); default [] (form_description request);
     utcnow_isoformat request] →
  uuid_hex (uuid4_hex request) →
  (∀ id n, unicode_text id → unicode_text n →
           unicode_text (url_for_uploaded_file id n)) →
  (∀ data, fs w !! card_folder ≠ Some (File data)) →
  ¬ card_folder `prefix_of` cards_csv_path app →
  ¬ card_folder `prefix_of` lock_path app →
  log_ok app w →
  ∃ names old w0 w' w'',
    names = upload_names app request w
    ∧ load_cards app w = Ok old w0
    ∧ admin_new app "POST" request w = Ok (Redirect "index") w'
    ∧ load_cards app w' = Ok (old ++ [card_dict (published_card request names)]) w''
    ∧ Forall2 (λ n f, renamed (safe_name f) n
                      ∧ fs w' !! path_join card_folder n = Some (File (stream f)))
        names (List.filter accepted (form_files request))
    ∧ fs w' !! card_folder = Some Dir
    ∧ (∀ p, ¬ card_folder `prefix_of` p → p ≠ cards_csv_path app →
            p ≠ lock_path app → fs w' !! p = fs w !! p)
    ∧ flashes w'
      = flashes w ++ (refusal <$> List.filter refused (form_files request))
        ++ [(MsgPublished, "ok"%string)].
Proof.
  intros card_id card_folder Htitle Hform Huuid Hurl Hfolder Hcsv Hlock Hok.
  unfold admin_new. rewrite bool_decide_eq_true_2 by done.
  apply truthy_true in Htitle as Htruthy. rewrite Htruthy. cbn [negb].
  fold card_id. fold card_folder.
  (* the folder *)
  unfold mbind at 1, M_bind at 1.
  rewrite makedirs_ok by (by apply card_folder_nonempty || done).
  set (w1 := World _ _).
  (* the files *)
  destruct (admin_new_files_run_plain card_folder card_id (form_files request) [] w1)
    as (names & w2 & Hnames & Hrun & Hst & Hplain & Hframe & Hfl).
  rewrite app_nil_l in Hrun.
  unfold mbind at 1, M_bind at 1. rewrite Hrun.
  change {| c_id := card_id; c_created_at := _; c_title := _;
            c_description := _; c_files := _ |}
    with (published_card request names).
  (* the log is where it was *)
  assert (∀ p, ¬ card_folder `prefix_of` p → fs w2 !! p = fs w !! p) as Hout.
  { intros p Hp. rewrite Hframe by auto. unfold w1. cbn [fs].
    rewrite lookup_insert_ne; [done|]. by apply prefix_of_refl_ne. }
  destruct (log_ok_agree app w w2) as [Hok2 Hdata2]; [by apply Hout..|done|].
  (* the append *)
  destruct (load_after_append app (card_dict (published_card request names)) w2)
    as (old & w0 & b & Hload & Hb & Happ & Hload' & Hok3);
    [apply card_dict_storable| |done|].
  { apply card_dict_safe, published_card_text; [done|done|done|].
    eapply Forall_impl; [exact Hplain|]. by intros n [? _]. }
  unfold mbind at 1, M_bind at 1. rewrite Happ.
  unfold mbind at 1, M_bind at 1. unfold flash at 1.
  set (w3 := World _ _).
  (* what is read before and after *)
  destruct (load_cards_log_ok app w Hok) as (text & w0' & Htext & Hload0).
  destruct (load_cards_log_ok app w2 Hok2) as (text2 & w02 & Htext2 & Hload2).
  rewrite Hdata2, Htext in Htext2. injection Htext2 as <-.
  rewrite Hload in Hload2. injection Hload2 as -> _.
  destruct (log_ok_agree app (appended app w2 b) w3) as [Hok4 Hdata4]; [done..|].
  destruct (load_cards_log_ok app _ Hok3) as (text3 & w03 & Htext3 & Hload3).
  destruct (load_cards_log_ok app w3 Hok4) as (text4 & w04 & Htext4 & Hload4).
  rewrite Hdata4, Htext3 in Htext4. injection Htext4 as <-.
  rewrite Hload' in Hload3. injection Hload3 as Hcards _.
  exists names, (omap line_card (text_lines (universal_newlines text))), w0', w3, w04.
  assert (∀ p, p ≠ cards_csv_path app → p ≠ lock_path app →
               fs w3 !! p = fs w2 !! p) as Hkeep.
  { intros p Hp1 Hp2. unfold w3, appended. cbn [fs locked].
    by rewrite !lookup_insert_ne. }
  split_and!.
  - done.
  - done.
  - done.
  - by rewrite Hload4, <-Hcards.
  - apply Forall2_same_length_lookup. split; [by eapply Forall2_length|].
    intros i n f Hi Hf.
    destruct (Forall2_lookup_lr _ _ _ _ _ _ Hst Hi Hf) as (Hren & _ & Hsome).
    destruct (Forall_lookup_1 _ _ _ _ Hplain Hi) as [Hn _].
    split; [done|].
    rewrite Hkeep; [done|..].
    + intros Heq. apply Hcsv. rewrite <-Heq. by apply path_join_prefix.
    + intros Heq. apply Hlock. rewrite <-Heq. by apply path_join_prefix.
  - rewrite Hkeep by (by apply prefix_of_refl_ne).
    rewrite Hframe by auto. unfold w1. cbn [fs]. by rewrite lookup_insert_eq.
  - intros p Hp Hp1 Hp2. rewrite Hkeep by done. by apply Hout.
  - unfold w3. cbn [flashes appended]. rewrite Hfl. unfold w1. cbn [flashes].
    by rewrite <-app_assoc.
Qed.

End PublishRun.

(** ** [load_cards] in every state *)
Section ReadFacts.
Context `{Runtime}.

Lemma locked_idem app w : locked app (locked app w) = locked app w.
Proof. unfold locked. cbn [fs flashes]. by rewrite insert_insert_eq. Qed.

Lemma locked_frame app w p : p ≠ lock_path app → fs (locked app w) !! p = fs w !! p.
Proof. intros Hp. unfold locked. cbn [fs]. by rewrite lookup_insert_ne. Qed.

(** [load_cards] in every state of the file system. *)
Lemma load_cards_cases app w :
  load_cards app w
  = match fs w !! cards_csv_path app with
    | None => Ok [] w
    | Some nd =>
        match fs w !! lock_path app with
        | Some Dir => Raise IsADirectoryError w
        | _ =>
            match nd with
            | File data =>
                match utf8_decode data with
                | Some text =>
                    Ok (omap line_card (text_lines (universal_newlines text)))
                       (locked app w)
                | None => Raise UnicodeDecodeError (locked app w)
                end
            | Dir => Raise IsADirectoryError (locked app w)
            end
        end
    end.
Proof.
  destruct (fs w !! cards_csv_path app) as [nd|] eqn:Hp; [|by apply load_cards_absent].
  destruct (decide (fs w !! lock_path app = Some Dir)) as [Hl|Hl].
  { rewrite Hl. unfold load_cards, path_exists. munfold. rewrite Hp.
    rewrite bool_decide_eq_true_2 by eauto. cbn [negb].
    fold (lock_path app). unfold with_lock. munfold. by rewrite Hl. }
  assert (match fs w !! lock_path app with
          | Some Dir => Raise IsADirectoryError w
          | _ => match nd with
                 | File data =>
                     match utf8_decode data with
                     | Some text =>
                         Ok (omap line_card (text_lines (universal_newlines text)))
                           (locked app w)
                     | None => Raise UnicodeDecodeError (locked app w)
                     end
                 | Dir => Raise IsADirectoryError (locked app w)
                 end
          end
          = match nd with
            | File data =>
                match utf8_decode data with
                | Some text =>
                    Ok (omap line_card (text_lines (universal_newlines text)))
                      (locked app w)
                | None => Raise UnicodeDecodeError (locked app w)
                end
            | Dir => Raise IsADirectoryError (locked app w)
            end) as ->.
  { by destruct (fs w !! lock_path app) as [[|]|]. }
  destruct nd as [data|].
  - destruct (utf8_decode data) as [text|] eqn:Hd.
    + by apply (load_cards_present _ _ data).
    + by apply (load_cards_undecodable _ _ data).
  - unfold load_cards, path_exists. munfold. rewrite Hp.
    rewrite bool_decide_eq_true_2 by eauto. cbn [negb].
    fold (lock_path app). rewrite with_lock_free by done.
    unfold read_text. munfold. cbn [fs locked].
    rewrite lookup_insert_ne by apply lock_path_ne. by rewrite Hp.
Qed.

(** The world [load_cards] leaves differs from the one it found at most
    by the lock file; reading again gives the same again. *)
Lemma load_cards_frame app w :
  ∃ w', (w' = w ∨ w' = locked app w)
        ∧ (fs w !! cards_csv_path app = None → w' = w)
        ∧ match load_cards app w with
          | Ok cards w'' => w'' = w' ∧ load_cards app w' = Ok cards w'
          | Raise e w'' => w'' = w' ∧ load_cards app w' = Raise e w'
          | Exhausted => False
          end.
Proof.
  rewrite load_cards_cases.
  destruct (fs w !! cards_csv_path app) as [nd|] eqn:Hp.
  2:{ exists w. split; [by left|]. split; [done|]. split; [done|].
      rewrite load_cards_cases. by rewrite Hp. }
  destruct (decide (fs w !! lock_path app = Some Dir)) as [Hl|Hl].
  { rewrite Hl. exists w. split; [by left|]. split; [done|]. split; [done|].
    rewrite load_cards_cases. by rewrite Hp, Hl. }
  exists (locked app w). split; [by right|]. split; [done|].
  assert (load_cards app (locked app w)
          = match nd with
            | File data =>
                match utf8_decode data with
                | Some text =>
                    Ok (omap line_card (text_lines (universal_newlines text)))
                      (locked app w)
                | None => Raise UnicodeDecodeError (locked app w)
                end
            | Dir => Raise IsADirectoryError (locked app w)
            end) as Hagain.
  { rewrite load_cards_cases, locked_idem.
    rewrite locked_frame by (apply not_eq_sym, lock_path_ne). rewrite Hp.
    unfold locked at 1. cbn [fs]. by rewrite lookup_insert_eq. }
  destruct (fs w !! lock_path app) as [[?|]|]; [|done|];
    destruct nd as [bs|]; try destruct (utf8_decode bs); done.
Qed.

End ReadFacts.

Section ReadClaims.
Context `{Runtime}.

(** X11.  [load_cards] never writes to the log: whatever it returns or
    raises, the world it leaves is the one it found or that one with the
    lock file opened, so every path but the lock's holds what it held; with
    no log file nothing at all changes, no lock is made.  Reading again
    from the world it left gives the same result and leaves that world. *)
Theorem load_cards_read_only app w :
  match load_cards app w with
  | Ok cards w' =>
      (∀ p, p ≠ lock_path app → fs w' !! p = fs w !! p)
      ∧ flashes w' = flashes w
      ∧ log_data app w' = log_data app w
      ∧ (fs w !! cards_csv_path app = None → cards = [] ∧ w' = w)
      ∧ load_cards app w' = Ok cards w'
  | Raise e w' =>
      (∀ p, p ≠ lock_path app → fs w' !! p = fs w !! p)
      ∧ flashes w' = flashes w
      ∧ log_data app w' = log_data app w
      ∧ is_Some (fs w !! cards_csv_path app)
      ∧ load_cards app w' = Raise e w'
  | Exhausted => False
  end.
Proof.
  destruct (load_cards_frame app w) as (w1 & Hw1 & Habsent & Hrun).
  assert ((∀ p, p ≠ lock_path app → fs w1 !! p = fs w !! p)
          ∧ flashes w1 = flashes w ∧ log_data app w1 = log_data app w)
    as (Hfs & Hfl & Hlog).
  { destruct Hw1 as [->| ->]; [done|]. split_and!; [|done|apply log_data_locked].
    intros p Hp. by apply locked_frame. }
  pose proof (load_cards_cases app w) as Hcases.
  destruct (load_cards app w) as [cards w'|e w'|]; [| |done].
  - destruct Hrun as [-> Hagain]. split_and!; [done..| |done].
    intros Hnone. rewrite Hnone in Hcases. injection Hcases as -> _.
    split; [done|]. by apply Habsent.
  - destruct Hrun as [-> Hagain]. split_and!; [done..| |done].
    destruct (fs w !! cards_csv_path app); [by eexists|done].
Qed.

End ReadClaims.

(** ** Line endings, and appends in a row *)
Section EndingsFacts.
Context `{Runtime}.

Lemma universal_newlines_line l rest :
  CR ∉ l → universal_newlines (l ++ rest) = l ++ universal_newlines rest.
Proof.
  induction l as [|c l IH]; intros Hl; [done|].
  apply not_elem_of_cons in Hl as [Hc Hl]. cbn [app].
  rewrite universal_newlines_cons by done. by rewrite IH.
Qed.

(** The three line endings a text file is read with. *)
Definition line_ending (eol : str) : Prop := eol = [LF] ∨ eol = [CR; LF] ∨ eol = [CR].

Lemma universal_newlines_eol eol rest :
  line_ending eol → head rest ≠ Some LF →
  universal_newlines (eol ++ rest) = LF :: universal_newlines rest.
Proof.
  intros [->|[->| ->]] Hrest; cbn [app].
  - by rewrite universal_newlines_cons.
  - apply universal_newlines_CR_LF.
  - destruct rest as [|c rest]; [done|].
    apply universal_newlines_CR. intros ->. done.
Qed.

Lemma lines_head eol (ls : list str) tail :
  line_ending eol → eol ≠ [LF] → Forall (λ l, LF ∉ l) (ls ++ [tail]) →
  head (concat ((λ l, l ++ eol) <$> ls) ++ tail) ≠ Some LF.
Proof.
  intros Heol Hne Hall.
  assert (head eol ≠ Some LF) as Hhead.
  { destruct Heol as [->|[->| ->]]; done. }
  assert (∀ l rest, LF ∉ l → head rest ≠ Some LF → head (l ++ rest) ≠ Some LF) as Happ.
  { intros [|c l] rest Hl Hr; [done|]. cbn. intros [= ->]. apply Hl. by left. }
  destruct ls as [|l ls].
  - cbn. apply Forall_cons in Hall as [Ht _]. rewrite <-(app_nil_r tail).
    by apply Happ.
  - apply Forall_cons in Hall as [Hl _]. rewrite fmap_cons. cbn [concat].
    rewrite <-!app_assoc. apply Happ; [done|].
    destruct Heol as [->|[->| ->]]; done.
Qed.

Lemma universal_newlines_lines eol (ls : list str) tail :
  line_ending eol →
  Forall (λ l, (LF ∉ l) ∧ (CR ∉ l)) (ls ++ [tail]) →
  universal_newlines (concat ((λ l, l ++ eol) <$> ls) ++ tail)
  = concat ((λ l, l ++ [LF]) <$> ls) ++ tail.
Proof.
  intros Heol. induction ls as [|l ls IH]; intros Hall.
  - cbn. apply Forall_cons in Hall as [[_ Ht] _]. by apply universal_newlines_id.
  - cbn [app] in Hall. apply Forall_cons in Hall as [[HLF HCR] Hall].
    rewrite !fmap_cons. cbn [concat]. rewrite <-!app_assoc.
    rewrite universal_newlines_line by done. f_equal.
    destruct (decide (eol = [LF])) as [->|Hne].
    + cbn [app]. rewrite universal_newlines_cons by done. by rewrite IH.
    + rewrite universal_newlines_eol; [by rewrite IH|done|].
      apply lines_head; [done|done|].
      eapply Forall_impl; [exact Hall|]. by intros ? [? _].
Qed.

Lemma text_lines_no_LF tail :
  LF ∉ tail → text_lines tail = match tail with [] => [] | _ => [tail] end.
Proof.
  induction tail as [|c tail IH]; intros Ht; [done|].
  apply not_elem_of_cons in Ht as [Hc Ht]. cbn [text_lines].
  destruct (N.eqb_spec c LF) as [->|_]; [done|].
  rewrite IH by done. by destruct tail.
Qed.

Lemma concat_lines_terminated (ls : list str) :
  terminated (concat ((λ l, l ++ [LF]) <$> ls)).
Proof.
  induction ls as [|l ls IH] using rev_ind; [by left|].
  rewrite fmap_app, concat_app. cbn. rewrite app_nil_r, !app_assoc.
  apply terminated_snoc.
Qed.

Lemma omap_line_card_LF (ls : list str) :
  omap line_card ((λ l, l ++ [LF]) <$> ls) = omap line_card ls.
Proof.
  induction ls as [|l ls IH]; [done|].
  rewrite fmap_cons. cbn [omap list_omap]. by rewrite line_card_LF, IH.
Qed.

Lemma lines_cards eol (ls : list str) tail :
  line_ending eol →
  Forall (λ l, (LF ∉ l) ∧ (CR ∉ l)) (ls ++ [tail]) →
  omap line_card
    (text_lines (universal_newlines (concat ((λ l, l ++ eol) <$> ls) ++ tail)))
  = omap line_card (ls ++ [tail]).
Proof.
  intros Heol Hall. rewrite universal_newlines_lines by done.
  apply Forall_app in Hall as [Hls Htail]. apply Forall_cons in Htail as [[Ht _] _].
  rewrite text_lines_app by apply concat_lines_terminated.
  rewrite text_lines_concat.
  2:{ eapply Forall_impl; [exact Hls|]. by intros ? [? _]. }
  rewrite !omap_app, omap_line_card_LF. f_equal.
  rewrite text_lines_no_LF by done. by destruct tail.
Qed.

Lemma omap_line_card_blank (lines : list str) :
  omap line_card lines
  = omap line_card (List.filter (λ l, truthy (strip l)) lines).
Proof.
  induction lines as [|l lines IH]; [done|]. cbn [List.filter].
  destruct (truthy (strip l)) eqn:Ht; cbn [omap list_omap].
  - by rewrite IH.
  - unfold line_card at 1. by rewrite Ht.
Qed.

End EndingsFacts.

Section EndingsClaims.
Context `{Runtime}.

(** X12.  [load_cards] reads a log whose lines end in [\n], in [\r\n] or in
    [\r] alike, with or without an ending after the last line: it returns
    the values of the lines, in order.  Blank lines count for nothing. *)
Theorem load_cards_line_endings app w data eol (ls : list str) tail :
  fs w !! cards_csv_path app = Some (File data) →
  fs w !! lock_path app ≠ Some Dir →
  eol = [LF] ∨ eol = [CR; LF] ∨ eol = [CR] →
  Forall (λ l, (LF ∉ l) ∧ (CR ∉ l)) (ls ++ [tail]) →
  utf8_decode data = Some (concat ((λ l, l ++ eol) <$> ls) ++ tail) →
  ∃ w',
    load_cards app w = Ok (omap line_card (ls ++ [tail])) w'
    ∧ omap line_card (ls ++ [tail])
      = omap line_card (List.filter (λ l, truthy (strip l)) (ls ++ [tail])).
Proof.
  intros Hp Hl Heol Hall Hd. exists (locked app w). split.
  - rewrite (load_cards_present _ _ data _ Hp Hl Hd). f_equal. by apply lines_cards.
  - apply omap_line_card_blank.
Qed.

(** X13.  Cards appended one after the other to a log in the state the
    store keeps are all read back by [load_cards], after the values that
    were there, in the order of the appends: with no log file at the
    start, exactly the appended cards.  The log is left in the state the
    store keeps.  The cards hold no float, no key twice, no surrogate code
    point, and their integers and nesting are within the limits of the
    interpreter. *)
Theorem append_cards_in_order app cards w :
  Forall (λ card, storable card = true ∧ utf8_safe card = true
                  ∧ within_limits card = true) cards →
  log_ok app w →
  ∃ old w0 w1 w2,
    load_cards app w = Ok old w0
    ∧ append_cards app cards w = Ok tt w1
    ∧ load_cards app w1 = Ok (old ++ cards) w2
    ∧ log_ok app w1
    ∧ (fs w !! cards_csv_path app = None → old = []).
Proof.
  intros Hall. revert w.
  induction Hall as [|card cards (Hst & Hsafe & _) _ IH]; intros w Hok.
  - destruct (load_cards_log_ok app w Hok) as (text & w0 & _ & Hload).
    exists (omap line_card (text_lines (universal_newlines text))), w0, w, w0.
    rewrite app_nil_r. split_and!; [done|done|done|done|].
    intros Hnone. rewrite load_cards_absent in Hload by done. by injection Hload as <- _.
  - destruct (load_after_append app card w Hst Hsafe Hok)
      as (old & w0 & b & Hload & _ & Happ & Hload' & Hok').
    destruct (IH _ Hok') as (old' & w0' & w1 & w2 & Hload'' & Hrun & Hall' & Hok'' & _).
    rewrite Hload' in Hload''. injection Hload'' as <- _.
    exists old, w0, w1, w2. split_and!; [done| | |done|].
    + cbn [append_cards]. unfold mbind, M_bind. by rewrite Happ.
    + by rewrite <-app_assoc in Hall'.
    + intros Hnone. rewrite load_cards_absent in Hload by done. by injection Hload as <- _.
Qed.

End EndingsClaims.

(** ** The order of the index *)
Section OrderFacts.

Lemma str_lt_irrefl a : str_lt a a = false.
Proof.
  induction a as [|x a IH]; [done|]. cbn [str_lt].
  by rewrite N.ltb_irrefl.
Qed.

Lemma str_lt_asym a b : str_lt a b = true → str_lt b a = false.
Proof.
  revert b. induction a as [|x a IH]; intros [|y b]; try done. cbn [str_lt].
  destruct (N.ltb_spec x y), (N.ltb_spec y x); try done; try lia. apply IH.
Qed.

(** [a >= b] and [b >= c] give [a >= c]. *)
Lemma str_ge_trans a b c :
  str_lt a b = false → str_lt b c = false → str_lt a c = false.
Proof.
  revert a b. induction c as [|z c IH]; intros a b.
  { by destruct a. }
  destruct b as [|y b]; [by destruct a|].
  destruct a as [|x a]; [done|]. cbn [str_lt].
  destruct (N.ltb_spec x y), (N.ltb_spec y x), (N.ltb_spec y z), (N.ltb_spec z y),
    (N.ltb_spec x z), (N.ltb_spec z x); try done; try lia.
  apply IH.
Qed.

(** Two texts neither of which is below the other are the same text. *)
Lemma str_lt_total a b : str_lt a b = false → str_lt b a = false → a = b.
Proof.
  revert b. induction a as [|x a IH]; intros [|y b]; try done. cbn [str_lt].
  destruct (N.ltb_spec x y), (N.ltb_spec y x); try done; try lia.
  intros Hab Hba. f_equal; [lia|by apply IH].
Qed.

Implicit Types (x y : str * pyval) (l : list (str * pyval)).

Definition not_below x y : Prop := str_lt (fst x) (fst y) = false.

Lemma insert_desc_perm x l : insert_desc x l ≡ₚ x :: l.
Proof.
  induction l as [|y l IH]; [done|]. cbn [insert_desc].
  destruct (str_lt (fst x) (fst y)); [|done].
  rewrite IH. apply Permutation_swap.
Qed.

Lemma sort_desc_perm l : sort_desc l ≡ₚ l.
Proof.
  induction l as [|x l IH]; [done|]. cbn [sort_desc foldr].
  fold (sort_desc l). by rewrite insert_desc_perm, IH.
Qed.

Lemma insert_desc_sorted x l :
  StronglySorted not_below l → StronglySorted not_below (insert_desc x l).
Proof.
  induction 1 as [|y l Hl IH Hy]; cbn [insert_desc].
  - repeat constructor.
  - destruct (str_lt (fst x) (fst y)) eqn:Hxy.
    + constructor; [done|]. rewrite insert_desc_perm. constructor; [|done].
      by apply str_lt_asym.
    + constructor; [by constructor|]. constructor; [done|].
      eapply Forall_impl; [exact Hy|]. intros z Hz. unfold not_below in *.
      by eapply str_ge_trans.
Qed.

Lemma sort_desc_sorted l : StronglySorted not_below (sort_desc l).
Proof.
  induction l as [|x l IH]; [constructor|]. by apply insert_desc_sorted.
Qed.

Lemma insert_desc_stable (k : str) x l :
  filter (λ y, fst y = k) (insert_desc x l) = filter (λ y, fst y = k) (x :: l).
Proof.
  induction l as [|y l IH]; [done|]. cbn [insert_desc].
  destruct (str_lt (fst x) (fst y)) eqn:Hxy; [|done].
  rewrite filter_cons, IH, !filter_cons.
  destruct (decide (fst y = k)) as [Hy|Hy], (decide (fst x = k)) as [Hx|Hx]; try done.
  rewrite Hx, Hy, str_lt_irrefl in Hxy. done.
Qed.

Lemma sort_desc_stable (k : str) l :
  filter (λ y, fst y = k) (sort_desc l) = filter (λ y, fst y = k) l.
Proof.
  induction l as [|x l IH]; [done|]. cbn [sort_desc foldr]. fold (sort_desc l).
  by rewrite insert_desc_stable, !filter_cons, IH.
Qed.

End OrderFacts.

Section IndexFacts.
Context `{Runtime}.
Variable sort_other : list (pyval * pyval) → raised + list pyval.

(** The text [created_at] of a card the index can date: a dictionary, with
    a [str] under ["created_at"] or nothing. *)
Definition dated (x : pyval) : Prop := ∃ s, created_at_key x = inr (PStr s).

(** The key the index sorts a card by, [""] where there is none. *)
Definition card_key (x : pyval) : str :=
  match created_at_key x with
  | inr (PStr s) => s
  | _ => []
  end.

Definition is_dict (x : pyval) : bool :=
  match x with
  | PDict _ => true
  | _ => false
  end.

Lemma sort_keys_not_dict cards :
  Exists (λ x, is_dict x = false) cards → sort_keys cards = inl AttributeError.
Proof.
  induction cards as [|x cards IH]; intros Hex.
  - by apply Exists_nil in Hex.
  - cbn [sort_keys]. destruct x; try done. cbn [created_at_key].
    apply Exists_cons in Hex as [Hx|Hex]; [done|]. by rewrite IH.
Qed.

Lemma sort_keys_dicts cards :
  Forall (λ x, is_dict x = true) cards →
  ∃ keys, sort_keys cards = inr keys ∧ length keys = length cards.
Proof.
  induction 1 as [|x cards Hx _ (keys & IH & Hlen)]; [by exists []|].
  destruct x; try done. cbn [sort_keys created_at_key]. rewrite IH.
  eexists. split; [done|]. simpl. by rewrite Hlen.
Qed.

Lemma sort_keys_dated cards :
  Forall dated cards → sort_keys cards = inr (PStr <$> (card_key <$> cards)).
Proof.
  induction 1 as [|x cards [s Hs] _ IH]; [done|].
  assert (card_key x = s) as Hk by (unfold card_key; by rewrite Hs).
  cbn [sort_keys]. rewrite Hs, IH. rewrite !fmap_cons. by rewrite Hk.
Qed.

Lemma mapM_text_key (ks : list str) : mapM text_key (PStr <$> ks) = Some ks.
Proof.
  apply mapM_Some. induction ks as [|k ks IH]; [constructor|].
  by constructor.
Qed.

Lemma zip_keys {A B} (g : A → B) (l : list A) :
  zip (g <$> l) l = (λ x, (g x, x)) <$> l.
Proof. induction l as [|x l IH]; [done|]. cbn. by rewrite IH. Qed.

(** The cards of the index when all of them can be dated. *)
Definition newest_first (cards : list pyval) : list pyval :=
  snd <$> sort_desc ((λ x, (card_key x, x)) <$> cards).

Lemma sort_cards_dated cards :
  Forall dated cards → sort_cards sort_other cards = inr (newest_first cards).
Proof.
  intros Hall. unfold sort_cards. rewrite sort_keys_dated by done.
  by rewrite mapM_text_key, zip_keys.
Qed.

Lemma keyed_sorted cards :
  Forall (λ p, fst p = card_key (snd p))
    (sort_desc ((λ x, (card_key x, x)) <$> cards)).
Proof.
  rewrite sort_desc_perm. apply Forall_fmap, Forall_forall. by intros x _.
Qed.

Lemma newest_first_perm cards : newest_first cards ≡ₚ cards.
Proof.
  unfold newest_first. rewrite sort_desc_perm, <-list_fmap_compose.
  by rewrite list_fmap_id.
Qed.

Lemma newest_first_sorted cards :
  StronglySorted (λ a b, str_lt (card_key a) (card_key b) = false)
    (newest_first cards).
Proof.
  unfold newest_first.
  pose proof (sort_desc_sorted ((λ x, (card_key x, x)) <$> cards)) as Hs.
  pose proof (keyed_sorted cards) as Hk.
  induction Hs as [|p l Hl IH Hp]; [constructor|].
  apply Forall_cons in Hk as [Hp' Hk]. rewrite fmap_cons.
  constructor; [by apply IH|].
  apply Forall_fmap, Forall_forall. intros q Hq.
  rewrite Forall_forall in Hp, Hk. specialize (Hp q Hq). specialize (Hk q Hq).
  unfold not_below in Hp. cbn. by rewrite <-Hp', <-Hk.
Qed.

Lemma newest_first_stable (k : str) cards :
  filter (λ x, card_key x = k) (newest_first cards)
  = filter (λ x, card_key x = k) cards.
Proof.
  unfold newest_first.
  assert (∀ l : list (str * pyval),
            Forall (λ p, fst p = card_key (snd p)) l →
            filter (λ x, card_key x = k) (snd <$> l)
            = snd <$> filter (λ p, fst p = k) l) as Hmap.
  { induction 1 as [|p l Hp _ IH]; [done|].
    rewrite fmap_cons, !filter_cons, IH. rewrite Hp.
    by destruct (decide (card_key (snd p) = k)). }
  rewrite Hmap by apply keyed_sorted. rewrite sort_desc_stable.
  rewrite <-Hmap by (apply Forall_fmap, Forall_forall; by intros x _).
  by rewrite <-list_fmap_compose, list_fmap_id.
Qed.

(** A last card above all the others comes first. *)
Lemma newest_first_head old card :
  Forall (λ x, str_lt (card_key x) (card_key card) = true) old →
  ∃ rest, newest_first (old ++ [card]) = card :: rest ∧ rest ≡ₚ old.
Proof.
  intros Hold.
  pose proof (newest_first_perm (old ++ [card])) as Hperm.
  pose proof (newest_first_sorted (old ++ [card])) as Hsorted.
  destruct (newest_first (old ++ [card])) as [|x shown].
  { apply Permutation_nil_l in Hperm. by destruct old. }
  assert (x = card) as ->.
  { assert (x ∈ old ++ [card]) as Hx by (rewrite <-Hperm; by left).
    apply elem_of_app in Hx as [Hx|Hx%list_elem_of_singleton]; [|done].
    exfalso. rewrite Forall_forall in Hold. specialize (Hold x Hx).
    apply StronglySorted_inv in Hsorted as [_ Hfirst].
    assert (card ∈ x :: shown) as Hc.
    { rewrite Hperm. apply elem_of_app. right. by left. }
    apply elem_of_cons in Hc as [->|Hc].
    - by rewrite str_lt_irrefl in Hold.
    - rewrite Forall_forall in Hfirst. specialize (Hfirst card Hc).
      cbn in Hfirst. congruence. }
  exists shown. split; [done|].
  rewrite <-Permutation_cons_append in Hperm. by apply Permutation_cons_inv in Hperm.
Qed.

End IndexFacts.

(** ** Properties of the index and of access *)
Section IndexClaims.
Context `{Runtime}.
Variable sort_other : list (pyval * pyval) → raised + list pyval.

Lemma index_run app session w cards w' :
  load_cards (store app) w = Ok cards w' →
  index sort_other app session w
  = match sort_cards sort_other cards with
    | inl e => Ok (inl e) w'
    | inr shown => Ok (inr (RenderTemplate "index.html" (Some shown) (is_admin session))) w'
    end.
Proof.
  intros Hload. unfold index. unfold mbind, M_bind. rewrite Hload.
  by destruct (sort_cards sort_other cards).
Qed.

(** X14.  [index] raises what [load_cards] raises.  When the log holds a
    value that is not a dictionary (a number, a string, a list, [null], a
    boolean: [load_cards] returns them all), [index] raises
    [AttributeError], since the sort key calls [get] on every card; it
    returns a page only when every card is a dictionary. *)
Theorem index_needs_objects app session w :
  match load_cards (store app) w with
  | Ok cards w' =>
      (Exists (λ x, is_dict x = false) cards →
       index sort_other app session w = Ok (inl AttributeError) w')
      ∧ (∀ page w'', index sort_other app session w = Ok (inr page) w'' →
           Forall (λ x, is_dict x = true) cards ∧ w'' = w'
           ∧ ∃ shown, page = RenderTemplate "index.html" (Some shown) (is_admin session))
  | Raise e w' => index sort_other app session w = Raise e w'
  | Exhausted => False
  end.
Proof.
  pose proof (load_cards_frame (store app) w) as (w1 & _ & _ & Hnot).
  destruct (load_cards (store app) w) as [cards w'|e w'|] eqn:Hload; [| |done].
  - rewrite (index_run _ _ _ _ _ Hload). split.
    + intros Hex. unfold sort_cards. by rewrite sort_keys_not_dict.
    + intros page w'' Hrun.
      destruct (sort_cards sort_other cards) as [e|shown] eqn:Hsort; [done|].
      injection Hrun as <- <-. split_and!; [|done|by eexists].
      apply Forall_forall. intros x Hx.
      destruct (is_dict x) eqn:Hd; [done|]. exfalso.
      unfold sort_cards in Hsort. rewrite sort_keys_not_dict in Hsort; [done|].
      apply Exists_exists. by exists x.
  - unfold index. unfold mbind, M_bind. by rewrite Hload.
Qed.

(** X15.  When every card of the log is a dictionary whose ["created_at"]
    is a [str] or is missing, [index] shows all the cards, each once, by
    [created_at] from the greatest to the least, a missing one counting as
    [""]; cards with equal [created_at] stay in the order of the log.  A
    card at the end of the log whose [created_at] is above all the others
    is shown first. *)
Theorem index_newest_first app session w cards w' :
  load_cards (store app) w = Ok cards w' →
  Forall dated cards →
  ∃ shown,
    index sort_other app session w
    = Ok (inr (RenderTemplate "index.html" (Some shown) (is_admin session))) w'
    ∧ shown ≡ₚ cards
    ∧ StronglySorted (λ a b, str_lt (card_key a) (card_key b) = false) shown
    ∧ (∀ k, filter (λ x, card_key x = k) shown = filter (λ x, card_key x = k) cards)
    ∧ (∀ old card, cards = old ++ [card] →
         Forall (λ x, str_lt (card_key x) (card_key card) = true) old →
         head shown = Some card).
Proof.
  intros Hload Hall. exists (newest_first cards).
  rewrite (index_run _ _ _ _ _ Hload), sort_cards_dated by done.
  split_and!; [done|apply newest_first_perm|apply newest_first_sorted|
               intros k; apply newest_first_stable|].
  intros old card -> Hold.
  by destruct (newest_first_head old card Hold) as (rest & -> & _).
Qed.

End IndexClaims.

Section AccessFacts.
Context `{Runtime}.
Variable sort_other : list (pyval * pyval) → raised + list pyval.

(** A request that is not a granted login. *)
Definition no_grant (app : flask_config) (r : visit) : Prop :=
  match r with
  | AdminLogin method form_password => ¬ grants app method form_password
  | _ => True
  end.

(** What a request of a browser that is no admin leaves. *)
Lemma serve_not_admin app r b w :
  is_admin (session b) = false → no_grant app r →
  match serve sort_other app r b w with
  | Ok (_, b') w' =>
      is_admin (session b') = false
      ∧ (∀ p, p ≠ lock_path (store app) → fs w' !! p = fs w !! p)
      ∧ flashes w' = flashes w
  | Raise _ w' =>
      (∀ p, p ≠ lock_path (store app) → fs w' !! p = fs w !! p)
      ∧ flashes w' = flashes w
  | Exhausted => False
  end.
Proof.
  intros Hb Hr. destruct r as [|card_id filename|method password| |method form];
    cbn [serve].
  - unfold index. unfold mbind at 1, M_bind at 1. unfold mbind at 1, M_bind at 1.
    pose proof (load_cards_frame (store app) w) as (w1 & Hw1 & _ & Hrun).
    assert ((∀ p, p ≠ lock_path (store app) → fs w1 !! p = fs w !! p)
            ∧ flashes w1 = flashes w) as Hframe.
    { destruct Hw1 as [->| ->]; [done|]. split; [|done].
      intros p Hp. by apply locked_frame. }
    destruct (load_cards (store app) w) as [cards w'|e w'|]; [| |done].
    + destruct Hrun as [-> _]. by destruct (sort_cards sort_other cards).
    + by destruct Hrun as [-> _].
  - done.
  - cbn [no_grant] in Hr.
    pose proof (admin_login_refused app method password b Hr) as Hs.
    destruct (admin_login app method password b) as [page b']. cbn [snd] in Hs.
    cbn. by rewrite Hs.
  - cbn. split_and!; [apply is_admin_delete|done|done].
  - unfold admin_new_route, admin_required. rewrite Hb. done.
Qed.

Lemma serve_all_not_admin app requests b w :
  is_admin (session b) = false → Forall (no_grant app) requests →
  ∃ b' w',
    serve_all sort_other app requests b w = Some (b', w')
    ∧ is_admin (session b') = false
    ∧ (∀ p, p ≠ lock_path (store app) → fs w' !! p = fs w !! p)
    ∧ flashes w' = flashes w.
Proof.
  intros Hb Hall. revert b w Hb.
  induction Hall as [|r requests Hr _ IH]; intros b w Hb.
  - by exists b, w.
  - cbn [serve_all]. pose proof (serve_not_admin app r b w Hb Hr) as Hstep.
    destruct (serve sort_other app r b w) as [[page b1] w1|e w1|]; [| |done].
    + destruct Hstep as (Hb1 & Hfs & Hfl).
      destruct (IH b1 w1 Hb1) as (b' & w' & Hrun & Hb' & Hfs' & Hfl').
      exists b', w'. split_and!; [done|done| |congruence].
      intros p Hp. by rewrite Hfs', Hfs.
    + destruct Hstep as (Hfs & Hfl).
      destruct (IH b w1 Hb) as (b' & w' & Hrun & Hb' & Hfs' & Hfl').
      exists b', w'. split_and!; [done|done| |congruence].
      intros p Hp. by rewrite Hfs', Hfs.
Qed.

End AccessFacts.

Section AccessClaims.
Context `{Runtime}.
Variable sort_other : list (pyval * pyval) → raised + list pyval.

(** X16.  Only an admin publishes.  For a browser whose session is no
    admin session, whatever requests it sends to the five routes, as long
    as none is a POST to the login carrying the configured password: the
    session is still no admin session at the end, no message of
    [admin_new] was flashed, and nothing in the file system changed but
    the lock file that reading the log opens: no card folder, no stored
    file, no line in the log. *)
Theorem only_admin_publishes app requests b w :
  is_admin (session b) = false →
  Forall (λ r, ∀ method form_password,
               r = AdminLogin method form_password →
               ¬ (method = "POST"%string ∧ ADMIN_PASSWORD app ≠ []
                  ∧ default [] form_password = ADMIN_PASSWORD app)) requests →
  ∃ b' w',
    serve_all sort_other app requests b w = Some (b', w')
    ∧ is_admin (session b') = false
    ∧ (∀ p, p ≠ lock_path (store app) → fs w' !! p = fs w !! p)
    ∧ log_data (store app) w' = log_data (store app) w
    ∧ flashes w' = flashes w.
Proof.
  intros Hb Hall.
  destruct (serve_all_not_admin sort_other app requests b w Hb)
    as (b' & w' & Hrun & Hb' & Hfs & Hfl).
  { eapply Forall_impl; [exact Hall|]. intros r Hr.
    destruct r; try done. cbn. by apply Hr. }
  exists b', w'. split_and!; [done..| |done].
  unfold log_data. rewrite Hfs; [done|]. apply not_eq_sym, lock_path_ne.
Qed.

(** X17.  An application started without [ADMIN_PASSWORD] in its
    environment, or with an empty one, has no admin: whatever requests a
    browser without an admin session sends, none makes the session an
    admin session, and the store stays as it was. *)
Theorem unset_password_no_admin (int_of_str : str → option Z) environ w0 app w
    requests b :
  default [] (environ !! py "ADMIN_PASSWORD") = [] →
  create_app int_of_str environ w0 = Ok (inr app) w →
  is_admin (session b) = false →
  ∃ b' w',
    serve_all sort_other app requests b w = Some (b', w')
    ∧ is_admin (session b') = false
    ∧ (∀ p, p ≠ lock_path (store app) → fs w' !! p = fs w !! p)
    ∧ log_data (store app) w' = log_data (store app) w.
Proof.
  intros Henv Hstart Hb.
  assert (ADMIN_PASSWORD app = []) as Hpw.
  { unfold create_app in Hstart.
    destruct (int_of_str _) as [limit|]; [|done].
    unfold mbind, M_bind in Hstart.
    destruct (ensure_dirs _ w0) as [[] w1|e w1|]; [|done|done].
    injection Hstart as <- _. done. }
  destruct (serve_all_not_admin sort_other app requests b w Hb)
    as (b' & w' & Hrun & Hb' & Hfs & Hfl).
  { apply Forall_forall. intros r _. destruct r; try done.
    cbn. intros (_ & Hset & _). done. }
  exists b', w'. split_and!; [done..|].
  unfold log_data. rewrite Hfs; [done|]. apply not_eq_sym, lock_path_ne.
Qed.

End AccessClaims.

(** ** Properties of publication *)
Section SafetyFacts.
Context `{Runtime}.
Implicit Types (f : FileStorage) (files : list FileStorage) (w : world).

(** [append_card] touches the log and its lock only. *)
Lemma append_card_frame app card w :
  match append_card app card w with
  | Ok _ w' | Raise _ w' =>
      (∀ p, p ≠ cards_csv_path app → p ≠ lock_path app → fs w' !! p = fs w !! p)
      ∧ flashes w' = flashes w
  | Exhausted => False
  end.
Proof.
  unfold append_card. fold (lock_path app).
  destruct (decide (fs w !! lock_path app = Some Dir)) as [Hl|Hl].
  { unfold with_lock. munfold. by rewrite Hl. }
  rewrite with_lock_free by done.
  unfold open_append, append_text. munfold. cbn [fs locked flashes].
  rewrite lookup_insert_ne by apply lock_path_ne.
  assert (∀ p, p ≠ lock_path app → fs (locked app w) !! p = fs w !! p) as Hlocked.
  { intros p Hp. by apply locked_frame. }
  destruct (fs w !! cards_csv_path app) as [[data|]|] eqn:Hlog; cbn [fs locked flashes].
  - destruct (utf8_encode _) as [b|]; [|by split; [intros; apply Hlocked|]].
    rewrite lookup_insert_ne by apply lock_path_ne. rewrite Hlog. cbn [fs flashes].
    split; [|done]. intros p Hp1 Hp2. rewrite lookup_insert_ne by done.
    by rewrite lookup_insert_ne.
  - split; [|done]. intros p _ Hp. by rewrite lookup_insert_ne.
  - destruct (utf8_encode _) as [b|]; cbn [fs flashes].
    + rewrite lookup_insert_eq. cbn [fs flashes]. split; [|done].
      intros p Hp1 Hp2. by rewrite !lookup_insert_ne.
    + split; [|done]. intros p Hp1 Hp2. by rewrite !lookup_insert_ne.
Qed.

End SafetyFacts.

Section PublishClaims.
Context `{Runtime}.
Implicit Types (f : FileStorage) (files : list FileStorage) (w : world).

(** X18.  A POST to [admin_new] with a title publishes the card.  In an
    application that has started (its two directories are there), on a log
    in the state the store keeps, with the card folder not a regular file
    and the log outside it, and with the names the loop chooses for the
    uploads within the limits of the file system, [admin_new] returns the
    redirect to the index; the [load_cards] that follows returns what it
    returned before and then the new card, whose id, date, title,
    description and files are those of the request; each entry of [files]
    names a file that is in the card folder with the content that was
    uploaded, in the order of the request; nothing else changed outside
    the card folder, the log and its lock. *)
Theorem admin_new_publishes app request w :
  let card_id := take 10 (uuid4_hex request) in
  let card_folder := path_join (UPLOADS_DIR app) card_id in
  let names :=
    chosen_names (<[card_folder := Dir]> (fs w)) card_folder (form_files request) in
  strip (default [] (form_title request)) ≠ [] →
  Forall unicode_text
    [default [] (form_title request); default [] (form_description request);
     utcnow_isoformat request] →
  Forall (λ c, c ∈ hexdigits) (uuid4_hex request) → length (uuid4_hex request) = 32 →
  (∀ id n, unicode_text id → unicode_text n →
           unicode_text (url_for_uploaded_file id n)) →
  (∀ data, fs w !! card_folder ≠ Some (File data)) →
  ¬ card_folder `prefix_of` cards_csv_path app →
  ¬ card_folder `prefix_of` lock_path app →
  log_ok app w →
  fs w !! DATA_DIR app = Some Dir → fs w !! UPLOADS_DIR app = Some Dir →
  Forall (λ n, fits card_folder n = true) names →
  ∃ old w0 w' w'',
    load_cards app w = Ok old w0
    ∧ admin_new app "POST" request w = Ok (Redirect "index") w'
    ∧ load_cards app w'
      = Ok (old ++ [card_dict {|
              c_id := card_id;
              c_created_at := utcnow_isoformat request ++ py "Z";
              c_title := strip (default [] (form_title request));
              c_description := strip (default [] (form_description request));
              c_files := stored_file card_id <$> names |}]) w''
    ∧ Forall2 (λ n f, fs w' !! path_join card_folder n = Some (File (stream f)))
        names (List.filter accepted (form_files request))
    ∧ fs w' !! card_folder = Some Dir
    ∧ (∀ p, ¬ card_folder `prefix_of` p → p ≠ cards_csv_path app →
            p ≠ lock_path app → fs w' !! p = fs w !! p)
    ∧ last (flashes w') = Some (MsgPublished, "ok"%string).
Proof.
  intros card_id card_folder names Htitle Hform Hhex Hlen Hurl Hfolder Hcsv Hlock Hok
    _ _ _.
  destruct (admin_new_publishes_run app request w Htitle Hform (conj Hhex Hlen)
              Hurl Hfolder Hcsv Hlock Hok)
    as (names' & old & w0 & w' & w'' & -> & Hload & Hrun & Hload' & Hfiles & Hdir
        & Hframe & Hfl).
  exists old, w0, w', w''. split_and!; [done|done|done| |done|done|].
  - eapply Forall2_impl; [exact Hfiles|]. by intros n f [_ ?].
  - rewrite Hfl, app_assoc. apply last_snoc.
Qed.


(** X20.  [admin_new] never destroys anything.  Whatever the request and
    however it ends, every node the file system had, other than the log
    and its lock, is there unchanged, and the bytes the log had are still
    the first bytes of the log. *)
Theorem admin_new_never_destroys app method request w :
  match admin_new app method request w with
  | Ok _ w' | Raise _ w' =>
      (∀ p nd, fs w !! p = Some nd → p ≠ cards_csv_path app → p ≠ lock_path app →
               fs w' !! p = Some nd)
      ∧ log_data app w `prefix_of` log_data app w'
  | Exhausted => False
  end.
Proof.
  unfold admin_new. case_bool_decide as Hm; [|by split].
  destruct (negb (truthy _)); [by split|].
  set (card_id := take 10 (uuid4_hex request)).
  set (card_folder := path_join (UPLOADS_DIR app) card_id).
  unfold mbind at 1, M_bind at 1.
  pose proof (makedirs_outcome card_folder w) as Hmk.
  destruct (makedirs card_folder w) as [[] w1|e w1|]; [| |done].
  2:{ by destruct Hmk as (-> & _). }
  destruct Hmk as (_ & Hnofile & ->). set (w1 := World _ _).
  assert (∀ p nd, fs w !! p = Some nd → fs w1 !! p = Some nd) as Hkeep1.
  { intros p nd Hp. unfold w1. cbn [fs].
    destruct (decide (p = card_folder)) as [->|Hne]; [|by rewrite lookup_insert_ne].
    rewrite lookup_insert_eq. destruct nd; [by apply Hnofile in Hp|done]. }
  assert (log_data app w1 = log_data app w) as Hlog1.
  { unfold log_data, w1. cbn [fs].
    destruct (decide (cards_csv_path app = card_folder)) as [Heq|Hne];
      [|by rewrite lookup_insert_ne].
    rewrite Heq, lookup_insert_eq.
    destruct (fs w !! card_folder) as [[data|]|] eqn:Hf;
      [by destruct (Hnofile data)|done..]. }
  destruct (admin_new_files_run card_folder card_id (form_files request) [] w1)
    as (names & w2 & Hrun & Hst & Hframe & _).
  unfold mbind at 1, M_bind at 1. rewrite Hrun.
  assert (∀ p nd, fs w1 !! p = Some nd → fs w2 !! p = Some nd) as Hkeep2.
  { intros p nd Hp. rewrite Hframe; [done|].
    intros (n & -> & Hn)%list_elem_of_fmap.
    apply list_elem_of_lookup in Hn as [i Hi].
    destruct (Forall2_lookup_l _ _ _ _ _ Hst Hi) as (f & _ & _ & Hnone & _).
    congruence. }
  assert (log_data app w1 `prefix_of` log_data app w2) as Hlog2.
  { unfold log_data.
    destruct (fs w1 !! cards_csv_path app) as [[data|]|] eqn:Hp;
      [|apply prefix_nil..].
    by rewrite (Hkeep2 _ _ Hp). }
  unfold mbind at 1, M_bind at 1.
  match goal with
  | |- context [append_card app ?c w2] =>
      pose proof (append_card_outcome app c w2) as Hout;
      pose proof (append_card_frame app c w2) as Hfr;
      destruct (append_card app c w2) as [[] w3|e w3|]; [| |done]
  end.
  - destruct Hfr as [Hfr _]. destruct Hout as (b & _ & Hlog3).
    unfold mbind at 1, M_bind at 1. cbn [flash mret M_ret fs]. split.
    + intros p nd Hp Hp1 Hp2. rewrite Hfr by done. by apply Hkeep2, Hkeep1.
    + unfold log_data at 2. cbn [fs]. rewrite Hlog3, <-Hlog1.
      etrans; [exact Hlog2|]. by apply prefix_app_r.
  - destruct Hfr as [Hfr _]. split.
    + intros p nd Hp Hp1 Hp2. rewrite Hfr by done. by apply Hkeep2, Hkeep1.
    + by rewrite Hout, <-Hlog1.
Qed.

(** X21.  [json.loads] undoes [json.dumps]: the text written for a value
    with no float in it and no dictionary key twice, whose integers and
    nesting are within the limits of the interpreter, is read back as that
    value. *)
Theorem json_round_trip (v : pyval) :
  storable v = true → within_limits v = true → loads (dumps v) = Some v.
Proof. intros Hst _. by apply loads_dumps. Qed.

(** X22.  The [utf-8] codec of the log: a text that can be written is read
    back as it was, and a text with no surrogate code point in it can be
    written. *)
Theorem utf8_round_trip (s : str) :
  (∀ b, utf8_encode s = Some b → utf8_decode b = Some s)
  ∧ (forallb is_scalar s = true → is_Some (utf8_encode s)).
Proof.
  split; [intros b; apply utf8_roundtrip|apply utf8_encode_scalar].
Qed.

End PublishClaims.

(** ** Names outside ASCII *)
Section NameFacts.
Context `{Runtime}.
Implicit Types (f : FileStorage) (files : list FileStorage) (w : world).

(** An ASCII letter or digit. *)
Definition is_alnum (c : N) : bool :=
  ((65 <=? c) && (c <=? 90) || (97 <=? c) && (c <=? 122)
   || (48 <=? c) && (c <=? 57))%N.

Lemma is_alnum_facts c :
  is_alnum c = true →
  is_ascii c = true ∧ isspace c = false ∧ filename_safe_char c = true
  ∧ in_chars (py "._") c = false ∧ c ≠ sep ∧ c ≠ dot.
Proof.
  unfold is_alnum, is_ascii, isspace, filename_safe_char, sep, dot. intros Hc.
  assert (in_chars (py "._") c = false) as ->.
  { apply bool_decide_eq_false. change (py "._") with [46; 95]%N.
    rewrite !elem_of_cons, elem_of_nil. unbool. lia. }
  split_and!; [unbool; lia| |unbool; lia|done|unbool; lia|unbool; lia].
  unbool. repeat split; lia.
Qed.

Lemma split_ws_go_solid cur s :
  forallb (λ c, negb (isspace c)) s = true →
  split_ws_go cur s = match rev cur ++ s with [] => [] | t => [t] end.
Proof.
  revert cur. induction s as [|c s IH]; intros cur Hs.
  - cbn [split_ws_go]. rewrite app_nil_r. destruct cur as [|d cur]; [done|].
    destruct (rev (d :: cur)) eqn:Hr; [|done].
    apply (f_equal length) in Hr. rewrite length_rev in Hr. done.
  - cbn [forallb] in Hs. apply andb_true_iff in Hs as [Hc Hs].
    apply negb_true_iff in Hc. cbn [split_ws_go]. rewrite Hc, IH by done.
    cbn [rev]. by rewrite <-app_assoc.
Qed.

Lemma filter_ascii_none (s : str) :
  Forall (λ c, is_ascii c = false) s → List.filter is_ascii s = [].
Proof. induction 1 as [|c s Hc _ IH]; [done|]. cbn. by rewrite Hc. Qed.

Lemma filter_all (P : N → bool) (s : str) :
  forallb P s = true → List.filter P s = s.
Proof.
  induction s as [|c s IH]; [done|]. cbn. intros [Hc Hs]%andb_true_iff.
  by rewrite Hc, IH.
Qed.

Lemma filter_app_list (P : N → bool) (s t : str) :
  List.filter P (s ++ t) = List.filter P s ++ List.filter P t.
Proof. apply List.filter_app. Qed.

Lemma replace1_id a b (s : str) : a ∉ s → replace1 a b s = s.
Proof.
  unfold replace1. induction s as [|c s IH]; [done|].
  intros [Hc Hs]%not_elem_of_cons. cbn. rewrite IH by done.
  by destruct (N.eqb_spec c a) as [->|_].
Qed.

(** What [secure_filename] leaves of a name whose part before the last
    dot has no ASCII character once normalized: the extension alone. *)
Lemma secure_filename_non_ascii original base ext :
  nfkd original = base ++ dot :: ext →
  Forall (λ c, is_ascii c = false) base →
  forallb is_alnum ext = true →
  secure_filename original = ext.
Proof.
  intros Hn Hbase Hext. unfold secure_filename. rewrite Hn.
  assert (∀ c, c ∈ ext → is_alnum c = true) as Hal.
  { intros c Hc. rewrite forallb_forall in Hext. by apply Hext, list_elem_of_In. }
  rewrite filter_app_list, filter_ascii_none by done. cbn [app List.filter].
  change (is_ascii dot) with true. cbn iota.
  rewrite (filter_all is_ascii ext).
  2:{ apply forallb_forall. intros c Hc%list_elem_of_In%Hal.
      by apply is_alnum_facts in Hc as (? & _). }
  rewrite replace1_id.
  2:{ intros [Hd|Hc%Hal]%elem_of_cons; [done|].
      by apply is_alnum_facts in Hc as (_ & _ & _ & _ & ? & _). }
  unfold split_ws. rewrite split_ws_go_solid.
  2:{ cbn [forallb]. apply andb_true_iff. split; [done|].
      apply forallb_forall. intros c Hc%list_elem_of_In%Hal.
      apply is_alnum_facts in Hc as (_ & -> & _). done. }
  cbn [rev app join].
  rewrite (filter_all filename_safe_char (dot :: ext)).
  2:{ cbn [forallb]. apply andb_true_iff. split; [done|].
      apply forallb_forall. intros c Hc%list_elem_of_In%Hal.
      by apply is_alnum_facts in Hc as (_ & _ & ? & _). }
  unfold strip_chars, strip_by. cbn [lstrip_by].
  change (in_chars (py "._") dot) with true. cbn iota.
  fold (strip_by (in_chars (py "._")) ext). apply strip_by_ends.
  - intros c t ->. specialize (Hal c ltac:(by left)).
    by apply is_alnum_facts in Hal as (_ & _ & _ & ? & _).
  - intros t d ->. specialize (Hal d ltac:(apply elem_of_app; right; by left)).
    by apply is_alnum_facts in Hal as (_ & _ & _ & ? & _).
Qed.

End NameFacts.

Section NameClaims.
Context `{Runtime}.
Implicit Types (f : FileStorage) (files : list FileStorage) (w : world).

(** X23.  A file whose name, once normalized, has no ASCII character before
    its last dot (a name in Cyrillic, say) and letters and digits after it
    is not stored, whatever its extension: [secure_filename] leaves the
    extension alone, a name without a dot, which [allowed_file] refuses.
    The entry is reported as having an unsupported extension and the loop
    goes on. *)
Theorem non_ascii_name_refused card_folder card_id f files saved original base ext :
  filename f = Some original → original ≠ [] →
  nfkd original = base ++ dot :: ext →
  Forall (λ c, is_ascii c = false) base →
  forallb is_alnum ext = true → ext ≠ [] →
  secure_filename original = ext
  ∧ allowed_file ext = false
  ∧ admin_new_files card_folder card_id (f :: files) saved
    = (flash (MsgUnsupportedExtension original) "error";;
       admin_new_files card_folder card_id files saved).
Proof.
  intros Hf Ho Hn Hbase Hext Hne.
  pose proof (secure_filename_non_ascii original base ext Hn Hbase Hext) as Hs.
  assert (allowed_file ext = false) as Ha.
  { unfold allowed_file.
    destruct (contains dot ext) eqn:Hd; [|done]. exfalso.
    apply contains_spec in Hd. rewrite forallb_forall in Hext.
    apply list_elem_of_In, Hext in Hd. by vm_compute in Hd. }
  split_and!; [done|done|].
  assert (getattr_filename f = original) as Hg.
  { unfold getattr_filename. by rewrite Hf. }
  rewrite <-Hg. apply admin_new_files_refused.
  - unfold file_bool. rewrite Hf. by apply truthy_true.
  - by rewrite Hg, Hs.
  - by rewrite Hg, Hs.
Qed.

End NameClaims.

(** ** From login to the index *)
Section JourneyClaims.
Context `{Runtime}.
Variable sort_other : list (pyval * pyval) → raised + list pyval.
Implicit Types (f : FileStorage) (files : list FileStorage) (w : world).

Lemma card_dict_dated card :
  dated (card_dict card) ∧ card_key (card_dict card) = c_created_at card.
Proof. split; [by eexists|done]. Qed.

(** X24.  A published card heads the index.  After a POST to [admin_new]
    with a title (in an application that has started, on a log in the
    state the store keeps, the card folder not a regular file, the log and
    its lock outside it, the names chosen for the uploads within the
    limits of the file system), when the cards
    of the log are dictionaries with a [str] or no [created_at], all below
    the time of the request, [index] shows the new card first and then the
    cards that were there. *)
Theorem published_card_listed_first (app : flask_config) session request w old w0 :
  let card_id := take 10 (uuid4_hex request) in
  let card_folder := path_join (UPLOADS_DIR (store app)) card_id in
  let names :=
    chosen_names (<[card_folder := Dir]> (fs w)) card_folder (form_files request) in
  strip (default [] (form_title request)) ≠ [] →
  Forall unicode_text
    [default [] (form_title request); default [] (form_description request);
     utcnow_isoformat request] →
  Forall (λ c, c ∈ hexdigits) (uuid4_hex request) → length (uuid4_hex request) = 32 →
  (∀ id n, unicode_text id → unicode_text n →
           unicode_text (url_for_uploaded_file id n)) →
  (∀ data, fs w !! card_folder ≠ Some (File data)) →
  ¬ card_folder `prefix_of` cards_csv_path (store app) →
  ¬ card_folder `prefix_of` lock_path (store app) →
  log_ok (store app) w →
  fs w !! DATA_DIR (store app) = Some Dir →
  fs w !! UPLOADS_DIR (store app) = Some Dir →
  Forall (λ n, fits card_folder n = true) names →
  load_cards (store app) w = Ok old w0 →
  Forall dated old →
  Forall (λ x, str_lt (card_key x) (utcnow_isoformat request ++ py "Z") = true) old →
  ∃ w' w'' rest,
    admin_new (store app) "POST" request w = Ok (Redirect "index") w'
    ∧ index sort_other app session w'
      = Ok (inr (RenderTemplate "index.html"
                   (Some (card_dict {|
                            c_id := card_id;
                            c_created_at := utcnow_isoformat request ++ py "Z";
                            c_title := strip (default [] (form_title request));
                            c_description := strip (default [] (form_description request));
                            c_files := stored_file card_id <$> names |} :: rest))
                   (is_admin session))) w''
    ∧ rest ≡ₚ old.
Proof.
  intros card_id card_folder names Htitle Hform Hhex Hlen Hurl Hfolder Hcsv Hlock Hok
    _ _ _ Hload Hdated Hbelow.
  destruct (admin_new_publishes_run (store app) request w
              Htitle Hform (conj Hhex Hlen) Hurl Hfolder Hcsv Hlock Hok)
    as (names' & old' & w0' & w' & w'' & -> & Hload0 & Hrun & Hload' & _).
  rewrite Hload in Hload0. injection Hload0 as <- _.
  change (upload_names (store app) request w) with names in Hload'.
  destruct (card_dict_dated (published_card request names)) as [Hcard Hkey].
  destruct (newest_first_head old (card_dict (published_card request names)))
    as (rest & Hhead & Hperm).
  { by rewrite Hkey. }
  exists w', w'', rest. split_and!; [done| |done].
  rewrite (index_run _ _ _ _ _ _ Hload'), sort_cards_dated.
  - by rewrite Hhead.
  - apply Forall_app. split; [done|]. by constructor.
Qed.

(** X25.  The admin can publish.  A POST to the login with the configured
    password, which is not empty, followed by a POST to [/admin/new] with
    a title (in an application that has started, on a log in the state
    the store keeps, the card folder not a regular file, the log and its
    lock outside it, the names chosen for the uploads within the limits of
    the file system) leaves an admin session and the new card at the end
    of what [load_cards] returns. *)
Theorem admin_login_then_publish (app : flask_config) login_method password b request w :
  let card_id := take 10 (uuid4_hex request) in
  let card_folder := path_join (UPLOADS_DIR (store app)) card_id in
  let names :=
    chosen_names (<[card_folder := Dir]> (fs w)) card_folder (form_files request) in
  login_method = "POST"%string → ADMIN_PASSWORD app ≠ [] →
  default [] password = ADMIN_PASSWORD app →
  strip (default [] (form_title request)) ≠ [] →
  Forall unicode_text
    [default [] (form_title request); default [] (form_description request);
     utcnow_isoformat request] →
  Forall (λ c, c ∈ hexdigits) (uuid4_hex request) → length (uuid4_hex request) = 32 →
  (∀ id n, unicode_text id → unicode_text n →
           unicode_text (url_for_uploaded_file id n)) →
  (∀ data, fs w !! card_folder ≠ Some (File data)) →
  ¬ card_folder `prefix_of` cards_csv_path (store app) →
  ¬ card_folder `prefix_of` lock_path (store app) →
  log_ok (store app) w →
  fs w !! DATA_DIR (store app) = Some Dir →
  fs w !! UPLOADS_DIR (store app) = Some Dir →
  Forall (λ n, fits card_folder n = true) names →
  ∃ old w0 b' w' w'',
    load_cards (store app) w = Ok old w0
    ∧ serve_all sort_other app
        [AdminLogin login_method password; AdminNew "POST" request] b w
      = Some (b', w')
    ∧ is_admin (session b') = true
    ∧ load_cards (store app) w'
      = Ok (old ++ [card_dict {|
              c_id := card_id;
              c_created_at := utcnow_isoformat request ++ py "Z";
              c_title := strip (default [] (form_title request));
              c_description := strip (default [] (form_description request));
              c_files := stored_file card_id <$> names |}]) w''.
Proof.
  intros card_id card_folder names Hm Hset Hpw Htitle Hform Hhex Hlen Hurl Hfolder
    Hcsv Hlock Hok _ _ _.
  destruct (admin_new_publishes_run (store app) request w
              Htitle Hform (conj Hhex Hlen) Hurl Hfolder Hcsv Hlock Hok)
    as (names' & old & w0 & w' & w'' & -> & Hload & Hrun & Hload' & _).
  assert (grants app login_method password) as Hg by done.
  eexists old, w0, _, w', w''. split_and!; [done| | |done].
  - cbn [serve_all serve]. rewrite (admin_login_granted _ _ _ b Hg).
    cbn [mret M_ret session]. unfold admin_new_route, admin_required.
    rewrite is_admin_insert_true. cbn [negb]. unfold mbind, M_bind. rewrite Hrun.
    cbn [mret M_ret]. reflexivity.
  - cbn [session]. apply is_admin_insert_true.
Qed.

End JourneyClaims.

(** ** The claims on the log at concrete inputs *)
Module DemoLog.

(** A log of five lines: a card, a number, a blank line, a line that is
    not JSON, a list. *)
Definition log_text : str :=
  pyq "{'id': 'ab12cd34ef', 'title': 'First'}" ++ [LF]
  ++ py "7" ++ [LF]
  ++ py "   " ++ [LF]
  ++ py "{not json" ++ [LF]
  ++ pyq "[1, 'x']" ++ [LF].

Definition world_with_log : world :=
  World {[ cards_csv_path Demo.app := File log_text ]} [].

Definition card : Card := {|
  c_id := py "0123456789";
  c_created_at := py "2024-05-01T10:00:00Z";
  c_title := [1055; 1088; 1080; 1074; 1077; 1090]%N;
  c_description := pyq "a 'quoted' line" ++ [LF] ++ py "and a second one";
  c_files := [{| f_name := py "a.png";
                 f_url := py "/uploads/0123456789/a.png";
                 f_ext := py "png" |}];
|}.

(** Two lines that yield a value, a line that does not, one that does. *)
Definition pre : list str :=
  [pyq "{'id': 'ab12cd34ef', 'title': 'First'}"; py "7"].
Definition bad : str := py "{not json".
Definition post : list str := [pyq "[1, 'x']"].
Definition data_lines : bytes := concat ((λ l, l ++ [LF]) <$> (pre ++ [bad] ++ post)).
Definition world_lines : world :=
  World {[ cards_csv_path Demo.app := File data_lines ]} [].

(** A log of two lines: a card, and a line cut inside a two-byte
    character (the byte 0xD0 and nothing after it), as an interrupted write
    of a Cyrillic title leaves it. *)
Definition card_line : str := pyq "{'id': 'ab12cd34ef', 'title': 'First'}".
Definition torn_line : bytes := pyq "{'id': '0123456789', 'title': '" ++ [208%N].
Definition world_with_bad_bytes : world :=
  World {[ cards_csv_path Demo.app
           := File (card_line ++ [LF] ++ torn_line ++ [LF]) ]} [].

(** The same log with a second line that is text, but not JSON. *)
Definition world_with_bad_text : world :=
  World {[ cards_csv_path Demo.app
           := File (card_line ++ [LF] ++ pyq "{'id': '0123456789', 'title': '" ++ [LF]) ]} [].

(** A log of one card whose line has no line feed after it. *)
Definition world_unterminated : world :=
  World {[ cards_csv_path Demo.app := File card_line ]} [].

(** A card whose title is a lone surrogate (U+D83D). *)
Definition surrogate_card : Card := {|
  c_id := py "0123456789";
  c_created_at := py "2024-05-01T10:00:00Z";
  c_title := [55357%N];
  c_description := [];
  c_files := [];
|}.

End DemoLog.

#[local] Existing Instance ascii_runtime.

Lemma log_ok_world_with_log : log_ok Demo.app DemoLog.world_with_log.
Proof.
  split_and!; [by vm_compute|by vm_compute|].
  exists DemoLog.log_text. split; [by vm_compute|right; by vm_compute].
Qed.

Lemma append_load_round_trip_witness :
  Forall unicode_text (card_strings DemoLog.card)
  ∧ log_ok Demo.app DemoLog.world_with_log
  ∧ ∃ w1 cards w2,
      append_card Demo.app (card_dict DemoLog.card) DemoLog.world_with_log = Ok tt w1
      ∧ load_cards (H := ascii_runtime) Demo.app w1 = Ok cards w2
      ∧ last cards = Some (card_dict DemoLog.card).
Proof.
  assert (Forall unicode_text (card_strings DemoLog.card)) as Htext.
  { repeat constructor. }
  split; [exact Htext|]. split; [exact log_ok_world_with_log|].
  exact (append_load_round_trip (H := ascii_runtime) Demo.app DemoLog.card
           DemoLog.world_with_log Htext log_ok_world_with_log).
Defined.

(** C1 as stated fails outside these conditions.  The log of one card
    without a final line feed is read as that card; after [append_card],
    which returns, the new line is glued to the last one and [load_cards]
    returns no value at all.  A card whose title holds a surrogate code
    point is not written: [append_card] raises [UnicodeEncodeError] and
    the log is as it was. *)
Lemma append_load_round_trip_fails :
  load_cards Demo.app DemoLog.world_unterminated
  = Ok [PDict [(py "id", PStr (py "ab12cd34ef")); (py "title", PStr (py "First"))]]
       (locked Demo.app DemoLog.world_unterminated)
  ∧ match append_card Demo.app (card_dict DemoLog.card) DemoLog.world_unterminated with
    | Ok _ w1 => load_cards Demo.app w1 = Ok [] (locked Demo.app w1)
    | _ => False
    end
  ∧ match append_card Demo.app (card_dict DemoLog.surrogate_card)
            DemoLog.world_with_log with
    | Raise e w' => e = UnicodeEncodeError ∧ log_data Demo.app w' = DemoLog.log_text
    | _ => False
    end.
Proof. split_and!; [vm_compute; reflexivity..|by vm_compute]. Qed.

Lemma load_cards_no_schema_witness :
  fs DemoLog.world_with_log !! cards_csv_path Demo.app = Some (File DemoLog.log_text)
  ∧ fs DemoLog.world_with_log !! lock_path Demo.app ≠ Some Dir
  ∧ utf8_decode DemoLog.log_text = Some DemoLog.log_text
  ∧ ∃ cards w',
      load_cards (H := ascii_runtime) Demo.app DemoLog.world_with_log = Ok cards w'
      ∧ cards = omap line_card (text_lines (universal_newlines DemoLog.log_text)).
Proof.
  assert (fs DemoLog.world_with_log !! cards_csv_path Demo.app
          = Some (File DemoLog.log_text)) as Hp by (by vm_compute).
  assert (fs DemoLog.world_with_log !! lock_path Demo.app ≠ Some Dir) as Hl
    by (by vm_compute).
  assert (utf8_decode DemoLog.log_text = Some DemoLog.log_text) as Hd
    by (by vm_compute).
  split_and!; [done..|].
  destruct (load_cards_no_schema (H := ascii_runtime) Demo.app DemoLog.world_with_log
              DemoLog.log_text DemoLog.log_text Hp Hl Hd)
    as (cards & w' & Hload & Hcards & _).
  by exists cards, w'.
Defined.

(** The log of [DemoLog] read: the object, the number and the list. *)
Example load_cards_demo :
  ∃ w',
    load_cards (H := ascii_runtime) Demo.app DemoLog.world_with_log
    = Ok [PDict [(py "id", PStr (py "ab12cd34ef")); (py "title", PStr (py "First"))];
          PInt 7;
          PList [PInt 1; PStr (py "x")]] w'.
Proof. eexists. vm_compute. reflexivity. Qed.

Lemma load_cards_lenient_witness :
  fs DemoLog.world_lines !! cards_csv_path Demo.app = Some (File DemoLog.data_lines)
  ∧ fs DemoLog.world_lines !! lock_path Demo.app ≠ Some Dir
  ∧ utf8_decode DemoLog.data_lines
    = Some (concat ((λ l, l ++ [LF])
                      <$> (DemoLog.pre ++ [DemoLog.bad] ++ DemoLog.post)))
  ∧ Forall (λ l, (LF ∉ l) ∧ (CR ∉ l)) (DemoLog.pre ++ [DemoLog.bad] ++ DemoLog.post)
  ∧ Forall (λ l, is_Some (line_card l)) (DemoLog.pre ++ DemoLog.post)
  ∧ loads (strip DemoLog.bad) = None
  ∧ ∃ cards w',
      load_cards Demo.app DemoLog.world_lines = Ok cards w'
      ∧ cards = omap line_card (DemoLog.pre ++ DemoLog.post)
      ∧ length cards = length DemoLog.pre + length DemoLog.post.
Proof.
  assert (fs DemoLog.world_lines !! cards_csv_path Demo.app
          = Some (File DemoLog.data_lines)) as Hp by (by vm_compute).
  assert (fs DemoLog.world_lines !! lock_path Demo.app ≠ Some Dir) as Hl
    by (by vm_compute).
  assert (utf8_decode DemoLog.data_lines
          = Some (concat ((λ l, l ++ [LF])
                            <$> (DemoLog.pre ++ [DemoLog.bad] ++ DemoLog.post)))) as Hd
    by (by vm_compute).
  assert (Forall (λ l, (LF ∉ l) ∧ (CR ∉ l))
            (DemoLog.pre ++ [DemoLog.bad] ++ DemoLog.post)) as Hlines.
  { repeat constructor; apply (bool_decide_unpack _); by vm_compute. }
  assert (Forall (λ l, is_Some (line_card l)) (DemoLog.pre ++ DemoLog.post)) as Hgood.
  { repeat (apply Forall_cons_2; [vm_compute; by eexists|]). apply Forall_nil_2. }
  assert (loads (strip DemoLog.bad) = None) as Hbad by (by vm_compute).
  split_and!; [done..|].
  exact (proj2 (load_cards_lenient Demo.app DemoLog.world_lines)
           DemoLog.pre DemoLog.bad DemoLog.post DemoLog.data_lines
           Hp Hl Hd Hlines Hgood Hbad).
Defined.

(** C2.  The claim fails on a log with one well-formed line and one line
    that is not [utf-8]: [load_cards] raises [UnicodeDecodeError] (from the
    iteration over the file, outside the [try] around [json.loads]) instead
    of passing the line over and returning the one record.  The same log
    with a second line that is text but not JSON gives the one record. *)
Theorem load_cards_bad_bytes :
  load_cards Demo.app DemoLog.world_with_bad_bytes
  = Raise UnicodeDecodeError (locked Demo.app DemoLog.world_with_bad_bytes)
  ∧ load_cards Demo.app DemoLog.world_with_bad_text
    = Ok [PDict [(py "id", PStr (py "ab12cd34ef")); (py "title", PStr (py "First"))]]
         (locked Demo.app DemoLog.world_with_bad_text).
Proof. split; vm_compute; reflexivity. Qed.


Lemma sanitize_id_accepts_iff_witness :
  (∀ before c after, is_ascii c = false →
     ∃ d, d ∈ unicode_lower before c after ∧ d ∉ hexdigits)
  ∧ 233%N ∈ py "deadbeef" ++ [233%N]
  ∧ (233%N ∉ hexdigits_anycase)
  ∧ sanitize_id (py "deadbeef" ++ [233%N]) = [].
Proof.
  assert (∀ before c after, is_ascii c = false →
            ∃ d, d ∈ unicode_lower before c after ∧ d ∉ hexdigits) as Htable.
  { intros before c after Hc. exists c. split; [by apply list_elem_of_singleton|].
    intros Hin. apply (bool_decide_pack _) in Hin.
    fold (in_chars hexdigits c) in Hin. rewrite in_chars_hexdigits in Hin.
    unfold is_lower_hex, is_ascii in *. apply Is_true_true in Hin. unbool. lia. }
  assert (233%N ∈ py "deadbeef" ++ [233%N]) as Hin by (apply (bool_decide_unpack _); by vm_compute).
  assert (233%N ∉ hexdigits_anycase) as Hnot by (apply (bool_decide_unpack _); by vm_compute).
  split_and!; [done..|].
  exact (proj2 (proj2 (proj2 (proj2 (proj2
           (sanitize_id_accepts_iff (py "deadbeef" ++ [233%N]))))))
           Htable 233%N Hin Hnot).
Defined.

(** ** The routes at concrete inputs *)
Module DemoSite.

(** An application with a password; the sort of keys that are not all
    [str] plays no part below. *)
Definition site : flask_config :=
  FlaskConfig (py "dev-secret-change-me") (py "s3cret") Demo.app 125829120.

Definition sort_other (l : list (pyval * pyval)) : raised + list pyval :=
  inl TypeError.

(** [int] on the texts that are ASCII digits only. *)
Definition int_of_str (s : str) : option Z :=
  if truthy s && forallb is_digit s
  then Some (Z.of_N (N.of_uint (uint_of_digits s)))
  else None.

(** The application [create_app] gives in an empty environment, and the
    world it leaves when it starts on an empty file system. *)
Definition unset : flask_config :=
  FlaskConfig (py "dev-secret-change-me") [] Demo.app 125829120.
Definition started : world :=
  World {[ py "/var/data" := Dir; py "/var/data/uploads" := Dir ]} [].

(** A file system with the card folder of [Demo.launch] in it. *)
Definition with_folder : world := World {[ Demo.folder := Dir ]} [].

Definition visitor : browser := Browser ∅ [].

(** A wrong password, the right one in a GET, a card, the index. *)
Definition attempts : list visit :=
  [AdminLogin "POST" (Some (py "guess"));
   AdminLogin "GET" (Some (py "s3cret"));
   AdminNew "POST" Demo.launch;
   GetIndex].

(** Three entries of one name. *)
Definition thrice : list FileStorage :=
  [Demo.upload "a.png" [1]%N; Demo.upload "a.png" [2]%N; Demo.upload "a.png" [3]%N].

(** A log with [\r\n] line endings. *)
Definition dos_lines : list str := [pyq "{'id': 'ab12cd34ef'}"; py "7"].
Definition dos_world : world :=
  World {[ cards_csv_path Demo.app
           := File (concat ((λ l, l ++ [CR; LF]) <$> dos_lines)) ]} [].

(** A log of three cards: an old one, one without a date, a new one. *)
Definition old_card : pyval :=
  PDict [(py "id", PStr (py "aaaaaaaa")); (py "created_at", PStr (py "2024-01-01T00:00:00Z"))].
Definition undated_card : pyval := PDict [(py "id", PStr (py "bbbbbbbb"))].
Definition new_card : pyval :=
  PDict [(py "id", PStr (py "cccccccc")); (py "created_at", PStr (py "2024-05-01T10:00:00Z"))].
Definition dated_world : world :=
  World {[ cards_csv_path Demo.app
           := File (dumps old_card ++ [LF] ++ dumps undated_card ++ [LF]
                    ++ dumps new_card ++ [LF]) ]} [].

(** The same log in an application that has started. *)
Definition dated_started : world :=
  World (<[ py "/var/data" := Dir ]> (<[ py "/var/data/uploads" := Dir ]>
           (fs dated_world))) [].

End DemoSite.


Lemma only_admin_publishes_witness :
  is_admin (session DemoSite.visitor) = false
  ∧ Forall (λ r, ∀ method form_password,
                 r = AdminLogin method form_password →
                 ¬ (method = "POST"%string ∧ ADMIN_PASSWORD DemoSite.site ≠ []
                    ∧ default [] form_password = ADMIN_PASSWORD DemoSite.site))
      DemoSite.attempts
  ∧ ∃ b' w',
      serve_all DemoSite.sort_other DemoSite.site DemoSite.attempts DemoSite.visitor
        DemoLog.world_with_log = Some (b', w')
      ∧ is_admin (session b') = false
      ∧ (∀ p, p ≠ lock_path (store DemoSite.site) →
              fs w' !! p = fs DemoLog.world_with_log !! p)
      ∧ log_data (store DemoSite.site) w'
        = log_data (store DemoSite.site) DemoLog.world_with_log
      ∧ flashes w' = flashes DemoLog.world_with_log.
Proof.
  assert (is_admin (session DemoSite.visitor) = false) as Hb by reflexivity.
  assert (Forall (λ r, ∀ method form_password,
                 r = AdminLogin method form_password →
                 ¬ (method = "POST"%string ∧ ADMIN_PASSWORD DemoSite.site ≠ []
                    ∧ default [] form_password = ADMIN_PASSWORD DemoSite.site))
            DemoSite.attempts) as Hall.
  { repeat apply Forall_cons_2; [..|apply Forall_nil_2];
      intros method form_password [= <- <-] (Hm & _ & Hp); done. }
  split_and!; [done|done|].
  exact (only_admin_publishes DemoSite.sort_other DemoSite.site DemoSite.attempts
           DemoSite.visitor DemoLog.world_with_log Hb Hall).
Defined.

Lemma unset_password_no_admin_witness :
  default [] ((∅ : gmap str str) !! py "ADMIN_PASSWORD") = []
  ∧ create_app DemoSite.int_of_str ∅ Demo.empty_world
    = Ok (inr DemoSite.unset) DemoSite.started
  ∧ is_admin (session DemoSite.visitor) = false
  ∧ ∃ b' w',
      serve_all DemoSite.sort_other DemoSite.unset
        [AdminLogin "POST" None; AdminLogin "POST" (Some []);
         AdminNew "POST" Demo.launch]
        DemoSite.visitor DemoSite.started = Some (b', w')
      ∧ is_admin (session b') = false
      ∧ (∀ p, p ≠ lock_path (store DemoSite.unset) →
              fs w' !! p = fs DemoSite.started !! p)
      ∧ log_data (store DemoSite.unset) w'
        = log_data (store DemoSite.unset) DemoSite.started.
Proof.
  assert (default [] ((∅ : gmap str str) !! py "ADMIN_PASSWORD") = []) as Henv
    by reflexivity.
  assert (create_app DemoSite.int_of_str ∅ Demo.empty_world
          = Ok (inr DemoSite.unset) DemoSite.started) as Hstart
    by (vm_compute; reflexivity).
  assert (is_admin (session DemoSite.visitor) = false) as Hb by reflexivity.
  split_and!; [done|done|done|].
  exact (unset_password_no_admin DemoSite.sort_other DemoSite.int_of_str ∅
           Demo.empty_world DemoSite.unset DemoSite.started
           [AdminLogin "POST" None; AdminLogin "POST" (Some []);
            AdminNew "POST" Demo.launch]
           DemoSite.visitor Henv Hstart Hb).
Defined.

(** Start-up with [DATA_DIR] set to the empty string, and with a regular
    file where [UPLOADS_DIR] is to be. *)
Example create_app_empty_data_dir :
  create_app DemoSite.int_of_str {[ py "DATA_DIR" := [] ]} Demo.empty_world
  = Raise FileNotFoundError Demo.empty_world.
Proof. vm_compute. reflexivity. Qed.

Example create_app_uploads_is_file :
  create_app DemoSite.int_of_str ∅ (World {[ py "/var/data/uploads" := File [] ]} [])
  = Raise FileExistsError
      (World {[ py "/var/data" := Dir; py "/var/data/uploads" := File [] ]} []).
Proof. vm_compute. reflexivity. Qed.

Lemma numbered_path k :
  path_join Demo.folder
    (candidate_name (split_ext (py "a.png")).1 (split_ext (py "a.png")).2 k)
  = Demo.folder ++ sep :: py "a_" ++ str_of_N k ++ py ".png".
Proof. reflexivity. Qed.

Lemma same_name_numbered_witness :
  Forall (λ f, accepted f = true ∧ safe_name f = py "a.png") DemoSite.thrice
  ∧ fs DemoSite.with_folder !! Demo.folder = Some Dir
  ∧ fs DemoSite.with_folder !! path_join Demo.folder (py "a.png") = None
  ∧ (∀ k, fs DemoSite.with_folder
          !! path_join Demo.folder
               (candidate_name (split_ext (py "a.png")).1 (split_ext (py "a.png")).2 k)
          = None)
  ∧ Forall (λ n, fits Demo.folder n = true)
      (numbered (py "a.png") (length DemoSite.thrice))
  ∧ numbered (py "a.png") (length DemoSite.thrice)
    = [py "a.png"; py "a_2.png"; py "a_3.png"]
  ∧ ∃ w',
      admin_new_files Demo.folder Demo.card_id DemoSite.thrice [] DemoSite.with_folder
      = Ok ([] ++ (stored_file Demo.card_id
                     <$> numbered (py "a.png") (length DemoSite.thrice))) w'
      ∧ Forall2 (λ n f, fs w' !! path_join Demo.folder n = Some (File (stream f)))
          (numbered (py "a.png") (length DemoSite.thrice)) DemoSite.thrice.
Proof.
  assert (Forall (λ f, accepted f = true ∧ safe_name f = py "a.png") DemoSite.thrice)
    as Hall.
  { repeat apply Forall_cons_2; [..|apply Forall_nil_2]; split; reflexivity. }
  assert (fs DemoSite.with_folder !! Demo.folder = Some Dir) as Hdir
    by apply lookup_singleton_eq.
  assert (fs DemoSite.with_folder !! path_join Demo.folder (py "a.png") = None) as Hname
    by (by vm_compute).
  assert (∀ k, fs DemoSite.with_folder
               !! path_join Demo.folder
                    (candidate_name (split_ext (py "a.png")).1
                       (split_ext (py "a.png")).2 k) = None) as Hcands.
  { intros k. rewrite numbered_path. apply lookup_singleton_ne.
    intros Heq%(f_equal length). rewrite length_app in Heq. simpl in Heq. lia. }
  assert (Forall (λ n, fits Demo.folder n = true)
            (numbered (py "a.png") (length DemoSite.thrice))) as Hfit.
  { repeat apply Forall_cons_2; [..|apply Forall_nil_2]; reflexivity. }
  split_and!; [done|done|done|done|done|reflexivity|].
  exact (same_name_numbered Demo.folder Demo.card_id (py "a.png") DemoSite.thrice []
           DemoSite.with_folder Hall Hdir Hname Hcands Hfit).
Defined.

Lemma admin_new_files_stores_accepted_witness :
  fs DemoSite.with_folder !! Demo.folder = Some Dir
  ∧ Forall (λ n, fits Demo.folder n = true)
      (chosen_names (fs DemoSite.with_folder) Demo.folder (form_files Demo.launch))
  ∧ chosen_names (fs DemoSite.with_folder) Demo.folder (form_files Demo.launch)
    = [py "a.png"; py "a_2.png"]
  ∧ ∃ names w',
      names = chosen_names (fs DemoSite.with_folder) Demo.folder (form_files Demo.launch)
      ∧ admin_new_files Demo.folder Demo.card_id (form_files Demo.launch) []
          DemoSite.with_folder
        = Ok ([] ++ (stored_file Demo.card_id <$> names)) w'
      ∧ Forall2 (λ n f,
                   (n = safe_name f
                    ∨ ∃ k, (2 ≤ k)%N
                           ∧ n = candidate_name (split_ext (safe_name f)).1
                                   (split_ext (safe_name f)).2 k)
                   ∧ fs DemoSite.with_folder !! path_join Demo.folder n = None
                   ∧ fs w' !! path_join Demo.folder n = Some (File (stream f)))
          names (List.filter accepted (form_files Demo.launch))
      ∧ (∀ p, p ∉ path_join Demo.folder <$> names →
              fs w' !! p = fs DemoSite.with_folder !! p)
      ∧ flashes w'
        = flashes DemoSite.with_folder
          ++ ((λ f, (MsgUnsupportedExtension (getattr_filename f), "error"%string))
                <$> List.filter refused (form_files Demo.launch)).
Proof.
  assert (fs DemoSite.with_folder !! Demo.folder = Some Dir) as Hdir
    by apply lookup_singleton_eq.
  assert (chosen_names (fs DemoSite.with_folder) Demo.folder (form_files Demo.launch)
          = [py "a.png"; py "a_2.png"]) as Hnames by (by vm_compute).
  assert (Forall (λ n, fits Demo.folder n = true)
            (chosen_names (fs DemoSite.with_folder) Demo.folder (form_files Demo.launch)))
    as Hfit.
  { rewrite Hnames. repeat apply Forall_cons_2; [..|apply Forall_nil_2]; reflexivity. }
  split_and!; [done|done|done|].
  exact (admin_new_files_stores_accepted Demo.folder Demo.card_id
           (form_files Demo.launch) [] DemoSite.with_folder Hdir Hfit).
Defined.

Lemma ascii_url_text id n :
  unicode_text id → unicode_text n → unicode_text (url_for_uploaded_file id n).
Proof.
  intros Hid Hn. cbn [url_for_uploaded_file ascii_runtime].
  repeat apply unicode_text_app; done.
Qed.

Lemma launch_names :
  chosen_names (<[Demo.folder := Dir]> (fs DemoSite.started)) Demo.folder
    (form_files Demo.launch)
  = [py "a.png"; py "a_2.png"].
Proof. by vm_compute. Qed.

Lemma launch_uuid :
  Forall (λ c, c ∈ hexdigits) (uuid4_hex Demo.launch).
Proof. apply (bool_decide_unpack _). by vm_compute. Qed.

Lemma log_ok_started : log_ok Demo.app DemoSite.started.
Proof. apply log_ok_fresh; by vm_compute. Qed.

Lemma admin_new_publishes_witness :
  strip (default [] (form_title Demo.launch)) ≠ []
  ∧ Forall unicode_text
      [default [] (form_title Demo.launch); default [] (form_description Demo.launch);
       utcnow_isoformat Demo.launch]
  ∧ Forall (λ c, c ∈ hexdigits) (uuid4_hex Demo.launch)
  ∧ length (uuid4_hex Demo.launch) = 32
  ∧ (∀ id n, unicode_text id → unicode_text n →
             unicode_text (url_for_uploaded_file id n))
  ∧ (∀ data, fs DemoSite.started !! Demo.folder ≠ Some (File data))
  ∧ ¬ Demo.folder `prefix_of` cards_csv_path Demo.app
  ∧ ¬ Demo.folder `prefix_of` lock_path Demo.app
  ∧ log_ok Demo.app DemoSite.started
  ∧ fs DemoSite.started !! DATA_DIR Demo.app = Some Dir
  ∧ fs DemoSite.started !! UPLOADS_DIR Demo.app = Some Dir
  ∧ Forall (λ n, fits Demo.folder n = true)
      (chosen_names (<[Demo.folder := Dir]> (fs DemoSite.started)) Demo.folder
         (form_files Demo.launch))
  ∧ ∃ old w0 w' w'',
      load_cards Demo.app DemoSite.started = Ok old w0
      ∧ admin_new Demo.app "POST" Demo.launch DemoSite.started = Ok (Redirect "index") w'
      ∧ load_cards Demo.app w'
        = Ok (old ++ [card_dict {|
                c_id := Demo.card_id;
                c_created_at := py "2024-05-01T10:00:00" ++ py "Z";
                c_title := py "Launch";
                c_description := [];
                c_files :=
                  stored_file Demo.card_id
                    <$> chosen_names (<[Demo.folder := Dir]> (fs DemoSite.started))
                          Demo.folder (form_files Demo.launch) |}]) w''
      ∧ Forall2 (λ n f, fs w' !! path_join Demo.folder n = Some (File (stream f)))
          (chosen_names (<[Demo.folder := Dir]> (fs DemoSite.started)) Demo.folder
             (form_files Demo.launch))
          (List.filter accepted (form_files Demo.launch))
      ∧ fs w' !! Demo.folder = Some Dir
      ∧ (∀ p, ¬ Demo.folder `prefix_of` p → p ≠ cards_csv_path Demo.app →
              p ≠ lock_path Demo.app → fs w' !! p = fs DemoSite.started !! p)
      ∧ last (flashes w') = Some (MsgPublished, "ok"%string).
Proof.
  assert (strip (default [] (form_title Demo.launch)) ≠ []) as Htitle by done.
  assert (Forall unicode_text
            [default [] (form_title Demo.launch);
             default [] (form_description Demo.launch);
             utcnow_isoformat Demo.launch]) as Hform.
  { repeat apply Forall_cons_2; [..|apply Forall_nil_2]; reflexivity. }
  assert (length (uuid4_hex Demo.launch) = 32) as Hlen by reflexivity.
  assert (∀ data, fs DemoSite.started !! Demo.folder ≠ Some (File data)) as Hfolder.
  { intros data. by vm_compute. }
  assert (¬ Demo.folder `prefix_of` cards_csv_path Demo.app) as Hcsv.
  { apply (bool_decide_unpack _). by vm_compute. }
  assert (¬ Demo.folder `prefix_of` lock_path Demo.app) as Hlock.
  { apply (bool_decide_unpack _). by vm_compute. }
  assert (fs DemoSite.started !! DATA_DIR Demo.app = Some Dir) as Hdata
    by (by vm_compute).
  assert (fs DemoSite.started !! UPLOADS_DIR Demo.app = Some Dir) as Huploads
    by (by vm_compute).
  assert (Forall (λ n, fits Demo.folder n = true)
            (chosen_names (<[Demo.folder := Dir]> (fs DemoSite.started)) Demo.folder
               (form_files Demo.launch))) as Hfit.
  { rewrite launch_names.
    repeat apply Forall_cons_2; [..|apply Forall_nil_2]; reflexivity. }
  split_and!; [done|done|exact launch_uuid|done|exact ascii_url_text|done|done|done|
               exact log_ok_started|done|done|done|].
  exact (admin_new_publishes Demo.app Demo.launch DemoSite.started
           Htitle Hform launch_uuid Hlen ascii_url_text Hfolder Hcsv Hlock
           log_ok_started Hdata Huploads Hfit).
Defined.

Lemma load_cards_line_endings_witness :
  fs DemoSite.dos_world !! cards_csv_path Demo.app
  = Some (File (concat ((λ l, l ++ [CR; LF]) <$> DemoSite.dos_lines)))
  ∧ fs DemoSite.dos_world !! lock_path Demo.app ≠ Some Dir
  ∧ ([CR; LF] = [LF] ∨ [CR; LF] = [CR; LF] ∨ [CR; LF] = [CR])
  ∧ Forall (λ l, (LF ∉ l) ∧ (CR ∉ l)) (DemoSite.dos_lines ++ [[]])
  ∧ utf8_decode (concat ((λ l, l ++ [CR; LF]) <$> DemoSite.dos_lines))
    = Some (concat ((λ l, l ++ [CR; LF]) <$> DemoSite.dos_lines) ++ [])
  ∧ omap line_card (DemoSite.dos_lines ++ [[]])
    = [PDict [(py "id", PStr (py "ab12cd34ef"))]; PInt 7]
  ∧ ∃ w',
      load_cards Demo.app DemoSite.dos_world
      = Ok (omap line_card (DemoSite.dos_lines ++ [[]])) w'
      ∧ omap line_card (DemoSite.dos_lines ++ [[]])
        = omap line_card (List.filter (λ l, truthy (strip l)) (DemoSite.dos_lines ++ [[]])).
Proof.
  assert (fs DemoSite.dos_world !! cards_csv_path Demo.app
          = Some (File (concat ((λ l, l ++ [CR; LF]) <$> DemoSite.dos_lines)))) as Hp
    by (by vm_compute).
  assert (fs DemoSite.dos_world !! lock_path Demo.app ≠ Some Dir) as Hl
    by (by vm_compute).
  assert ([CR; LF] = [LF] ∨ [CR; LF] = [CR; LF] ∨ [CR; LF] = [CR]) as Heol
    by (right; by left).
  assert (Forall (λ l, (LF ∉ l) ∧ (CR ∉ l)) (DemoSite.dos_lines ++ [[]])) as Hall.
  { repeat constructor; apply (bool_decide_unpack _); by vm_compute. }
  assert (utf8_decode (concat ((λ l, l ++ [CR; LF]) <$> DemoSite.dos_lines))
          = Some (concat ((λ l, l ++ [CR; LF]) <$> DemoSite.dos_lines) ++ [])) as Hd
    by (by vm_compute).
  split_and!; [done|done|done|done|done|by vm_compute|].
  exact (load_cards_line_endings Demo.app DemoSite.dos_world _ [CR; LF]
           DemoSite.dos_lines [] Hp Hl Heol Hall Hd).
Defined.

Lemma append_cards_in_order_witness :
  Forall (λ card, storable card = true ∧ utf8_safe card = true
                  ∧ within_limits card = true)
    [card_dict DemoLog.card; DemoSite.new_card]
  ∧ log_ok Demo.app DemoLog.world_with_log
  ∧ ∃ old w0 w1 w2,
      load_cards Demo.app DemoLog.world_with_log = Ok old w0
      ∧ append_cards Demo.app [card_dict DemoLog.card; DemoSite.new_card]
          DemoLog.world_with_log = Ok tt w1
      ∧ load_cards Demo.app w1
        = Ok (old ++ [card_dict DemoLog.card; DemoSite.new_card]) w2
      ∧ log_ok Demo.app w1
      ∧ (fs DemoLog.world_with_log !! cards_csv_path Demo.app = None → old = []).
Proof.
  assert (Forall (λ card, storable card = true ∧ utf8_safe card = true
                          ∧ within_limits card = true)
            [card_dict DemoLog.card; DemoSite.new_card]) as Hall.
  { repeat apply Forall_cons_2; [..|apply Forall_nil_2]; split_and!; by vm_compute. }
  split_and!; [done|exact log_ok_world_with_log|].
  exact (append_cards_in_order Demo.app _ DemoLog.world_with_log Hall
           log_ok_world_with_log).
Defined.

Lemma index_newest_first_witness :
  load_cards Demo.app DemoSite.dated_world
  = Ok [DemoSite.old_card; DemoSite.undated_card; DemoSite.new_card]
       (locked Demo.app DemoSite.dated_world)
  ∧ Forall dated [DemoSite.old_card; DemoSite.undated_card; DemoSite.new_card]
  ∧ newest_first [DemoSite.old_card; DemoSite.undated_card; DemoSite.new_card]
    = [DemoSite.new_card; DemoSite.old_card; DemoSite.undated_card]
  ∧ ∃ shown,
      index DemoSite.sort_other DemoSite.site (session DemoSite.visitor)
        DemoSite.dated_world
      = Ok (inr (RenderTemplate "index.html" (Some shown)
                   (is_admin (session DemoSite.visitor))))
           (locked Demo.app DemoSite.dated_world)
      ∧ shown ≡ₚ [DemoSite.old_card; DemoSite.undated_card; DemoSite.new_card]
      ∧ StronglySorted (λ a b, str_lt (card_key a) (card_key b) = false) shown
      ∧ (∀ k, filter (λ x, card_key x = k) shown
              = filter (λ x, card_key x = k)
                  [DemoSite.old_card; DemoSite.undated_card; DemoSite.new_card])
      ∧ (∀ old card,
           [DemoSite.old_card; DemoSite.undated_card; DemoSite.new_card] = old ++ [card] →
           Forall (λ x, str_lt (card_key x) (card_key card) = true) old →
           head shown = Some card).
Proof.
  assert (load_cards Demo.app DemoSite.dated_world
          = Ok [DemoSite.old_card; DemoSite.undated_card; DemoSite.new_card]
               (locked Demo.app DemoSite.dated_world)) as Hload
    by (vm_compute; reflexivity).
  assert (Forall dated [DemoSite.old_card; DemoSite.undated_card; DemoSite.new_card])
    as Hall.
  { repeat apply Forall_cons_2; [..|apply Forall_nil_2]; by eexists. }
  split_and!; [done|done|by vm_compute|].
  exact (index_newest_first DemoSite.sort_other DemoSite.site
           (session DemoSite.visitor) DemoSite.dated_world _ _ Hload Hall).
Defined.

Lemma json_round_trip_witness :
  storable (card_dict DemoLog.card) = true
  ∧ within_limits (card_dict DemoLog.card) = true
  ∧ loads (dumps (card_dict DemoLog.card)) = Some (card_dict DemoLog.card).
Proof.
  assert (storable (card_dict DemoLog.card) = true) as Hst by (by vm_compute).
  assert (within_limits (card_dict DemoLog.card) = true) as Hlim by (by vm_compute).
  split_and!; [done|done|]. exact (json_round_trip (card_dict DemoLog.card) Hst Hlim).
Defined.

(** The log of [DemoLog] holds a number and a list beside its card: the
    index raises. *)
Example index_breaks_demo :
  index DemoSite.sort_other DemoSite.site ∅ DemoLog.world_with_log
  = Ok (inl AttributeError) (locked Demo.app DemoLog.world_with_log).
Proof. vm_compute. reflexivity. Qed.

(** A file named in Cyrillic, with the extension [png]. *)
Definition cyrillic_png : FileStorage :=
  {| filename := Some ([1092; 1072; 1081; 1083]%N ++ py ".png"); stream := [1]%N |}.

Lemma non_ascii_name_refused_witness :
  filename cyrillic_png = Some ([1092; 1072; 1081; 1083]%N ++ py ".png")
  ∧ [1092; 1072; 1081; 1083]%N ++ py ".png" ≠ []
  ∧ nfkd ([1092; 1072; 1081; 1083]%N ++ py ".png")
    = [1092; 1072; 1081; 1083]%N ++ dot :: py "png"
  ∧ Forall (λ c, is_ascii c = false) [1092; 1072; 1081; 1083]%N
  ∧ forallb is_alnum (py "png") = true
  ∧ py "png" ≠ []
  ∧ secure_filename ([1092; 1072; 1081; 1083]%N ++ py ".png") = py "png"
  ∧ allowed_file (py "png") = false
  ∧ admin_new_files Demo.folder Demo.card_id [cyrillic_png] []
    = (flash (MsgUnsupportedExtension ([1092; 1072; 1081; 1083]%N ++ py ".png")) "error";;
       admin_new_files Demo.folder Demo.card_id [] []).
Proof.
  assert (Forall (λ c, is_ascii c = false) [1092; 1072; 1081; 1083]%N) as Hbase.
  { repeat apply Forall_cons_2; [..|apply Forall_nil_2]; reflexivity. }
  assert ([1092; 1072; 1081; 1083]%N ++ py ".png" ≠ []) as Hne by done.
  assert (py "png" ≠ []) as Hext by done.
  do 6 (split; [first [reflexivity|done]|]).
  exact (non_ascii_name_refused Demo.folder Demo.card_id cyrillic_png [] []
           ([1092; 1072; 1081; 1083]%N ++ py ".png") [1092; 1072; 1081; 1083]%N
           (py "png") eq_refl Hne eq_refl Hbase eq_refl Hext).
Defined.

(** A request made after the cards of [DemoSite.dated_world]. *)
Definition later_launch : post := {|
  form_title := Some (py "  Later  ");
  form_description := None;
  form_files := [Demo.upload "plan.PDF" [37; 80; 68; 70]%N];
  uuid4_hex := py "0123456789abcdef0123456789abcdef";
  utcnow_isoformat := py "2024-06-01T12:00:00";
|}.

Lemma log_ok_dated_started : log_ok Demo.app DemoSite.dated_started.
Proof.
  split_and!; [by vm_compute|by vm_compute|].
  exists (dumps DemoSite.old_card ++ [LF] ++ dumps DemoSite.undated_card ++ [LF]
          ++ dumps DemoSite.new_card ++ [LF]).
  split; [by vm_compute|right; by vm_compute].
Qed.

Lemma later_launch_names :
  chosen_names (<[Demo.folder := Dir]> (fs DemoSite.dated_started)) Demo.folder
    (form_files later_launch)
  = [py "plan.PDF"].
Proof. by vm_compute. Qed.

Lemma published_card_listed_first_witness :
  strip (default [] (form_title later_launch)) ≠ []
  ∧ Forall unicode_text
      [default [] (form_title later_launch); default [] (form_description later_launch);
       utcnow_isoformat later_launch]
  ∧ Forall (λ c, c ∈ hexdigits) (uuid4_hex later_launch)
  ∧ length (uuid4_hex later_launch) = 32
  ∧ (∀ id n, unicode_text id → unicode_text n →
             unicode_text (url_for_uploaded_file id n))
  ∧ (∀ data, fs DemoSite.dated_started !! Demo.folder ≠ Some (File data))
  ∧ ¬ Demo.folder `prefix_of` cards_csv_path Demo.app
  ∧ ¬ Demo.folder `prefix_of` lock_path Demo.app
  ∧ log_ok Demo.app DemoSite.dated_started
  ∧ fs DemoSite.dated_started !! DATA_DIR Demo.app = Some Dir
  ∧ fs DemoSite.dated_started !! UPLOADS_DIR Demo.app = Some Dir
  ∧ Forall (λ n, fits Demo.folder n = true)
      (chosen_names (<[Demo.folder := Dir]> (fs DemoSite.dated_started)) Demo.folder
         (form_files later_launch))
  ∧ load_cards Demo.app DemoSite.dated_started
    = Ok [DemoSite.old_card; DemoSite.undated_card; DemoSite.new_card]
         (locked Demo.app DemoSite.dated_started)
  ∧ Forall dated [DemoSite.old_card; DemoSite.undated_card; DemoSite.new_card]
  ∧ Forall (λ x, str_lt (card_key x) (py "2024-06-01T12:00:00" ++ py "Z") = true)
      [DemoSite.old_card; DemoSite.undated_card; DemoSite.new_card]
  ∧ ∃ w' w'' rest,
      admin_new Demo.app "POST" later_launch DemoSite.dated_started
      = Ok (Redirect "index") w'
      ∧ index DemoSite.sort_other DemoSite.site (session DemoSite.visitor) w'
        = Ok (inr (RenderTemplate "index.html"
                     (Some (card_dict {|
                              c_id := Demo.card_id;
                              c_created_at := py "2024-06-01T12:00:00" ++ py "Z";
                              c_title := py "Later";
                              c_description := [];
                              c_files :=
                                stored_file Demo.card_id
                                  <$> chosen_names
                                        (<[Demo.folder := Dir]>
                                           (fs DemoSite.dated_started))
                                        Demo.folder (form_files later_launch) |}
                            :: rest))
                     (is_admin (session DemoSite.visitor)))) w''
      ∧ rest ≡ₚ [DemoSite.old_card; DemoSite.undated_card; DemoSite.new_card].
Proof.
  assert (strip (default [] (form_title later_launch)) ≠ []) as Htitle by done.
  assert (Forall unicode_text
            [default [] (form_title later_launch);
             default [] (form_description later_launch);
             utcnow_isoformat later_launch]) as Hform.
  { repeat apply Forall_cons_2; [..|apply Forall_nil_2]; reflexivity. }
  assert (length (uuid4_hex later_launch) = 32) as Hlen by reflexivity.
  assert (∀ data, fs DemoSite.dated_started !! Demo.folder ≠ Some (File data))
    as Hfolder.
  { intros data. by vm_compute. }
  assert (¬ Demo.folder `prefix_of` cards_csv_path Demo.app) as Hcsv.
  { apply (bool_decide_unpack _). by vm_compute. }
  assert (¬ Demo.folder `prefix_of` lock_path Demo.app) as Hlock.
  { apply (bool_decide_unpack _). by vm_compute. }
  assert (fs DemoSite.dated_started !! DATA_DIR Demo.app = Some Dir) as Hdata
    by (by vm_compute).
  assert (fs DemoSite.dated_started !! UPLOADS_DIR Demo.app = Some Dir) as Huploads
    by (by vm_compute).
  assert (Forall (λ n, fits Demo.folder n = true)
            (chosen_names (<[Demo.folder := Dir]> (fs DemoSite.dated_started))
               Demo.folder (form_files later_launch))) as Hfit.
  { rewrite later_launch_names.
    repeat apply Forall_cons_2; [..|apply Forall_nil_2]; reflexivity. }
  assert (load_cards Demo.app DemoSite.dated_started
          = Ok [DemoSite.old_card; DemoSite.undated_card; DemoSite.new_card]
               (locked Demo.app DemoSite.dated_started)) as Hload
    by (vm_compute; reflexivity).
  assert (Forall dated [DemoSite.old_card; DemoSite.undated_card; DemoSite.new_card])
    as Hdated.
  { repeat apply Forall_cons_2; [..|apply Forall_nil_2]; by eexists. }
  assert (Forall (λ x, str_lt (card_key x) (py "2024-06-01T12:00:00" ++ py "Z") = true)
            [DemoSite.old_card; DemoSite.undated_card; DemoSite.new_card]) as Hbelow.
  { repeat apply Forall_cons_2; [..|apply Forall_nil_2]; reflexivity. }
  split_and!; [done|done|exact launch_uuid|done|exact ascii_url_text|done|done|done|
               exact log_ok_dated_started|done|done|done|done|done|done|].
  exact (published_card_listed_first DemoSite.sort_other DemoSite.site
           (session DemoSite.visitor) later_launch DemoSite.dated_started _ _
           Htitle Hform launch_uuid Hlen ascii_url_text Hfolder Hcsv Hlock
           log_ok_dated_started Hdata Huploads Hfit Hload Hdated Hbelow).
Defined.

Lemma admin_login_then_publish_witness :
  "POST"%string = "POST"%string
  ∧ ADMIN_PASSWORD DemoSite.site ≠ []
  ∧ default [] (Some (py "s3cret")) = ADMIN_PASSWORD DemoSite.site
  ∧ strip (default [] (form_title Demo.launch)) ≠ []
  ∧ Forall unicode_text
      [default [] (form_title Demo.launch); default [] (form_description Demo.launch);
       utcnow_isoformat Demo.launch]
  ∧ Forall (λ c, c ∈ hexdigits) (uuid4_hex Demo.launch)
  ∧ length (uuid4_hex Demo.launch) = 32
  ∧ (∀ id n, unicode_text id → unicode_text n →
             unicode_text (url_for_uploaded_file id n))
  ∧ (∀ data, fs DemoSite.started !! Demo.folder ≠ Some (File data))
  ∧ ¬ Demo.folder `prefix_of` cards_csv_path Demo.app
  ∧ ¬ Demo.folder `prefix_of` lock_path Demo.app
  ∧ log_ok Demo.app DemoSite.started
  ∧ fs DemoSite.started !! DATA_DIR Demo.app = Some Dir
  ∧ fs DemoSite.started !! UPLOADS_DIR Demo.app = Some Dir
  ∧ Forall (λ n, fits Demo.folder n = true)
      (chosen_names (<[Demo.folder := Dir]> (fs DemoSite.started)) Demo.folder
         (form_files Demo.launch))
  ∧ ∃ old w0 b' w' w'',
      load_cards Demo.app DemoSite.started = Ok old w0
      ∧ serve_all DemoSite.sort_other DemoSite.site
          [AdminLogin "POST" (Some (py "s3cret")); AdminNew "POST" Demo.launch]
          DemoSite.visitor DemoSite.started
        = Some (b', w')
      ∧ is_admin (session b') = true
      ∧ load_cards Demo.app w'
        = Ok (old ++ [card_dict {|
                c_id := Demo.card_id;
                c_created_at := py "2024-05-01T10:00:00" ++ py "Z";
                c_title := py "Launch";
                c_description := [];
                c_files :=
                  stored_file Demo.card_id
                    <$> chosen_names (<[Demo.folder := Dir]> (fs DemoSite.started))
                          Demo.folder (form_files Demo.launch) |}]) w''.
Proof.
  assert (ADMIN_PASSWORD DemoSite.site ≠ []) as Hset by done.
  assert (strip (default [] (form_title Demo.launch)) ≠ []) as Htitle by done.
  assert (Forall unicode_text
            [default [] (form_title Demo.launch);
             default [] (form_description Demo.launch);
             utcnow_isoformat Demo.launch]) as Hform.
  { repeat apply Forall_cons_2; [..|apply Forall_nil_2]; reflexivity. }
  assert (length (uuid4_hex Demo.launch) = 32) as Hlen by reflexivity.
  assert (∀ data, fs DemoSite.started !! Demo.folder ≠ Some (File data)) as Hfolder.
  { intros data. by vm_compute. }
  assert (¬ Demo.folder `prefix_of` cards_csv_path Demo.app) as Hcsv.
  { apply (bool_decide_unpack _). by vm_compute. }
  assert (¬ Demo.folder `prefix_of` lock_path Demo.app) as Hlock.
  { apply (bool_decide_unpack _). by vm_compute. }
  assert (fs DemoSite.started !! DATA_DIR Demo.app = Some Dir) as Hdata
    by (by vm_compute).
  assert (fs DemoSite.started !! UPLOADS_DIR Demo.app = Some Dir) as Huploads
    by (by vm_compute).
  assert (Forall (λ n, fits Demo.folder n = true)
            (chosen_names (<[Demo.folder := Dir]> (fs DemoSite.started)) Demo.folder
               (form_files Demo.launch))) as Hfit.
  { rewrite launch_names.
    repeat apply Forall_cons_2; [..|apply Forall_nil_2]; reflexivity. }
  split_and!; [done|done|done|done|done|exact launch_uuid|done|exact ascii_url_text|
               done|done|done|exact log_ok_started|done|done|done|].
  exact (admin_login_then_publish DemoSite.sort_other DemoSite.site "POST"
           (Some (py "s3cret")) DemoSite.visitor Demo.launch DemoSite.started
           eq_refl Hset eq_refl Htitle Hform launch_uuid Hlen ascii_url_text
           Hfolder Hcsv Hlock log_ok_started Hdata Huploads Hfit).
Defined.
